(** * A shallow embedding of the tutorial generator's gateway, flow and crawler

    The development follows three source files:

    - [utils/call_llm.py]: the LLM invocation gateway ([call_llm]) with its
      on-disk response cache and its chunked prompt compression;
    - [flow.py]: the wiring of the tutorial pipeline ([create_tutorial_flow]);
    - [utils/crawl_gitlab_files.py]: the GitLab crawler ([crawl_gitlab_files]).

    Python strings are modelled as Rocq strings whose characters are the code
    points below 256; integers are [Z]; dictionaries are [gmap]s; the file
    system, the LLM provider and the GitLab server are explicit parts of the
    state the functions run in. *)

From Stdlib Require Import ZArith Lia Ascii String List Bool.
From stdpp Require Import base option list gmap strings.

Local Open Scope string_scope.
Local Open Scope Z_scope.

(** ** Python string primitives *)

Module PyStr.

(** [len(s)] *)
Definition len (s : string) : Z := Z.of_nat (String.length s).

(** [s[:n]] for [n >= 0]. *)
Fixpoint take (n : nat) (s : string) : string :=
  match n, s with
  | S n', String c s' => String c (take n' s')
  | _, _ => EmptyString
  end.

(** [s[n:]] for [n >= 0]. *)
Fixpoint drop (n : nat) (s : string) : string :=
  match n, s with
  | S n', String _ s' => drop n' s'
  | _, _ => s
  end.

(** [s[i:j]] for [0 <= i]; an upper bound at or below [i] gives the empty
    string, as slicing does. *)
Definition slice (i j : Z) (s : string) : string :=
  take (Z.to_nat (j - i)) (drop (Z.to_nat i) s).

(** [str.isspace] on one character (code points below 256). *)
Definition is_space (c : ascii) : bool :=
  let n := nat_of_ascii c in
  ((9 <=? n) && (n <=? 13) || (28 <=? n) && (n <=? 32)
   || (n =? 133) || (n =? 160))%nat.

Fixpoint lstrip_by (p : ascii -> bool) (s : string) : string :=
  match s with
  | String c s' => if p c then lstrip_by p s' else s
  | EmptyString => EmptyString
  end.

(** Drops the trailing characters that satisfy [p]. *)
Fixpoint rstrip_by (p : ascii -> bool) (s : string) : string :=
  match s with
  | EmptyString => EmptyString
  | String c s' =>
      match rstrip_by p s' with
      | EmptyString => if p c then EmptyString else String c EmptyString
      | r => String c r
      end
  end.

(** [s.strip()] *)
Definition strip (s : string) : string :=
  rstrip_by is_space (lstrip_by is_space s).

(** [s.lstrip("/")] *)
Definition lstrip_slash (s : string) : string :=
  lstrip_by (fun c => Ascii.eqb c "/"%char) s.

(** [str.lower] on one character: the ASCII capitals and the Latin-1
    capitals (U+00C0..U+00DE without the multiplication sign). *)
Definition lower_char (c : ascii) : ascii :=
  let n := nat_of_ascii c in
  if ((65 <=? n) && (n <=? 90)
      || (192 <=? n) && (n <=? 222) && negb (n =? 215))%nat
  then ascii_of_nat (n + 32) else c.

Fixpoint lower (s : string) : string :=
  match s with
  | EmptyString => EmptyString
  | String c s' => String (lower_char c) (lower s')
  end.

(** [s.startswith(p)] *)
Fixpoint startswith (s p : string) : bool :=
  match p, s with
  | EmptyString, _ => true
  | String a p', String b s' => Ascii.eqb a b && startswith s' p'
  | String _ _, EmptyString => false
  end.

(** [needle in hay] for two strings. *)
Fixpoint contains (needle hay : string) : bool :=
  startswith hay needle
  || match hay with
     | EmptyString => false
     | String _ hay' => contains needle hay'
     end.

(** [sep.join(parts)] *)
Fixpoint join (sep : string) (parts : list string) : string :=
  match parts with
  | [] => EmptyString
  | [p] => p
  | p :: ps => String.append p (String.append sep (join sep ps))
  end.

Definition is_digit (c : ascii) : bool :=
  let n := nat_of_ascii c in ((48 <=? n) && (n <=? 57))%nat.

(** The digits of a decimal literal, where single underscores may separate
    digits. [after_digit] tells whether the previous character was a digit. *)
Fixpoint digits (acc : Z) (after_digit : bool) (s : string) : option Z :=
  match s with
  | EmptyString => if after_digit then Some acc else None
  | String c s' =>
      if is_digit c
      then digits (10 * acc + Z.of_nat (nat_of_ascii c - 48)) true s'
      else if Ascii.eqb c "_"%char && after_digit then digits acc false s'
      else None
  end.

(** The white space [int] skips around a literal: the ASCII white space
    (tab to carriage return, and the space), and U+0085 and U+00A0, which its
    conversion of a non-ASCII string turns into spaces. The separators
    U+001C..U+001F, which [str.isspace] and [str.strip] take for white space,
    are not among them: [int] raises on them. *)
Definition is_int_space (c : ascii) : bool :=
  let n := nat_of_ascii c in
  ((9 <=? n) && (n <=? 13) || (n =? 32) || (n =? 133) || (n =? 160))%nat.

(** The number of digits of a literal, leading zeros included, underscores
    not. *)
Fixpoint count_digits (s : string) : nat :=
  match s with
  | EmptyString => 0
  | String c s' => ((if is_digit c then 1 else 0) + count_digits s')%nat
  end.

(** [sys.int_max_str_digits], at the interpreter's default. *)
Definition int_max_str_digits : nat := 4300.

(** The digits of a literal without its sign: [None] above the limit on the
    number of digits, as for a malformed literal. *)
Definition unsigned (ds : string) : option Z :=
  if (int_max_str_digits <? count_digits ds)%nat then None
  else digits 0 false ds.

(** [int(s)] in base ten: surrounding white space, an optional sign,
    digits. [None] stands for the [ValueError]. *)
Definition to_int (s : string) : option Z :=
  match rstrip_by is_int_space (lstrip_by is_int_space s) with
  | String "-"%char ds => Z.opp <$> unsigned ds
  | String "+"%char ds => unsigned ds
  | ds => unsigned ds
  end.

(** [len(s.encode("utf-8"))]: one byte below U+0080, two up to U+00FF. *)
Fixpoint utf8_size (s : string) : Z :=
  match s with
  | EmptyString => 0
  | String c s' => (if (nat_of_ascii c <? 128)%nat then 1 else 2) + utf8_size s'
  end.

(** [range(0, stop, step)]; [None] stands for the [ValueError] that a zero
    step raises. *)
Definition range0 (stop step : Z) : option (list Z) :=
  if step =? 0 then None
  else if (step <? 0) || (stop <=? 0) then Some []
  else Some (map (fun k => Z.of_nat k * step)
                 (seq 0 (Z.to_nat ((stop + step - 1) / step)))).

End PyStr.

(** ** JSON documents and Python values

    [json.load] yields, and [json.dump] accepts, values of this type. It also
    serves as the type of the Python values the gateway handles: a string is
    [JStr], [None] is [JNull], a [dict] with string keys is [JObj]. A number
    is kept as its literal. *)

#[warnings="-register-all"]
Inductive json :=
| JNull
| JBool (b : bool)
| JNum (lit : string)
| JStr (s : string)
| JArr (xs : list json)
| JObj (kvs : gmap string json).

(** ** The invocation gateway: [utils/call_llm.py] *)

Module Gateway.

(** Exceptions that reach the gateway's control flow. [str(e)] of a client
    exception is its message. *)
Inductive exn :=
| BadRequestError (msg : string)   (* openai.BadRequestError *)
| ClientError (msg : string)       (* any other exception raised by a client call *)
| AttributeError (msg : string)
| KeyError (key : string)
| TypeError (msg : string)
| ValueError (msg : string).

Inductive result (A : Type) :=
| Ret (a : A)
| Raise (e : exn).
Arguments Ret {A} a.
Arguments Raise {A} e.

(** The file [llm_cache.json], by what [os.path.exists], [open] and
    [json.load] make of it. *)
Inductive file :=
| Missing                  (* os.path.exists(cache_file) is false *)
| Unreadable               (* exists, open(..., "r") or the read raises *)
| Empty                    (* exists with no content: json.load raises *)
| Garbled                  (* exists, content is not a JSON document *)
| Document (v : json).     (* exists, json.load returns v *)

(** How writing the cache file can fail: [open(cache_file, "w")] raises and
    the file stays as it was, or [json.dump] raises after [open] truncated the
    file, with or without part of the text flushed. *)
Inductive fault :=
| OpenFails
| DumpFails (flushed : bool).

Record message := Message { role : string; content : string }.

(** A call on a provider client: [client.chat.completions.create] or
    [client.models.generate_content]. *)
Inductive request :=
| ChatCompletion (model : string) (messages : list message)
| GenerateContent (model : string) (contents : list string).

(** What the client call gives: the text of the response
    ([r.choices[0].message.content], [response.text]; [None] is possible) or
    an exception. *)
Inductive reply :=
| Reply (text : option string)
| Failure (e : exn).

Inductive level := INFO | WARNING | ERROR.

(** The records the gateway hands to its logger, one constructor per call
    site. *)
Inductive record :=
| LogPrompt (prompt : string)
| LogResponse (v : json)
| LogCacheLoadFailed
| LogCompressing (provider : string) (length limit : Z)
| LogContextRetry
| LogCacheSaveFailed.

(** What a run does to its surroundings, newest event first in a trace. *)
Inductive event :=
| Logged (lvl : level) (r : record)
| Exists (present : bool)                  (* os.path.exists(cache_file) *)
| Load (doc : option json)                 (* open + json.load; None: it raised *)
| Store (cache : json) (failed : option fault)  (* open "w" + json.dump *)
| Sent (req : request) (ans : reply).      (* one client call *)

Record World := { cache_file : file; trace : list event }.

(** The surroundings of a run: the process environment, the provider (which
    may answer by the requests it has seen), the other writers of the cache
    file (which act while a client call is in flight) and the disk's
    readiness to take a write. *)
Record Outside := {
  environ : gmap string string;
  respond : list request -> request -> reply;
  meanwhile : list request -> file -> file;
  disk_fault : option fault
}.

Definition M (A : Type) : Type := World -> result A * World.

Definition ret {A} (a : A) : M A := fun w => (Ret a, w).
Definition raise {A} (e : exn) : M A := fun w => (Raise e, w).
Definition bind {A B} (m : M A) (k : A -> M B) : M B :=
  fun w => match m w with
           | (Ret a, w') => k a w'
           | (Raise e, w') => (Raise e, w')
           end.
(** [try: m except Exception as e: h e] *)
Definition catch {A} (m : M A) (h : exn -> M A) : M A :=
  fun w => match m w with
           | (Ret a, w') => (Ret a, w')
           | (Raise e, w') => h e w'
           end.

Declare Scope gateway_scope.
Delimit Scope gateway_scope with gw.
Notation "x <- m ;; k" := (bind m (fun x => k))
  (at level 100, m at next level, right associativity) : gateway_scope.
Notation "m ;;; k" := (bind m (fun _ => k))
  (at level 100, right associativity) : gateway_scope.
Local Open Scope gateway_scope.

Definition emit (e : event) : M unit :=
  fun w => (Ret tt, {| cache_file := cache_file w; trace := e :: trace w |}).

Definition log (lvl : level) (r : record) : M unit := emit (Logged lvl r).

(** The requests of a trace, newest first. *)
Definition sent (t : list event) : list request :=
  omap (fun e => match e with Sent req _ => Some req | _ => None end) t.

(** [str] or [None] as a Python value. *)
Definition of_text (t : option string) : json :=
  match t with Some s => JStr s | None => JNull end.

(** [t.strip()] on a response text. *)
Definition strip_text (t : option string) : M string :=
  match t with
  | Some s => ret (PyStr.strip s)
  | None => raise (AttributeError "'NoneType' object has no attribute 'strip'")
  end.

(** [prompt in cache] *)
Definition py_in (prompt : string) (cache : json) : M bool :=
  match cache with
  | JObj kvs => ret (bool_decide (is_Some (kvs !! prompt)))
  | JArr xs =>
      ret (existsb (fun x => match x with
                             | JStr s => String.eqb s prompt
                             | _ => false
                             end) xs)
  | JStr s => ret (PyStr.contains prompt s)
  | _ => raise (TypeError "argument is not iterable")
  end.

(** [cache[prompt]] *)
Definition py_getitem (cache : json) (prompt : string) : M json :=
  match cache with
  | JObj kvs =>
      match kvs !! prompt with
      | Some v => ret v
      | None => raise (KeyError prompt)
      end
  | _ => raise (TypeError "indices must be integers")
  end.

(** [cache[prompt] = value] *)
Definition py_setitem (cache : json) (prompt : string) (value : json) : M json :=
  match cache with
  | JObj kvs => ret (JObj (<[prompt := value]> kvs))
  | _ => raise (TypeError "object does not support item assignment")
  end.

Section Run.

Variable out : Outside.

(** [os.getenv(name)] and [os.getenv(name, default)] *)
Definition getenv (name : string) : option string := environ out !! name.
Definition getenv_or (name fallback : string) : string :=
  default fallback (getenv name).

(** The override both size functions try first: [if env_val:] holds for a
    set, non-empty variable, and [int(env_val)] may raise, which the bare
    [except] swallows. *)
Definition env_override (name : string) : option Z :=
  match getenv name with
  | Some env_val => if String.eqb env_val "" then None else PyStr.to_int env_val
  | None => None
  end.

Definition get_limit_chars (provider_name : string) : Z :=
  match env_override "LLM_MAX_PROMPT_CHARS" with
  | Some n => n
  | None => if String.eqb provider_name "openai" then 350000 else 1200000
  end.

Definition get_chunk_size_chars (provider_name : string) : Z :=
  match env_override "LLM_CHUNK_SIZE_CHARS" with
  | Some n => n
  | None => if String.eqb provider_name "openai" then 120000 else 300000
  end.

(** One client call. The provider sees the request and those before it; the
    other writers of the cache file act while the call is in flight. *)
Definition send (req : request) : M (option string) :=
  fun w =>
    let prior := sent (trace w) in
    let ans := respond out prior req in
    let w' := {| cache_file := meanwhile out prior (cache_file w);
                 trace := Sent req ans :: trace w |} in
    match ans with
    | Reply text => (Ret text, w')
    | Failure e => (Raise e, w')
    end.

Definition instruction : string :=
  "You will compress a large, technical context for downstream analysis.
Requirements:
- Preserve key APIs, function/class names, file paths, and important code lines
- Keep crucial semantics; remove boilerplate and repeated sections
- Output concise plain text (no YAML fences)
".

Definition chunk_prefix : string := "Compress this chunk:
".
Definition further_prefix : string :=
  "Further compress while preserving technical fidelity:
".

(** The two requests of a compression pass, per provider. *)
Definition openai_compress (model body : string) : request :=
  ChatCompletion model [Message "system" instruction; Message "user" body].
Definition google_compress (model body : string) : request :=
  GenerateContent model [instruction; body].

(** The request that carries the prompt itself. *)
Definition openai_final (model prompt : string) : request :=
  ChatCompletion model [Message "user" prompt].
Definition google_final (model prompt : string) : request :=
  GenerateContent model [prompt].

(** [for i in range(0, len(text), chunk_size)]: the body on each start index
    in turn, the summaries in order. *)
Fixpoint compress_chunks (compress : string -> request) (text : string)
    (chunk_size : Z) (starts : list Z) : M (list string) :=
  match starts with
  | [] => ret []
  | i :: rest =>
      let chunk := PyStr.slice i (i + chunk_size) text in
      r <- send (compress (String.append chunk_prefix chunk)) ;;
      summary <- strip_text r ;;
      summaries <- compress_chunks compress text chunk_size rest ;;
      ret (summary :: summaries)
  end.

(** [while len(combined) > max_chars and reduce_round < 3]; [rounds_left] is
    [3 - reduce_round]. *)
Fixpoint reduce_rounds (compress : string -> request) (max_chars : Z)
    (rounds_left : nat) (combined : string) : M string :=
  match rounds_left with
  | O => ret combined
  | S rounds_left' =>
      if PyStr.len combined >? max_chars
      then
        r <- send (compress (String.append further_prefix combined)) ;;
        combined' <- strip_text r ;;
        reduce_rounds compress max_chars rounds_left' combined'
      else ret combined
  end.

(** The common body of [summarize_chunks_openai] and
    [summarize_chunks_google], which differ in the provider name and the
    shape of the request. *)
Definition summarize_chunks (provider_name : string)
    (compress : string -> request) (text : string) (max_chars : Z) : M string :=
  let chunk_size := get_chunk_size_chars provider_name in
  match PyStr.range0 (PyStr.len text) chunk_size with
  | None => raise (ValueError "range() arg 3 must not be zero")
  | Some starts =>
      summaries <- compress_chunks compress text chunk_size starts ;;
      let combined := PyStr.join "

" summaries in
      reduce_rounds compress max_chars 3 combined
  end.

Definition summarize_chunks_openai (text model : string) (max_chars : Z) : M string :=
  summarize_chunks "openai" (openai_compress model) text max_chars.

Definition summarize_chunks_google (text model : string) (max_chars : Z) : M string :=
  summarize_chunks "google" (google_compress model) text max_chars.

(** [cache = {}], then the guarded load. [warn] tells the first load, which
    logs a warning when it fails, from the second, which does not. *)
Definition load_cache (warn : bool) : M json :=
  fun w =>
    match cache_file w with
    | Missing => (emit (Exists false) ;;; ret (JObj ∅)) w
    | Document v => (emit (Exists true) ;;; emit (Load (Some v)) ;;; ret v) w
    | Unreadable | Empty | Garbled =>
        (emit (Exists true) ;;; emit (Load None) ;;;
         (if warn then log WARNING LogCacheLoadFailed else ret tt) ;;;
         ret (JObj ∅)) w
    end.

(** [with open(cache_file, "w") as f: json.dump(cache, f)] inside its
    [try], the failure logged. *)
Definition save_cache (cache : json) : M unit :=
  fun w =>
    match disk_fault out with
    | None =>
        (Ret tt, {| cache_file := Document cache;
                    trace := Store cache None :: trace w |})
    | Some OpenFails =>
        log ERROR LogCacheSaveFailed
          {| cache_file := cache_file w;
             trace := Store cache (Some OpenFails) :: trace w |}
    | Some (DumpFails flushed) =>
        log ERROR LogCacheSaveFailed
          {| cache_file := if flushed then Garbled else Empty;
             trace := Store cache (Some (DumpFails flushed)) :: trace w |}
    end.

(** The guarded client call of the [openai] branch: the [try] around the
    call that carries the prompt, and its [except BadRequestError] handler. *)
Definition openai_attempt (model : string) (max_chars : Z)
    (effective_prompt : string) : M (option string) :=
  catch (send (openai_final model effective_prompt))
    (fun e =>
       match e with
       | BadRequestError msg =>
           if PyStr.contains "context length" (PyStr.lower msg)
           then
             log WARNING LogContextRetry ;;;
             effective_prompt' <-
               summarize_chunks_openai effective_prompt model (max_chars / 2) ;;
             send (openai_final model effective_prompt')
           else raise e
       | _ => raise e
       end).

(** The [openai] branch of [call_llm]. *)
Definition call_openai (prompt : string) : M (option string) :=
  let model := getenv_or "OPENAI_MODEL" "gpt-4o-mini" in
  let max_chars := get_limit_chars "openai" in
  effective_prompt <-
    (if PyStr.len prompt >? max_chars
     then log INFO (LogCompressing "openai" (PyStr.len prompt) max_chars) ;;;
          summarize_chunks_openai prompt model max_chars
     else ret prompt) ;;
  openai_attempt model max_chars effective_prompt.

(** The other branch of [call_llm]: Google Gemini. *)
Definition call_google (prompt : string) : M (option string) :=
  let model := getenv_or "GEMINI_MODEL" "gemini-2.5-flash" in
  let max_chars := get_limit_chars "google" in
  effective_prompt <-
    (if PyStr.len prompt >? max_chars
     then log INFO (LogCompressing "google" (PyStr.len prompt) max_chars) ;;;
          summarize_chunks_google prompt model max_chars
     else ret prompt) ;;
  send (google_final model effective_prompt).

(** The cache check at the head of [call_llm]: [Some v] is the early
    [return cache[prompt]]. *)
Definition check_cache (prompt : string) : M (option json) :=
  cache <- load_cache true ;;
  hit <- py_in prompt cache ;;
  if hit : bool
  then v <- py_getitem cache prompt ;;
       log INFO (LogResponse v) ;;;
       ret (Some v)
  else ret None.

(** The cache update at the foot of [call_llm]. *)
Definition update_cache (prompt : string) (response_text : json) : M unit :=
  cache <- load_cache false ;;
  cache' <- py_setitem cache prompt response_text ;;
  save_cache cache'.

(** [provider = os.getenv("LLM_PROVIDER", "google").lower()] *)
Definition provider : string := PyStr.lower (getenv_or "LLM_PROVIDER" "google").

(** The provider selection of [call_llm], from [if provider == "openai"] to
    the response text. *)
Definition call_provider (prompt : string) : M (option string) :=
  if String.eqb provider "openai" then call_openai prompt else call_google prompt.

Definition call_llm (prompt : string) (use_cache : bool) : M json :=
  log INFO (LogPrompt prompt) ;;;
  cached <- (if use_cache then check_cache prompt else ret None) ;;
  match cached with
  | Some v => ret v
  | None =>
      response_text <- call_provider prompt ;;
      log INFO (LogResponse (of_text response_text)) ;;;
      (if use_cache then update_cache prompt (of_text response_text) else ret tt) ;;;
      ret (of_text response_text)
  end.

End Run.

End Gateway.

(** ** The pipeline wiring: [flow.py]

    Nodes are objects: each constructor call allocates one in a store, and
    [a >> b] mutates [a]. The library's [>>] is [a.next(b, "default")], which
    sets [a.successors["default"] = b] (overwriting) and returns [b];
    [Flow(start=n)] keeps [n] as its start node and walks the successors by
    the action a node returns, ["default"] when it returns none. *)

Module Flow.

(** The node classes [flow.py] imports from [nodes]. *)
Inductive node_class :=
| FetchRepo
| IdentifyAbstractions
| IdentifyAbstractionsMap
| IdentifyAbstractionsReduce
| AnalyzeRelationships
| OrderChapters
| WriteChapters
| CombineTutorial.

Record node := {
  cls : node_class;
  kwargs : list (string * Z);          (* the constructor's keyword arguments *)
  successors : gmap string nat         (* action -> reference to a node *)
}.

Record store := { next_ref : nat; objects : gmap nat node }.

Record flow := { start_node : nat }.

(** A constructor call with keyword arguments: a fresh object without
    successors. *)
Definition new (c : node_class) (kw : list (string * Z)) (s : store) : nat * store :=
  (next_ref s,
   {| next_ref := S (next_ref s);
      objects := <[next_ref s := {| cls := c; kwargs := kw; successors := ∅ |}]>
                   (objects s) |}).

(** [a >> b] *)
Definition rshift (a b : nat) (s : store) : store :=
  {| next_ref := next_ref s;
     objects := alter (fun n => {| cls := cls n; kwargs := kwargs n;
                                   successors := <["default" := b]> (successors n) |})
                      a (objects s) |}.

Definition create_tutorial_flow (s0 : store) : flow * store :=
  let '(fetch_repo, s) := new FetchRepo [] s0 in
  let '(identify_abstractions_map, s) :=
    new IdentifyAbstractionsMap [("max_retries", 3); ("wait", 10)] s in
  let '(identify_abstractions_reduce, s) :=
    new IdentifyAbstractionsReduce [("max_retries", 5); ("wait", 20)] s in
  let '(analyze_relationships, s) :=
    new AnalyzeRelationships [("max_retries", 5); ("wait", 20)] s in
  let '(order_chapters, s) :=
    new OrderChapters [("max_retries", 5); ("wait", 20)] s in
  let '(write_chapters, s) :=
    new WriteChapters [("max_retries", 5); ("wait", 20)] s in
  let '(combine_tutorial, s) := new CombineTutorial [] s in
  let s := rshift fetch_repo identify_abstractions_map s in
  let s := rshift identify_abstractions_map identify_abstractions_reduce s in
  let s := rshift identify_abstractions_reduce analyze_relationships s in
  let s := rshift analyze_relationships order_chapters s in
  let s := rshift order_chapters write_chapters s in
  let s := rshift write_chapters combine_tutorial s in
  ({| start_node := fetch_repo |}, s).

Definition empty_store : store := {| next_ref := 0; objects := ∅ |}.

(** The edges of a store: source, action, target. *)
Definition edge (s : store) (a : nat) (action : string) (b : nat) : Prop :=
  exists n, objects s !! a = Some n /\ successors n !! action = Some b.

Definition edges (s : store) : list (nat * string * nat) :=
  '(a, n) ← map_to_list (objects s);
  '(action, b) ← map_to_list (successors n);
  [(a, action, b)].

Definition class_of (s : store) (a : nat) : option node_class :=
  cls <$> objects s !! a.

(** The nodes a run visits when every node returns the default action: the
    start node, then successor after successor, [fuel] nodes at most. *)
Fixpoint walk (s : store) (fuel : nat) (a : nat) : list nat :=
  match fuel with
  | O => []
  | S fuel' =>
      match objects s !! a with
      | None => []
      | Some n =>
          a :: match successors n !! "default" with
               | Some b => walk s fuel' b
               | None => []
               end
      end
  end.

End Flow.

(** ** The GitLab crawler: [utils/crawl_gitlab_files.py]

    [urlparse], [quote] and [fnmatch.fnmatch] are library functions the
    crawler is parametric in. The GitLab server answers by the requests it
    has received. The listing loop is unbounded in the source (a server may
    rate-limit or send full pages for ever), so the model bounds it by
    [fuel] and reports an exhausted bound as [Timeout]. *)

Module Crawler.

Inductive exn :=
| ValueError (msg : string)
| OverflowError (msg : string)        (* raised by time.sleep *)
| OSError (msg : string)              (* raised by time.sleep *)
| RequestException (msg : string)     (* raised by requests.get *)
| JSONDecodeError.                    (* raised by r.json() *)

Inductive outcome (A : Type) :=
| Ret (a : A)
| Raise (e : exn)
| Timeout.
Arguments Ret {A} a.
Arguments Raise {A} e.
Arguments Timeout {A}.

(** [include_patterns] and [exclude_patterns]: [None], a string or a set. *)
Inductive patterns :=
| PNone
| PStr (s : string)
| PSet (ps : gset string).

(** One entry of the repository tree as the API lists it; a key may be
    absent. *)
Record item := {
  i_type : option string;
  i_path : option string;
  i_name : option string
}.

(** A response: its status, its [Retry-After] header, [r.text], and what
    [r.json()] gives for a tree listing ([None]: it raises). *)
Record response := {
  status_code : Z;
  retry_after : option string;
  text : string;
  body : option (list item)
}.

(** The two calls of [requests.get]: a page of the tree (with the parameters
    [recursive], [ref], [per_page] = 100 and [page]) and a raw file. *)
Inductive http_request :=
| TreePage (url : string) (headers : gmap string string) (ref : string) (page : Z)
| RawFile (url : string) (headers : gmap string string) (ref : string).

Inductive http_outcome :=
| Answer (r : response)
| NetworkError (msg : string).

(** What the crawler prints, one constructor per call site. *)
Inductive notice :=
| Notice401
| Notice404
| NoticeRateLimit (wait : Z)
| NoticeTreeError (status : Z) (text500 : string)
| NoticeSkipStatus (rel_path : string) (status : Z)
| NoticeSkipSize (rel_path : string) (size limit : Z)
| NoticeDownloaded (rel_path : string) (size : Z).

(** What a run does, newest event first in a trace. *)
Inductive event :=
| Got (req : http_request) (ans : http_outcome)
| Slept (seconds : Z)
| Printed (n : notice).

(** What the crawler takes from its libraries and its platform. *)
Record Lib := {
  urlparse : string -> option (string * string);   (* netloc and path; None: ValueError *)
  quote : string -> string;                        (* quote(s, safe="") *)
  fnmatch : string -> string -> bool;              (* fnmatch.fnmatch(name, pat) *)
  can_sleep : Z -> bool    (* whether the platform's clock takes a sleep of that
                              many seconds; time.sleep raises OSError otherwise *)
}.

(** The [stats] of a result: the error form of the early returns, or the
    full form. *)
Inductive statistics :=
| StatsError (error : string)
| StatsFull (downloaded_count skipped_count : Z)
    (skipped_files : list (string * Z)) (base_path : option string)
    (include_patterns exclude_patterns : patterns).

Record crawl_result := { files : gmap string string; stats : statistics }.

Record args := {
  repo_url : string;
  token : option string;
  max_file_size : Z;
  use_relative_paths : bool;
  include_patterns : patterns;
  exclude_patterns : patterns
}.

Definition M (A : Type) : Type := list event -> outcome A * list event.

Definition ret {A} (a : A) : M A := fun t => (Ret a, t).
Definition raise {A} (e : exn) : M A := fun t => (Raise e, t).
Definition timeout {A} : M A := fun t => (Timeout, t).
Definition bind {A B} (m : M A) (k : A -> M B) : M B :=
  fun t => match m t with
           | (Ret a, t') => k a t'
           | (Raise e, t') => (Raise e, t')
           | (Timeout, t') => (Timeout, t')
           end.

Declare Scope crawler_scope.
Delimit Scope crawler_scope with crawl.
Notation "x <- m ;; k" := (bind m (fun x => k))
  (at level 100, m at next level, right associativity) : crawler_scope.
Notation "m ;;; k" := (bind m (fun _ => k))
  (at level 100, right associativity) : crawler_scope.
Local Open Scope crawler_scope.

Definition emit (e : event) : M unit := fun t => (Ret tt, e :: t).
Definition print (n : notice) : M unit := emit (Printed n).

(** The requests of a trace, newest first. *)
Definition requested (t : list event) : list http_request :=
  omap (fun e => match e with Got req _ => Some req | _ => None end) t.

(** [s.split("/")] *)
Fixpoint split_slash (s : string) : list string :=
  match s with
  | EmptyString => [EmptyString]
  | String c s' =>
      if Ascii.eqb c "/"%char then EmptyString :: split_slash s'
      else match split_slash s' with
           | p :: ps => String c p :: ps
           | [] => [String c EmptyString]
           end
  end.

(** [s.strip("/")] *)
Definition strip_slash (s : string) : string :=
  let is_slash := fun c => Ascii.eqb c "/"%char in
  PyStr.rstrip_by is_slash (PyStr.lstrip_by is_slash s).

(** [l.index(x)]; [None] stands for the [ValueError]. *)
Fixpoint index_of (x : string) (l : list string) : option nat :=
  match l with
  | [] => None
  | y :: l' => if String.eqb y x then Some O else S <$> index_of x l'
  end.

(** Truth value of a pattern argument. *)
Definition truthy (p : patterns) : bool :=
  match p with
  | PNone => false
  | PStr s => negb (String.eqb s "")
  | PSet ps => negb (bool_decide (ps = ∅))
  end.

(** [if p and isinstance(p, str): p = {p}] *)
Definition normalize (p : patterns) : patterns :=
  match p with
  | PStr s => if truthy p then PSet {[ s ]} else p
  | _ => p
  end.

(** What [for pat in p] runs over. Only a truthy [p] is iterated, so [None]
    never is; a string would give its characters. *)
Definition iterate (p : patterns) : list string :=
  match p with
  | PNone => []
  | PStr s => map (fun c => String c EmptyString) (list_ascii_of_string s)
  | PSet ps => elements ps
  end.

Section Run.

Variable lib : Lib.
Variable serve : list http_request -> http_request -> http_outcome.

(** [requests.get(...)] *)
Definition get (req : http_request) : M response :=
  fun t =>
    let ans := serve (requested t) req in
    match ans with
    | Answer r => (Ret r, Got req ans :: t)
    | NetworkError msg => (Raise (RequestException msg), Got req ans :: t)
    end.

(** The largest number of seconds [time.sleep] converts to its clock, which
    counts nanoseconds in 64 bits. *)
Definition max_sleep : Z := 9223372036.

(** [time.sleep(seconds)] on an integer: the conversion to the clock raises
    [OverflowError] out of its range, a negative length is a [ValueError],
    and the platform refuses a sleep whose end its clock cannot hold with an
    [OSError]. *)
Definition sleep (seconds : Z) : M unit :=
  if (seconds <? - max_sleep) || (max_sleep <? seconds)
  then raise (OverflowError "timestamp too large to convert to C _PyTime_t")
  else if seconds <? 0
  then raise (ValueError "sleep length must be non-negative")
  else if can_sleep lib seconds then emit (Slept seconds)
  else raise (OSError "[Errno 22] Invalid argument").

Definition should_include_file (include_patterns exclude_patterns : patterns)
    (file_path file_name : string) : bool :=
  let include_file :=
    if negb (truthy include_patterns) then true
    else existsb (fun p => fnmatch lib file_name p) (iterate include_patterns) in
  if truthy exclude_patterns && include_file
  then
    let exclude_file :=
      existsb (fun p => fnmatch lib file_path p) (iterate exclude_patterns) in
    negb exclude_file
  else include_file.

Definition error_result (error : string) : crawl_result :=
  {| files := ∅; stats := StatsError error |}.

(** [int(r.headers.get("Retry-After", 60))] *)
Definition retry_wait (r : response) : M Z :=
  match retry_after r with
  | None => ret 60
  | Some v =>
      match PyStr.to_int v with
      | Some n => ret n
      | None => raise (ValueError "invalid literal for int()")
      end
  end.

(** The listing loop, [while True]. [inl] is an early [return] of the
    function, [inr] the items at the [break]. *)
Fixpoint list_tree (fuel : nat) (tree_url : string) (headers : gmap string string)
    (ref : string) (page : Z) (all_items : list item)
    : M (crawl_result + list item) :=
  match fuel with
  | O => timeout
  | S fuel' =>
      r <- get (TreePage tree_url headers ref page) ;;
      if status_code r =? 401 then
        print Notice401 ;;; ret (inl (error_result "Unauthorized"))
      else if status_code r =? 404 then
        print Notice404 ;;; ret (inl (error_result "Not found"))
      else if status_code r =? 429 then
        wait <- retry_wait r ;;
        print (NoticeRateLimit wait) ;;;
        sleep wait ;;;
        list_tree fuel' tree_url headers ref page all_items
      else if negb (status_code r =? 200) then
        print (NoticeTreeError (status_code r) (PyStr.take 500 (text r))) ;;;
        ret (inl (error_result (PyStr.take 200 (text r))))
      else
        match body r with
        | None => raise JSONDecodeError
        | Some [] => ret (inr all_items)
        | Some data =>
            let all_items' := (all_items ++ data)%list in
            if (length data <? 100)%nat then ret (inr all_items')
            else list_tree fuel' tree_url headers ref (page + 1) all_items'
        end
  end.

(** The second loop: the blobs that pass the filter, as pairs of the path in
    the repository and the path the result is keyed by. *)
Definition collect_blobs (use_relative_paths : bool) (specific_path : string)
    (include_patterns exclude_patterns : patterns) (all_items : list item)
    : list (string * string) :=
  omap (fun it =>
          if negb (bool_decide (i_type it = Some "blob")) then None
          else
            let path_item := default "" (i_path it) in
            let rel :=
              if use_relative_paths && negb (String.eqb specific_path "")
                 && PyStr.startswith path_item specific_path
              then PyStr.lstrip_slash
                     (PyStr.drop (String.length specific_path) path_item)
              else path_item in
            if negb (should_include_file include_patterns exclude_patterns
                       rel (default "" (i_name it)))
            then None
            else Some (path_item, rel))
       all_items.

(** The third loop: the raw content of each blob, kept or skipped. *)
Fixpoint fetch_files (api_base project_id_encoded : string)
    (headers : gmap string string) (ref : string) (max_file_size : Z)
    (blob_paths : list (string * string))
    (files : gmap string string) (skipped_files : list (string * Z))
    : M (gmap string string * list (string * Z)) :=
  match blob_paths with
  | [] => ret (files, skipped_files)
  | (path_item, rel_path) :: rest =>
      let file_path_encoded := quote lib path_item in
      let raw_url :=
        String.concat "" [api_base; "/projects/"; project_id_encoded;
                          "/repository/files/"; file_path_encoded; "/raw"] in
      r <- get (RawFile raw_url headers ref) ;;
      if negb (status_code r =? 200) then
        print (NoticeSkipStatus rel_path (status_code r)) ;;;
        fetch_files api_base project_id_encoded headers ref max_file_size rest
          files (skipped_files ++ [(rel_path, 0)])%list
      else
        let content := text r in
        let size := PyStr.utf8_size content in
        if size >? max_file_size then
          print (NoticeSkipSize rel_path size max_file_size) ;;;
          fetch_files api_base project_id_encoded headers ref max_file_size rest
            files (skipped_files ++ [(rel_path, size)])%list
        else
          print (NoticeDownloaded rel_path size) ;;;
          fetch_files api_base project_id_encoded headers ref max_file_size rest
            (<[rel_path := content]> files) skipped_files
  end.

Definition crawl_gitlab_files (fuel : nat) (a : args) : M crawl_result :=
  let include_patterns := normalize (include_patterns a) in
  let exclude_patterns := normalize (exclude_patterns a) in
  match urlparse lib (repo_url a) with
  | None => raise (ValueError "urlparse")
  | Some (netloc, parsed_path) =>
      let host := if String.eqb netloc "" then "gitlab.com" else netloc in
      let path := strip_slash parsed_path in
      let path_parts := split_slash path in
      match path_parts with
      | [] => raise (ValueError "Invalid GitLab URL")
      | _ =>
          let '(project_path, rest) :=
            match index_of "-" path_parts with
            | Some dash_idx =>
                (PyStr.join "/" (take dash_idx path_parts),
                 drop (S dash_idx) path_parts)
            | None => (PyStr.join "/" path_parts, [])
            end in
          let '(ref, specific_path) :=
            match rest with
            | tree :: branch :: sub =>
                if String.eqb tree "tree"
                then (branch, match sub with [] => "" | _ => PyStr.join "/" sub end)
                else ("HEAD", "")
            | _ => ("HEAD", "")
            end in
          let project_id_encoded := quote lib project_path in
          let api_base := String.concat "" ["https://"; host; "/api/v4"] in
          let headers : gmap string string :=
            match token a with
            | Some tok => if String.eqb tok "" then ∅ else {[ "PRIVATE-TOKEN" := tok ]}
            | None => ∅
            end in
          let tree_url :=
            String.concat "" [api_base; "/projects/"; project_id_encoded;
                              "/repository/tree"] in
          listed <- list_tree fuel tree_url headers ref 1 [] ;;
          match listed with
          | inl early => ret early
          | inr all_items =>
              let blob_paths :=
                collect_blobs (use_relative_paths a) specific_path
                  include_patterns exclude_patterns all_items in
              fetched <-
                fetch_files api_base project_id_encoded headers ref
                  (max_file_size a) blob_paths ∅ [] ;;
              let '(files, skipped_files) := fetched in
              ret {| files := files;
                     stats := StatsFull (Z.of_nat (size files))
                                (Z.of_nat (length skipped_files)) skipped_files
                                (if use_relative_paths a then Some specific_path
                                 else None)
                                include_patterns exclude_patterns |}
          end
      end
  end.

End Run.

End Crawler.

(** ** Notions the gateway's properties are stated with *)

Module GatewayProps.
Import Gateway.
Local Open Scope list_scope.

Definition mk (f : file) (t : list event) : World :=
  {| cache_file := f; trace := t |}.

(** The events that touch the cache file. *)
Definition is_file_event (e : event) : bool :=
  match e with
  | Exists _ | Load _ | Store _ _ => true
  | _ => false
  end.

Definition not_file_event (e : event) : bool := negb (is_file_event e).

(** What a guarded load makes of the file: the document, or [{}]. *)
Definition contents (f : file) : json :=
  match f with
  | Document v => v
  | _ => JObj ∅
  end.

(** The events of a guarded load, newest first. *)
Definition load_events (warn : bool) (f : file) : list event :=
  match f with
  | Missing => [Exists false]
  | Document v => [Load (Some v); Exists true]
  | _ => (if warn then [Logged WARNING LogCacheLoadFailed] else [])
         ++ [Load None; Exists true]
  end.

(** The corruption scenarios: no file, a file that cannot be read, an empty
    file, a file that is not JSON. *)
Definition corrupt (f : file) : Prop :=
  f = Missing \/ f = Unreadable \/ f = Empty \/ f = Garbled.

(** A file that is corrupt or holds a JSON object. *)
Definition usable (f : file) : Prop :=
  match f with
  | Document (JObj _) => True
  | Document _ => False
  | _ => True
  end.

(** The entries of the file when it holds a JSON object, none otherwise. *)
Definition entries (f : file) : gmap string json :=
  match f with
  | Document (JObj kvs) => kvs
  | _ => ∅
  end.

(** The cache check misses: the file is usable and [prompt] is not a key. *)
Definition misses (prompt : string) (f : file) : Prop :=
  usable f /\ entries f !! prompt = None.

(** The other writers of the cache file keep it usable. *)
Definition others_keep_usable (out : Outside) : Prop :=
  forall h f, usable f -> usable (meanwhile out h f).

(** No other writer touches the cache file. *)
Definition quiet (out : Outside) : Prop :=
  forall h f, meanwhile out h f = f.

(** The provider answers every request with a text. *)
Definition always_answers (out : Outside) : Prop :=
  forall h req, exists t, respond out h req = Reply (Some t).

(** The network path is disabled: every client call fails. *)
Definition network_disabled (out : Outside) : Prop :=
  forall h req, exists e, respond out h req = Failure e.

(** What other writers make of the file over the client calls whose
    histories are [hs], oldest first. *)
Definition after_others (out : Outside) (hs : list (list request)) (f : file) : file :=
  foldl (fun f h => meanwhile out h f) f hs.

(** A computation that is a function of the requests made so far: it
    neither reads nor writes the cache file (which only the other writers
    change, during the client calls), and all its events satisfy [P]. *)
Definition confined (out : Outside) (P : event -> bool) {A} (m : M A) : Prop :=
  forall s, exists r new hs,
    forallb P new = true
    /\ forall f t, sent t = s ->
         m (mk f t) = (r, mk (after_others out hs f) (new ++ t)).

(** The world a missing call with the cache on ends in, given what the
    provider branch does on the request history. *)
Definition missed_end (out : Outside) (prompt : string) (f : file) (t : list event)
    (r : result (option string)) (new : list event) (hs : list (list request))
    : result json * World :=
  let f1 := after_others out hs f in
  let t1 := new ++ load_events true f ++ Logged INFO (LogPrompt prompt) :: t in
  match r with
  | Ret text =>
      (Ret (of_text text),
       snd (save_cache out (JObj (<[prompt := of_text text]> (entries f1)))
              (mk f1 (load_events false f1
                      ++ Logged INFO (LogResponse (of_text text)) :: t1))))
  | Raise e => (Raise e, mk f1 t1)
  end.

(** The prompt a request carries when it is not a compression request. *)
Definition final_prompt (req : request) : option string :=
  match req with
  | ChatCompletion _ [Message "user" p] => Some p
  | GenerateContent _ [p] => Some p
  | _ => None
  end.

Definition is_final (req : request) : bool :=
  match final_prompt req with Some _ => true | None => false end.

(** The events of a compression pass: client calls that do not carry the
    prompt itself. *)
Definition is_compression_event (e : event) : bool :=
  match e with
  | Sent req _ => negb (is_final req)
  | _ => false
  end.

(** The client calls of a trace that carry a prompt itself. *)
Definition final_calls (t : list event) : list event :=
  List.filter (fun e => match e with Sent req _ => is_final req | _ => false end) t.

(** The failure the [openai] branch takes for a rejection on the context
    window: a [BadRequestError] whose message, in lower case, mentions
    "context length". *)
Definition is_context_rejection (e : exn) : bool :=
  match e with
  | BadRequestError msg => PyStr.contains "context length" (PyStr.lower msg)
  | _ => false
  end.

(** The outcome of one client call, read off the provider. *)
Definition answer_of (a : reply) : result (option string) :=
  match a with
  | Reply text => Ret text
  | Failure e => Raise e
  end.

(** The name the size functions are called with on the selected branch. *)
Definition branch (out : Outside) : string :=
  if String.eqb (provider out) "openai" then "openai" else "google".

(** The compression request of the selected branch. *)
Definition branch_compress (out : Outside) : string -> request :=
  if String.eqb (provider out) "openai"
  then openai_compress (getenv_or out "OPENAI_MODEL" "gpt-4o-mini")
  else google_compress (getenv_or out "GEMINI_MODEL" "gemini-2.5-flash").

Definition branch_final (out : Outside) : string -> request :=
  if String.eqb (provider out) "openai"
  then openai_final (getenv_or out "OPENAI_MODEL" "gpt-4o-mini")
  else google_final (getenv_or out "GEMINI_MODEL" "gemini-2.5-flash").

(** The prompt a branch sends: the prompt itself, or its compression when
    it exceeds the limit (the [if len(effective_prompt) > max_chars] of both
    branches). *)
Definition fitted (out : Outside) (name : string) (compress : string -> request)
    (prompt : string) (max_chars : Z) : M string :=
  if PyStr.len prompt >? max_chars
  then bind (log INFO (LogCompressing name (PyStr.len prompt) max_chars))
            (fun _ => summarize_chunks out name compress prompt max_chars)
  else ret prompt.

(** The chunks of [text]: what [text[i : i + chunk_size]] is over
    [range(0, len(text), chunk_size)]. *)
Definition chunks (text : string) (chunk_size : Z) : option (list string) :=
  map (fun i => PyStr.slice i (i + chunk_size) text)
  <$> PyStr.range0 (PyStr.len text) chunk_size.

(** The events of the chunk loop, newest first: one client call per chunk,
    each answered by a text. *)
Definition chunk_events (compress : string -> request)
    (chunks answers : list string) : list event :=
  rev (zip_with (fun c a => Sent (compress (String.append chunk_prefix c))
                                 (Reply (Some a)))
                chunks answers).

(** The events of the re-compression rounds, newest first. *)
Definition round_events (compress : string -> request)
    (rounds : list (string * string)) : list event :=
  rev (map (fun '(input, answer) =>
              Sent (compress (String.append further_prefix input))
                   (Reply (Some answer)))
           rounds).

(** The successive re-compression rounds of a pass: each round's input and
    the provider's raw answer. A round is run on a text above the limit and
    the next input is the stripped answer. *)
Fixpoint chained (limit : Z) (start : string) (rounds : list (string * string)) : Prop :=
  match rounds with
  | [] => True
  | (input, answer) :: rest =>
      input = start /\ PyStr.len input > limit
      /\ chained limit (PyStr.strip answer) rest
  end.

Fixpoint chain_end (start : string) (rounds : list (string * string)) : string :=
  match rounds with
  | [] => start
  | (_, answer) :: rest => chain_end (PyStr.strip answer) rest
  end.

(** A computation that only adds events, all of which satisfy [P]. *)
Definition adds (P : event -> bool) {A} (m : M A) : Prop :=
  forall w r w', m w = (r, w') ->
    exists new, trace w' = new ++ trace w /\ forallb P new = true.

(** The client call goes to the API of the selected branch, with the model
    the environment configures for it. *)
Definition on_branch (out : Outside) (req : request) : bool :=
  match req with
  | ChatCompletion model _ =>
      String.eqb (provider out) "openai"
      && String.eqb model (getenv_or out "OPENAI_MODEL" "gpt-4o-mini")
  | GenerateContent model _ =>
      negb (String.eqb (provider out) "openai")
      && String.eqb model (getenv_or out "GEMINI_MODEL" "gemini-2.5-flash")
  end.

Definition call_on_branch (out : Outside) (e : event) : bool :=
  match e with
  | Sent req _ => on_branch out req
  | _ => true
  end.

(** The number of chunks of a text, none when [range] raises. *)
Definition chunk_count (text : string) (chunk_size : Z) : nat :=
  match chunks text chunk_size with
  | Some cs => length cs
  | None => 0
  end.

(** What [call_llm] does with a response text: the log, the update of the
    cache when it is on, and the return. *)
Definition deliver (out : Outside) (prompt : string) (use_cache : bool)
    (response_text : option string) : M json :=
  bind (log INFO (LogResponse (of_text response_text)))
    (fun _ =>
       bind (if use_cache then update_cache out prompt (of_text response_text)
             else ret tt)
         (fun _ => ret (of_text response_text))).

(** What [call_llm] makes of the outcome of a client call that carries the
    prompt: a text is delivered, a failure is the failure of the call. *)
Definition conclude (out : Outside) (prompt : string) (use_cache : bool)
    (ans : reply) : M json :=
  match ans with
  | Reply text => deliver out prompt use_cache text
  | Failure e => raise e
  end.

End GatewayProps.

Local Open Scope list_scope.

(** ** Notions the crawler's properties are stated with *)

Module CrawlerProps.
Import Crawler.
Local Open Scope list_scope.

(** The requests of a trace with their outcomes, newest first. *)
Definition exchanges (t : list event) : list (http_request * http_outcome) :=
  omap (fun e => match e with Got req ans => Some (req, ans) | _ => None end) t.

Definition is_tree_request (req : http_request) : bool :=
  match req with TreePage _ _ _ _ => true | RawFile _ _ _ => false end.

(** The path a blob is keyed by. *)
Definition rel_of (use_relative_paths : bool) (specific_path path_item : string)
    : string :=
  if use_relative_paths && negb (String.eqb specific_path "")
     && PyStr.startswith path_item specific_path
  then PyStr.lstrip_slash (PyStr.drop (String.length specific_path) path_item)
  else path_item.

(** The request for the raw content of a blob. *)
Definition raw_request (lib : Lib) (api_base project_id_encoded : string)
    (headers : gmap string string) (ref : string) (path_item : string)
    : http_request :=
  RawFile (String.concat "" [api_base; "/projects/"; project_id_encoded;
                             "/repository/files/"; quote lib path_item; "/raw"])
          headers ref.

(** The raw-file exchanges of a fetch loop, newest first. *)
Definition raw_exchanges (lib : Lib) (api_base project_id_encoded : string)
    (headers : gmap string string) (ref : string)
    (blob_paths : list (string * string)) (answers : list response)
    : list (http_request * http_outcome) :=
  rev (zip_with (fun b r => (raw_request lib api_base project_id_encoded
                               headers ref (fst b), Answer r))
                blob_paths answers).

(** What one answer does to the files and the skipped files. *)
Definition keep_or_skip (max_file_size : Z) (rel_path : string) (r : response)
    (acc : gmap string string * list (string * Z))
    : gmap string string * list (string * Z) :=
  if negb (status_code r =? 200) then (fst acc, snd acc ++ [(rel_path, 0)])
  else if PyStr.utf8_size (text r) >? max_file_size
       then (fst acc, snd acc ++ [(rel_path, PyStr.utf8_size (text r))])
       else (<[rel_path := text r]> (fst acc), snd acc).

Fixpoint keep_all (max_file_size : Z) (blob_paths : list (string * string))
    (answers : list response) (acc : gmap string string * list (string * Z))
    : gmap string string * list (string * Z) :=
  match blob_paths, answers with
  | (_, rel_path) :: blobs, r :: rs =>
      keep_all max_file_size blobs rs (keep_or_skip max_file_size rel_path r acc)
  | _, _ => acc
  end.

(** Events none of which is a request. *)
Definition silent (mid : list event) : Prop :=
  Forall (fun e => match e with Got _ _ => False | _ => True end) mid.

(** How the outcome of the listing loop goes with the events it added,
    [new]: an early return is an error result and its newest exchange is an
    answer; a newest answer with status 401 or 404 means the early return
    of the matching error result; and every exchange is a tree request. *)
Definition verdict (r : outcome (crawl_result + list item)) (new : list event)
    : Prop :=
  (forall res, r = Ret (inl res) ->
     (exists req resp, hd_error (exchanges new) = Some (req, Answer resp))
     /\ exists error, res = {| files := ∅; stats := StatsError error |})
  /\ (forall req resp,
        hd_error (exchanges new) = Some (req, Answer resp) ->
        (status_code resp = 401 ->
         r = Ret (inl {| files := ∅; stats := StatsError "Unauthorized" |}))
        /\ (status_code resp = 404 ->
            r = Ret (inl {| files := ∅; stats := StatsError "Not found" |})))
  /\ Forall (fun x => is_tree_request (fst x) = true) (exchanges new).

(** The crawl once the locator is taken apart: the listing, then the
    filter and the fetch. *)
Definition crawl_from (lib : Lib)
    (serve : list http_request -> http_request -> http_outcome)
    (fuel : nat) (a : args) (api_base project_id_encoded : string)
    (headers : gmap string string) (ref tree_url specific_path : string)
    : M crawl_result :=
  bind (list_tree lib serve fuel tree_url headers ref 1 [])
    (fun listed =>
       match listed with
       | inl early => ret early
       | inr all_items =>
           bind (fetch_files lib serve api_base project_id_encoded headers ref
                   (max_file_size a)
                   (collect_blobs lib (use_relative_paths a) specific_path
                      (normalize (include_patterns a))
                      (normalize (exclude_patterns a)) all_items)
                   ∅ [])
             (fun fetched =>
                let '(files, skipped_files) := fetched in
                ret {| files := files;
                       stats := StatsFull (Z.of_nat (size files))
                                  (Z.of_nat (length skipped_files)) skipped_files
                                  (if use_relative_paths a then Some specific_path
                                   else None)
                                  (normalize (include_patterns a))
                                  (normalize (exclude_patterns a)) |})
       end).

(** A computation of the crawler that only adds events, all of which
    satisfy [P], and that ends in the [RequestException] of any request it
    made that failed. *)
Definition orderly (P : event -> bool) {A} (m : M A) : Prop :=
  forall t r t', m t = (r, t') ->
    exists new,
      t' = new ++ t /\ forallb P new = true
      /\ forall req msg,
           In (Got req (NetworkError msg)) new -> r = Raise (RequestException msg).

(** Events that are no request, and requests with these headers and this
    ref. *)
Definition sent_with (headers : gmap string string) (ref : string) (e : event)
    : bool :=
  match e with
  | Got (TreePage _ h r _) _ | Got (RawFile _ h r) _ =>
      bool_decide (h = headers) && String.eqb r ref
  | _ => true
  end.

(** The address of the tree listing of a project. *)
Definition tree_address (host project_id_encoded : string) : string :=
  String.concat "" [String.concat "" ["https://"; host; "/api/v4"];
                    "/projects/"; project_id_encoded; "/repository/tree"].

(** The headers of every request: the token, when there is a non-empty
    one. *)
Definition token_headers (a : args) : gmap string string :=
  match token a with
  | Some tok => if String.eqb tok "" then ∅ else {[ "PRIVATE-TOKEN" := tok ]}
  | None => ∅
  end.

Definition headers_of (req : http_request) : gmap string string :=
  match req with
  | TreePage _ headers _ _ => headers
  | RawFile _ headers _ => headers
  end.

Definition ref_of (req : http_request) : string :=
  match req with
  | TreePage _ _ ref _ => ref
  | RawFile _ _ ref => ref
  end.

(** The pages [first], [first + 1], ... , [count] of them. *)
Definition page_numbers (first : Z) (count : nat) : list Z :=
  map (fun i => first + Z.of_nat i) (seq 0 count).

(** A server that lists the repository by pages: page [k] is answered with
    status 200 and the items [pages k], whatever came before. *)
Definition lists_by_pages
    (serve : list http_request -> http_request -> http_outcome)
    (tree_url : string) (headers : gmap string string) (ref : string)
    (pages : Z -> list item) : Prop :=
  forall prior k,
    exists resp,
      serve prior (TreePage tree_url headers ref k) = Answer resp
      /\ status_code resp = 200 /\ body resp = Some (pages k).

(** A wait that [time.sleep] takes on this platform: it is not negative,
    it is within the range of the clock, and the platform accepts it. *)
Definition sleeps (lib : Lib) (n : Z) : Prop :=
  0 <= n <= max_sleep /\ can_sleep lib n = true.

(** The wait a 429 answer asks for is [n]: the sixty seconds of an answer
    without a [Retry-After] header, or the header read by [int]. *)
Definition asks_to_wait (resp : response) (n : Z) : Prop :=
  match retry_after resp with
  | None => n = 60
  | Some v => PyStr.to_int v = Some n
  end.

(** A server that answers every request with status 429 and a wait that
    [time.sleep] takes. *)
Definition always_limits (lib : Lib)
    (serve : list http_request -> http_request -> http_outcome) : Prop :=
  forall prior req,
    exists resp n,
      serve prior req = Answer resp /\ status_code resp = 429
      /\ asks_to_wait resp n /\ sleeps lib n.

(** *** The inclusion rule, as the specification words it *)

(** The patterns an argument gives: none for [None], for the empty string
    and for the empty set; the string itself for any other string; the
    elements of a set. *)
Definition patterns_of (p : patterns) (pat : string) : Prop :=
  match p with
  | PNone => False
  | PStr s => s <> "" /\ pat = s
  | PSet ps => pat ∈ ps
  end.

Definition no_patterns (p : patterns) : Prop := forall pat, ~ patterns_of p pat.

(** Some pattern of [p] matches [x]. *)
Definition matches_some (lib : Lib) (p : patterns) (x : string) : Prop :=
  exists pat, patterns_of p pat /\ fnmatch lib x pat = true.

(** The rule: the include patterns are empty or one of them matches the
    name of the file, and no exclude pattern matches its path. *)
Definition passes_filter (lib : Lib) (include_patterns exclude_patterns : patterns)
    (file_path file_name : string) : Prop :=
  (no_patterns include_patterns \/ matches_some lib include_patterns file_name)
  /\ ~ matches_some lib exclude_patterns file_path.

(** The keys of a fetch: the paths of the files and of the skipped files. *)
Definition fetched_key (acc : gmap string string * list (string * Z))
    (key : string) : Prop :=
  is_Some (fst acc !! key) \/ In key (map fst (snd acc)).

End CrawlerProps.

(** ** Concrete surroundings

    Providers, disks, servers and library functions to run the gateway and
    the crawler on. *)

Module Scenarios.
Local Open Scope list_scope.

Module G.
Import Gateway GatewayProps.

(** A fresh start: no cache file, nothing done yet. *)
Definition fresh : World := mk Missing [].

(** A provider that answers everything with [text], alone on a sound disk. *)
Definition steady (env : gmap string string) (text : string) : Outside :=
  {| environ := env;
     respond := fun _ _ => Reply (Some text);
     meanwhile := fun _ f => f;
     disk_fault := None |}.

(** The same surroundings on a disk that refuses to open the cache file for
    writing. *)
Definition read_only (out : Outside) : Outside :=
  {| environ := environ out; respond := respond out;
     meanwhile := meanwhile out; disk_fault := Some OpenFails |}.

(** The same surroundings with the network path disabled. *)
Definition offline (out : Outside) : Outside :=
  {| environ := environ out;
     respond := fun _ _ => Failure (ClientError "network disabled");
     meanwhile := meanwhile out; disk_fault := disk_fault out |}.

(** A provider that fails every request with [e]. *)
Definition rejecting (env : gmap string string) (e : exn) : Outside :=
  {| environ := env;
     respond := fun _ _ => Failure e;
     meanwhile := fun _ f => f;
     disk_fault := None |}.

(** Another caller stores its own entry in the cache file while a client
    call is in flight. *)
Definition shared (out : Outside) : Outside :=
  {| environ := environ out; respond := respond out;
     meanwhile := fun _ f => Document (JObj (<["theirs" := JStr "kept"]> (entries f)));
     disk_fault := disk_fault out |}.

(** The [openai] branch with a limit of five characters and chunks of
    four. *)
Definition tiny_openai : gmap string string :=
  <["LLM_PROVIDER" := "OpenAI"]>
    (<["LLM_MAX_PROMPT_CHARS" := "5"]> (<["LLM_CHUNK_SIZE_CHARS" := "4"]> ∅)).

(** The default branch with the same sizes. *)
Definition tiny_google : gmap string string :=
  <["LLM_MAX_PROMPT_CHARS" := "5"]> (<["LLM_CHUNK_SIZE_CHARS" := "4"]> ∅).

(** A zero chunk size. *)
Definition zero_chunks : gmap string string :=
  <["LLM_MAX_PROMPT_CHARS" := "5"]> (<["LLM_CHUNK_SIZE_CHARS" := "0"]> ∅).

(** A negative chunk size. *)
Definition negative_chunks : gmap string string :=
  <["LLM_MAX_PROMPT_CHARS" := "5"]> (<["LLM_CHUNK_SIZE_CHARS" := "-1"]> ∅).

(** A cache file that holds a JSON array. *)
Definition array_cache : World := mk (Document (JArr [])) [].

(** A cache file with one entry. *)
Definition one_entry : World :=
  mk (Document (JObj {[ "earlier" := JStr "kept" ]})) [].

(** A provider that fails the first request with [e] and answers every
    later one with [text]. *)
Definition rejecting_once (env : gmap string string) (e : exn) (text : string)
    : Outside :=
  {| environ := env;
     respond := fun prior _ =>
                  match prior with
                  | [] => Failure e
                  | _ => Reply (Some text)
                  end;
     meanwhile := fun _ f => f;
     disk_fault := None |}.

End G.

Module C.
Import Crawler CrawlerProps.

(** Shell-style matching with [*] and [?], the fragment of [fnmatch] on
    patterns without brackets. *)
Fixpoint glob (pat : string) : string -> bool :=
  match pat with
  | EmptyString => fun name => match name with EmptyString => true | _ => false end
  | String "*" pat' =>
      fix star (name : string) : bool :=
        glob pat' name
        || match name with
           | EmptyString => false
           | String _ name' => star name'
           end
  | String "?" pat' =>
      fun name => match name with
                  | EmptyString => false
                  | String _ name' => glob pat' name'
                  end
  | String c pat' =>
      fun name => match name with
                  | EmptyString => false
                  | String d name' => Ascii.eqb c d && glob pat' name'
                  end
  end.

(** The text after the first ["://"], if any. *)
Fixpoint after_scheme (s : string) : option string :=
  match s with
  | EmptyString => None
  | String _ s' =>
      if PyStr.startswith s "://" then Some (PyStr.drop 3 s) else after_scheme s'
  end.

Fixpoint until_slash (s : string) : string * string :=
  match s with
  | EmptyString => (EmptyString, EmptyString)
  | String c s' =>
      if Ascii.eqb c "/" then (EmptyString, s)
      else let '(host, path) := until_slash s' in (String c host, path)
  end.

(** [urlparse] on locators of the form [scheme://host/path]. *)
Definition parse_url (url : string) : option (string * string) :=
  match after_scheme url with
  | Some rest => Some (until_slash rest)
  | None => Some (EmptyString, url)
  end.

(** [quote(s, safe="")] on letters, digits and slashes. *)
Fixpoint quote_slashes (s : string) : string :=
  match s with
  | EmptyString => EmptyString
  | String c s' =>
      if Ascii.eqb c "/" then String.append "%2F" (quote_slashes s')
      else String c (quote_slashes s')
  end.

(** The library on locators and patterns of these forms, on a platform that
    takes a sleep of up to a thousand million seconds. *)
Definition plain : Lib :=
  {| urlparse := parse_url; quote := quote_slashes;
     fnmatch := fun name pat => glob pat name;
     can_sleep := fun seconds => seconds <=? 1000000000 |}.

Definition answer (status : Z) (retry : option string) (content : string)
    (listing : option (list item)) : http_outcome :=
  Answer {| status_code := status; retry_after := retry; text := content;
            body := listing |}.

(** A server that rate-limits the first request and denies the second. *)
Definition limiting_then_denying (prior : list http_request) (req : http_request)
    : http_outcome :=
  match prior with
  | [] => answer 429 (Some "2") "slow down" None
  | _ => answer 401 None "401 Unauthorized" None
  end.

Definition blob (path name : string) : item :=
  {| i_type := Some "blob"; i_path := Some path; i_name := Some name |}.

(** A server with a repository of two files, one of twelve bytes and one of
    two. *)
Definition two_files (prior : list http_request) (req : http_request)
    : http_outcome :=
  match req with
  | TreePage _ _ _ _ =>
      answer 200 None "" (Some [blob "docs/big.md" "big.md"; blob "a.py" "a.py"])
  | RawFile url _ _ =>
      if PyStr.contains "big.md" url then answer 200 None "0123456789ab" None
      else answer 200 None "ok" None
  end.

Definition crawl_args (url : string) (limit : Z) : args :=
  {| repo_url := url; token := None; max_file_size := limit;
     use_relative_paths := false;
     include_patterns := PNone; exclude_patterns := PNone |}.

(** A repository listed in two pages: a hundred files on the first, one on
    the second. *)
Definition page_of (k : Z) : list item :=
  if k =? 1 then repeat (blob "a.py" "a.py") 100 else [blob "b.py" "b.py"].

Definition paged (prior : list http_request) (req : http_request)
    : http_outcome :=
  match req with
  | TreePage _ _ _ k => answer 200 None "" (Some (page_of k))
  | RawFile _ _ _ => answer 200 None "ok" None
  end.

(** A server that rate-limits every request, for three seconds. *)
Definition always_busy (prior : list http_request) (req : http_request)
    : http_outcome :=
  answer 429 (Some "3") "slow down" None.

(** A server that lists two files and drops the connection at every
    request for a file. *)
Definition failing_files (prior : list http_request) (req : http_request)
    : http_outcome :=
  match req with
  | TreePage _ _ _ _ => two_files prior req
  | RawFile _ _ _ => NetworkError "connection reset"
  end.

End C.

End Scenarios.

(** * Facts on the string primitives *)

Module PyStrFacts.
Import PyStr GatewayProps.

Lemma length_take n s : String.length (take n s) = Nat.min n (String.length s).
Proof.
  revert s. induction n as [|n IH]; intros [|c s]; cbn; try reflexivity.
  now rewrite IH.
Qed.

Lemma length_drop n s : String.length (drop n s) = (String.length s - n)%nat.
Proof.
  revert s. induction n as [|n IH]; intros [|c s]; cbn; try reflexivity.
  apply IH.
Qed.

Lemma take_all n s : (String.length s <= n)%nat -> take n s = s.
Proof.
  revert s. induction n as [|n IH]; intros [|c s]; cbn; try reflexivity.
  - lia.
  - intros H. f_equal. apply IH. lia.
Qed.

Lemma drop_drop a b s : drop a (drop b s) = drop (b + a) s.
Proof.
  revert s. induction b as [|b IH]; intros s; cbn; [reflexivity|].
  destruct s as [|c s]; [now destruct a | apply IH].
Qed.

Lemma append_cons c s1 s2 :
  String.append (String c s1) s2 = String c (String.append s1 s2).
Proof. reflexivity. Qed.

Lemma take_take_drop a b s :
  String.append (take a s) (take b (drop a s)) = take (a + b) s.
Proof.
  revert s. induction a as [|a IH]; intros s.
  - reflexivity.
  - destruct s as [|c s]; cbn [take drop Nat.add String.append].
    + now destruct b.
    + now rewrite append_cons, IH.
Qed.

Lemma concat_cons x xs :
  String.concat "" (x :: xs) = String.append x (String.concat "" xs).
Proof.
  destruct xs as [|y ys]; cbn; [|reflexivity].
  induction x as [|c x IH]; [reflexivity | now rewrite append_cons, <- IH].
Qed.

(** Consecutive slices of width [c] put together. *)
Lemma concat_slices (c : nat) (s : string) m j :
  String.concat "" (map (fun k => take c (drop (k * c) s)) (seq j m))
  = take (m * c) (drop (j * c) s).
Proof.
  revert j. induction m as [|m IH]; intros j.
  - reflexivity.
  - cbn [seq map]. rewrite concat_cons, IH.
    replace (S j * c)%nat with (j * c + c)%nat by lia.
    rewrite <- drop_drop, take_take_drop. reflexivity.
Qed.

Lemma chunks_nat text chunk_size :
  0 < chunk_size -> 0 < len text ->
  chunks text chunk_size
  = Some (map (fun k => take (Z.to_nat chunk_size)
                          (drop (k * Z.to_nat chunk_size) text))
              (seq 0 (Z.to_nat ((len text + chunk_size - 1) / chunk_size)))).
Proof.
  intros Hc Hl. unfold chunks, range0.
  destruct (Z.eqb_spec chunk_size 0); [lia|].
  destruct (Z.ltb_spec chunk_size 0); [lia|].
  destruct (Z.leb_spec (len text) 0); [lia|].
  cbn. f_equal. rewrite map_map. apply map_ext. intros k. unfold slice.
  f_equal; [f_equal; lia | f_equal; lia].
Qed.

Lemma chunk_count_bounds n c :
  0 < c -> 0 < n ->
  let q := (n + c - 1) / c in
  0 < q /\ n <= q * c /\ (q - 1) * c < n.
Proof.
  intros Hc Hn q.
  pose proof (Z.div_mod (n + c - 1) c ltac:(lia)) as Hdm.
  pose proof (Z.mod_pos_bound (n + c - 1) c Hc) as Hb.
  fold q in Hdm. nia.
Qed.

(** The chunks of a positive size partition the text: together they are the
    text, none is empty or longer than the size, and all but the last have
    exactly the size. *)
Lemma chunks_partition text chunk_size :
  0 < chunk_size ->
  exists cs,
    chunks text chunk_size = Some cs
    /\ String.concat "" cs = text
    /\ Forall (fun c => 0 < len c <= chunk_size) cs
    /\ (forall k c, (S k < length cs)%nat -> cs !! k = Some c ->
                    len c = chunk_size).
Proof.
  intros Hc. destruct (Z.eq_dec (len text) 0) as [H0|Hne].
  - exists []. unfold chunks, range0. rewrite H0.
    destruct (Z.eqb_spec chunk_size 0); [lia|].
    destruct (Z.ltb_spec chunk_size 0); [lia|]. cbn.
    repeat split; auto.
    + destruct text; [reflexivity | cbn in H0; unfold len in H0; cbn in H0; lia].
    + intros k c Hk. cbn in Hk. lia.
  - assert (Hl : 0 < len text) by (unfold len in *; lia).
    destruct (chunk_count_bounds (len text) chunk_size Hc Hl) as (Hq & Hup & Hlow).
    set (q := (len text + chunk_size - 1) / chunk_size) in *.
    eexists. split; [apply chunks_nat; assumption|]. fold q.
    set (c := Z.to_nat chunk_size). assert (Hcn : Z.of_nat c = chunk_size) by lia.
    unfold len in *.
    repeat split.
    + rewrite concat_slices. cbn [Nat.mul drop]. apply take_all. nia.
    + apply Forall_forall. intros x Hx. apply list_elem_of_In in Hx.
      apply in_map_iff in Hx as (k & <- & Hk). apply in_seq in Hk.
      rewrite length_take, length_drop. nia.
    + intros k x Hk Hx. rewrite length_map, length_seq in Hk.
      rewrite list_lookup_fmap in Hx.
      rewrite lookup_seq_lt in Hx by lia. cbn in Hx. injection Hx as <-.
      rewrite length_take, length_drop. nia.
Qed.

End PyStrFacts.

(** * The pipeline's wiring *)

Module FlowFacts.
Import Flow.

Lemma edge_edges s a action b :
  edge s a action b <-> (a, action, b) ∈ edges s.
Proof.
  unfold edge, edges. rewrite list_elem_of_bind. split.
  - intros (n & Ha & Hb). exists (a, n). split.
    + apply list_elem_of_bind. exists (action, b).
      split; [apply list_elem_of_singleton; reflexivity|].
      now apply elem_of_map_to_list.
    + now apply elem_of_map_to_list.
  - intros ([a' n] & Hin & Ha). apply elem_of_map_to_list in Ha.
    apply list_elem_of_bind in Hin as ([action' b'] & Hin & Hb).
    apply list_elem_of_singleton in Hin. injection Hin as -> -> ->.
    apply elem_of_map_to_list in Hb. eauto.
Qed.

(** C6. The flow that [create_tutorial_flow] builds starts at the
    [FetchRepo] node; following the default successors from there visits
    seven distinct nodes, of the classes fetch, identify (map), identify
    (reduce), analyze, order, write and combine in this order, and ends
    there; and the store has these six edges, all on the default action, and
    no other edge. *)
Theorem tutorial_flow_is_the_fixed_chain :
  let f := fst (create_tutorial_flow empty_store) in
  let s := snd (create_tutorial_flow empty_store) in
  class_of s (start_node f) = Some FetchRepo
  /\ (forall fuel, (7 <= fuel)%nat ->
        walk s fuel (start_node f) = [0; 1; 2; 3; 4; 5; 6]%nat)
  /\ map (class_of s) [0; 1; 2; 3; 4; 5; 6]%nat
     = map Some [FetchRepo; IdentifyAbstractionsMap; IdentifyAbstractionsReduce;
                 AnalyzeRelationships; OrderChapters; WriteChapters;
                 CombineTutorial]
  /\ (forall a action b,
        edge s a action b
        <-> action = "default"
            /\ In (a, b) [(0, 1); (1, 2); (2, 3); (3, 4); (4, 5); (5, 6)]%nat).
Proof.
  intros f s. split; [reflexivity|]. split; [|split; [reflexivity|]].
  - intros fuel Hfuel.
    do 7 (destruct fuel as [|fuel]; [lia|]). vm_compute. reflexivity.
  - intros a action b. rewrite edge_edges.
    assert (Hedges : edges s =
              [(4, "default", 5); (2, "default", 3); (5, "default", 6);
               (3, "default", 4); (1, "default", 2); (0, "default", 1)]%nat).
    { vm_compute. reflexivity. }
    rewrite Hedges. rewrite !elem_of_cons, elem_of_nil. cbn [In].
    split.
    + intros H. repeat destruct H as [H|H]; try (injection H as -> -> ->); try contradiction;
        (split; [reflexivity | tauto]).
    + intros [-> H]. repeat destruct H as [H|H]; try (injection H as -> ->); try contradiction; tauto.
Qed.

End FlowFacts.

(** * The crawler's properties *)

Module CrawlerFacts.
Import Crawler CrawlerProps.

Section Filter.

Variable lib : Lib.

Lemma existsb_elem_of {A} (p : A -> bool) (l : list A) :
  existsb p l = true <-> exists x, x ∈ l /\ p x = true.
Proof.
  rewrite existsb_exists. split; intros (x & Hx & Hp); exists x;
    (split; [now apply list_elem_of_In | exact Hp]).
Qed.

Lemma truthy_no_patterns p : truthy p = false <-> no_patterns p.
Proof.
  unfold no_patterns. destruct p as [|s|ps]; cbn.
  - split; [intros _ pat [] | reflexivity].
  - rewrite negb_false_iff, String.eqb_eq. split.
    + intros -> pat [H _]. now apply H.
    + intros H. destruct (String.eqb_spec s ""); [assumption|].
      exfalso. apply (H s). now split.
  - rewrite negb_false_iff, bool_decide_eq_true. split.
    + intros -> pat H. set_solver.
    + intros H. apply leibniz_equiv. set_solver.
Qed.

Lemma truthy_normalize p : truthy (normalize p) = truthy p.
Proof.
  destruct p as [|s|ps]; try reflexivity. unfold normalize.
  destruct (truthy (PStr s)) eqn:Hs; [|exact Hs]. cbn.
  apply negb_true_iff, bool_decide_eq_false. set_solver.
Qed.

Lemma iterate_normalize p pat :
  truthy p = true -> (pat ∈ iterate (normalize p) <-> patterns_of p pat).
Proof.
  destruct p as [|s|ps]; cbn [truthy]; [discriminate| |].
  - intros Hs. unfold normalize. cbn [truthy]. rewrite Hs. cbn [iterate patterns_of].
    rewrite elem_of_elements, elem_of_singleton.
    apply negb_true_iff, String.eqb_neq in Hs. tauto.
  - intros _. cbn. apply elem_of_elements.
Qed.

Lemma existsb_normalize p x :
  truthy p = true ->
  (existsb (fun pat => fnmatch lib x pat) (iterate (normalize p)) = true
   <-> matches_some lib p x).
Proof.
  intros Hp. rewrite existsb_elem_of. unfold matches_some.
  split; intros (pat & Hin & Hm); exists pat;
    (split; [now apply (iterate_normalize p pat Hp) | exact Hm]).
Qed.

(** The filter the crawler applies, after it has made sets of its string
    arguments, is the rule. *)
Lemma should_include_file_rule inc exc file_path file_name :
  should_include_file lib (normalize inc) (normalize exc) file_path file_name = true
  <-> passes_filter lib inc exc file_path file_name.
Proof.
  unfold should_include_file, passes_filter. rewrite !truthy_normalize.
  destruct (truthy inc) eqn:Hi, (truthy exc) eqn:He; cbn [negb andb].
  - destruct (existsb _ (iterate (normalize inc))) eqn:Hin.
    + apply (existsb_normalize inc file_name Hi) in Hin.
      rewrite negb_true_iff, <- not_true_iff_false,
        (existsb_normalize exc file_path He). tauto.
    + split; [discriminate|]. intros [[Hno|Hm] _].
      * apply truthy_no_patterns in Hno. congruence.
      * apply (existsb_normalize inc file_name Hi) in Hm. congruence.
  - rewrite (existsb_normalize inc file_name Hi).
    apply truthy_no_patterns in He.
    split; [intros H; split; [now right|]; intros (pat & Hp & _); now apply (He pat)
           | intros [[Hno|Hm] _]; [|exact Hm]].
    apply truthy_no_patterns in Hno. congruence.
  - apply truthy_no_patterns in Hi.
    rewrite negb_true_iff, <- not_true_iff_false,
      (existsb_normalize exc file_path He). tauto.
  - apply truthy_no_patterns in Hi. apply truthy_no_patterns in He.
    split; [intros _; split; [now left|]; intros (pat & Hp & _); now apply (He pat)
           | reflexivity].
Qed.

Lemma collect_blobs_spec inc exc urp sp all_items path_item rel :
  In (path_item, rel) (collect_blobs lib urp sp inc exc all_items)
  <-> exists it,
        In it all_items /\ i_type it = Some "blob"
        /\ path_item = default "" (i_path it)
        /\ rel = rel_of urp sp path_item
        /\ should_include_file lib inc exc rel (default "" (i_name it)) = true.
Proof.
  unfold collect_blobs. rewrite <- list_elem_of_In, list_elem_of_omap.
  setoid_rewrite list_elem_of_In. split.
  - intros (it & Hit & H). exists it. split; [exact Hit|].
    destruct (bool_decide (i_type it = Some "blob")) eqn:Hb; [|discriminate].
    apply bool_decide_eq_true in Hb. cbn [negb] in H.
    fold (rel_of urp sp (default "" (i_path it))) in H.
    destruct (should_include_file _ _ _ _ _) eqn:Hs; [|discriminate].
    cbn [negb] in H. injection H as <- <-. auto.
  - intros (it & Hit & Hb & -> & -> & Hs). exists it. split; [exact Hit|].
    rewrite bool_decide_eq_true_2 by exact Hb. cbn [negb].
    fold (rel_of urp sp (default "" (i_path it))).
    now rewrite Hs.
Qed.

End Filter.

Lemma crawl_bind_ret_inv {A B} (m : M A) (k : A -> M B) t b t' :
  bind m k t = (Ret b, t') ->
  exists a t1, m t = (Ret a, t1) /\ k a t1 = (Ret b, t').
Proof.
  unfold bind. destruct (m t) as [[a|e|] t1]; intros H;
    [eauto | discriminate | discriminate].
Qed.

Lemma exchanges_app t1 t2 : exchanges (t1 ++ t2) = exchanges t1 ++ exchanges t2.
Proof. unfold exchanges. apply omap_app. Qed.

(** *** What is kept and what is skipped *)

Lemma keep_or_skip_skipped max rel r acc x :
  In x (snd acc) -> In x (snd (keep_or_skip max rel r acc)).
Proof.
  unfold keep_or_skip. intros Hx.
  destruct (negb _); [cbn; apply in_or_app; now left|].
  destruct (_ >? _); [cbn; apply in_or_app; now left | exact Hx].
Qed.

Lemma keep_all_skipped_mono max blobs rs acc x :
  In x (snd acc) -> In x (snd (keep_all max blobs rs acc)).
Proof.
  revert rs acc. induction blobs as [|[p rel] blobs IH]; intros rs acc Hx;
    [exact Hx|].
  destruct rs as [|r rs]; [exact Hx|]. cbn [keep_all].
  apply IH, keep_or_skip_skipped, Hx.
Qed.

(** A blob answered with a content above the limit is among the skipped
    files, with its size. *)
Lemma keep_all_oversized max blobs rs acc i p rel r :
  blobs !! i = Some (p, rel) -> rs !! i = Some r ->
  status_code r = 200 -> PyStr.utf8_size (text r) > max ->
  In (rel, PyStr.utf8_size (text r)) (snd (keep_all max blobs rs acc)).
Proof.
  revert rs acc i. induction blobs as [|[p0 rel0] blobs IH]; intros rs acc i Hb Hr Hs Hz;
    [discriminate|].
  destruct rs as [|r0 rs]; [destruct i; discriminate|]. cbn [keep_all].
  destruct i as [|i].
  - injection Hb as -> ->. injection Hr as ->.
    apply keep_all_skipped_mono. unfold keep_or_skip.
    rewrite Hs. cbn [Z.eqb Pos.eqb negb].
    destruct (Z.gtb_spec (PyStr.utf8_size (text r)) max); [|lia].
    cbn. apply in_or_app. right. now left.
  - eapply IH; eassumption.
Qed.

(** Every file of the result is the whole content of an answer with status
    200 and a size within the limit, for a blob keyed by that path. *)
Lemma keep_all_files max blobs rs acc rel c :
  fst (keep_all max blobs rs acc) !! rel = Some c ->
  fst acc !! rel = Some c
  \/ exists i p r,
       blobs !! i = Some (p, rel) /\ rs !! i = Some r
       /\ status_code r = 200 /\ text r = c /\ PyStr.utf8_size c <= max.
Proof.
  revert rs acc. induction blobs as [|[p0 rel0] blobs IH]; intros rs acc H;
    [now left|].
  destruct rs as [|r0 rs]; [now left|]. cbn [keep_all] in H.
  apply IH in H as [H | (i & p & r & Hb & Hr & Hrest)].
  - unfold keep_or_skip in H.
    destruct (Z.eqb_spec (status_code r0) 200) as [Hs|Hs]; cbn [negb] in H;
      [|now left].
    destruct (Z.gtb_spec (PyStr.utf8_size (text r0)) max) as [Hz|Hz];
      [now left|]. cbn [fst] in H.
    destruct (decide (rel0 = rel)) as [->|Hne].
    + rewrite lookup_insert_eq in H. injection H as <-.
      right. exists 0%nat, p0, r0. repeat split; auto.
    + rewrite lookup_insert_ne in H by exact Hne. now left.
  - right. exists (S i), p, r. auto.
Qed.

Lemma keep_or_skip_key max rel r acc key :
  fetched_key (keep_or_skip max rel r acc) key <-> fetched_key acc key \/ key = rel.
Proof.
  unfold fetched_key, keep_or_skip. destruct (negb _);
    [cbn [fst snd]; rewrite map_app, in_app_iff; cbn; intuition|].
  destruct (_ >? _);
    [cbn [fst snd]; rewrite map_app, in_app_iff; cbn; intuition|].
  cbn [fst snd]. rewrite lookup_insert_is_Some'. intuition.
Qed.

Lemma keep_all_key max blobs rs acc key :
  length rs = length blobs ->
  fetched_key (keep_all max blobs rs acc) key
  <-> fetched_key acc key \/ exists path_item, In (path_item, key) blobs.
Proof.
  revert rs acc. induction blobs as [|[p rel] blobs IH]; intros rs acc Hlen.
  - cbn. split; [now left | intros [H|(? & [])]; exact H].
  - destruct rs as [|r rs]; [discriminate|]. cbn [keep_all].
    rewrite IH by (cbn in Hlen; lia). rewrite keep_or_skip_key. split.
    + intros [[H| ->]|(p' & Hin)]; [now left | right | right].
      * exists p. now left.
      * exists p'. now right.
    + intros [H|(p' & [[= -> ->]|Hin])]; [left; now left | left; now right | right].
      now exists p'.
Qed.

Section Fetch.

Variable lib : Lib.
Variable serve : list http_request -> http_request -> http_outcome.

Lemma get_ret_inv req t r t' :
  get serve req t = (Ret r, t') -> t' = Got req (Answer r) :: t.
Proof.
  unfold get. destruct (serve _ req) as [r0|msg] eqn:Hs; [|discriminate].
  now intros [= <- <-].
Qed.

Lemma fetch_files_ret api pid headers ref max blobs files skipped t acc t' :
  fetch_files lib serve api pid headers ref max blobs files skipped t = (Ret acc, t') ->
  exists rs,
    length rs = length blobs
    /\ acc = keep_all max blobs rs (files, skipped)
    /\ exchanges t' = raw_exchanges lib api pid headers ref blobs rs ++ exchanges t.
Proof.
  revert files skipped t. induction blobs as [|[p rel] blobs IH];
    intros files skipped t H.
  - injection H as <- <-. exists []. repeat split.
  - cbn [fetch_files] in H.
    apply crawl_bind_ret_inv in H as (r & t1 & Hget & H).
    apply get_ret_inv in Hget as ->.
    assert (Hstep : exists t2,
               exchanges t2 = (raw_request lib api pid headers ref p, Answer r)
                              :: exchanges t
               /\ fetch_files lib serve api pid headers ref max blobs
                    (fst (keep_or_skip max rel r (files, skipped)))
                    (snd (keep_or_skip max rel r (files, skipped))) t2
                  = (Ret acc, t')).
    { unfold keep_or_skip. cbn [fst snd].
      destruct (negb (status_code r =? 200)).
      - apply crawl_bind_ret_inv in H as ([] & t2 & Hp & H).
        injection Hp as <-. eexists. split; [|exact H]. reflexivity.
      - destruct (PyStr.utf8_size (text r) >? max).
        + apply crawl_bind_ret_inv in H as ([] & t2 & Hp & H).
          injection Hp as <-. eexists. split; [|exact H]. reflexivity.
        + apply crawl_bind_ret_inv in H as ([] & t2 & Hp & H).
          injection Hp as <-. eexists. split; [|exact H]. reflexivity. }
    destruct Hstep as (t2 & Hex & Hrest).
    apply IH in Hrest as (rs & Hlen & Hacc & Ht).
    exists (r :: rs). split; [cbn; lia|]. split.
    + cbn [keep_all]. rewrite Hacc. now destruct (keep_or_skip _ _ _ _).
    + rewrite Ht, Hex. unfold raw_exchanges. cbn [zip_with rev fst].
      now rewrite <- app_assoc.
Qed.

End Fetch.

Section Crawl.

Variable lib : Lib.
Variable serve : list http_request -> http_request -> http_outcome.

(** The crawl raises on a locator that [urlparse] rejects, before any
    request; otherwise it is the listing, the filter and the fetch at the
    places the locator gives. *)
Lemma split_slash_nonempty s : split_slash s <> [].
Proof.
  destruct s as [|c s]; cbn; [discriminate|].
  destruct (Ascii.eqb c "/"); [discriminate|].
  destruct (split_slash s); discriminate.
Qed.

Lemma crawl_cases fuel a :
  (urlparse lib (repo_url a) = None
   /\ exists msg, crawl_gitlab_files lib serve fuel a = raise (ValueError msg))
  \/ exists api pid headers ref tree_url sp,
       crawl_gitlab_files lib serve fuel a
       = crawl_from lib serve fuel a api pid headers ref tree_url sp.
Proof.
  unfold crawl_gitlab_files.
  destruct (urlparse lib (repo_url a)) as [[netloc parsed_path]|]; [|left; eauto].
  destruct (split_slash (strip_slash parsed_path)) as [|part parts] eqn:Hparts;
    [now apply split_slash_nonempty in Hparts|].
  right.
  destruct (index_of "-" (part :: parts)) as [dash_idx|].
  - destruct (drop (S dash_idx) (part :: parts)) as [|tree [|branch sub]];
      [| |destruct (String.eqb tree "tree")];
      do 6 eexists; unfold crawl_from; reflexivity.
  - do 6 eexists. unfold crawl_from. reflexivity.
Qed.

Lemma get_spec req t :
  get serve req t
  = (match serve (requested t) req with
     | Answer r => Ret r
     | NetworkError msg => Raise (RequestException msg)
     end, Got req (serve (requested t) req) :: t).
Proof. unfold get. destruct (serve _ req); reflexivity. Qed.

Lemma exchanges_silent mid : silent mid -> exchanges mid = [].
Proof.
  induction 1 as [|e mid He _ IH]; [reflexivity|].
  destruct e; cbn; try contradiction; exact IH.
Qed.

(** The verdict after one answered request and events that are no
    requests. *)
Lemma verdict_one r mid req resp :
  silent mid -> is_tree_request req = true ->
  (forall res, r = Ret (inl res) -> exists error, res = error_result error) ->
  (status_code resp = 401 -> r = Ret (inl (error_result "Unauthorized"))) ->
  (status_code resp = 404 -> r = Ret (inl (error_result "Not found"))) ->
  verdict r (mid ++ [Got req (Answer resp)]).
Proof.
  intros Hmid Htree Hearly H401 H404. unfold verdict.
  rewrite exchanges_app, (exchanges_silent mid Hmid). cbn.
  split; [|split].
  - intros res Hres. split; [eauto | now apply Hearly].
  - intros req0 resp0 [= <- <-]. auto.
  - repeat constructor. exact Htree.
Qed.

(** The verdict of a later part of the loop, seen from an earlier request
    that was answered with a status other than 401 and 404. *)
Lemma verdict_later r new mid req resp :
  verdict r new -> silent mid -> is_tree_request req = true ->
  status_code resp <> 401 -> status_code resp <> 404 ->
  verdict r (new ++ mid ++ [Got req (Answer resp)]).
Proof.
  intros (Hearly & Hnewest & Htree) Hmid Hreq N401 N404. unfold verdict.
  rewrite !exchanges_app, (exchanges_silent mid Hmid). cbn.
  destruct (exchanges new) as [|x xs] eqn:Hx.
  - split; [|split].
    + intros res Hres. destruct (Hearly res Hres) as ((? & ? & Hhd) & _).
      discriminate.
    + intros req0 resp0 [= <- <-]. split; intros; contradiction.
    + repeat constructor. exact Hreq.
  - split; [exact Hearly | split; [exact Hnewest|]].
    apply Forall_app. split; [exact Htree | repeat constructor; exact Hreq].
Qed.

(** What a run of the listing loop adds to the trace, and its verdict. *)
Lemma list_tree_run fuel tree_url headers ref page all_items t r t' :
  list_tree lib serve fuel tree_url headers ref page all_items t = (r, t') ->
  exists new, t' = new ++ t /\ verdict r new.
Proof.
  revert page all_items t r t'.
  induction fuel as [|fuel IH]; intros page all_items t r t'; cbn [list_tree].
  - intros [= <- <-]. exists []. split; [reflexivity|].
    repeat split; try discriminate. constructor.
  - unfold bind at 1. rewrite get_spec.
    set (req := TreePage tree_url headers ref page).
    destruct (serve (requested t) req) as [resp|msg] eqn:Hs.
    2:{ intros [= <- <-]. exists [Got req (NetworkError msg)].
        split; [reflexivity|]. repeat split; try discriminate.
        repeat constructor. }
    assert (Hone : forall r0 mid,
               silent mid ->
               (forall res, r0 = Ret (inl res) ->
                            exists error, res = error_result error) ->
               (status_code resp = 401 ->
                r0 = Ret (inl (error_result "Unauthorized"))) ->
               (status_code resp = 404 ->
                r0 = Ret (inl (error_result "Not found"))) ->
               exists new,
                 mid ++ Got req (Answer resp) :: t = new ++ t /\ verdict r0 new).
    { intros r0 mid Hmid Hearly H401 H404.
      exists (mid ++ [Got req (Answer resp)]). rewrite <- app_assoc.
      split; [reflexivity | now apply verdict_one]. }
    assert (Hrec : forall mid page' items' r0 t0,
               silent mid ->
               status_code resp <> 401 -> status_code resp <> 404 ->
               list_tree lib serve fuel tree_url headers ref page' items'
                 (mid ++ Got req (Answer resp) :: t) = (r0, t0) ->
               exists new, t0 = new ++ t /\ verdict r0 new).
    { intros mid page' items' r0 t0 Hmid N401 N404 Hrun.
      apply IH in Hrun as (new & -> & Hv).
      exists (new ++ mid ++ [Got req (Answer resp)]).
      split; [now rewrite <- !app_assoc | now apply verdict_later]. }
    destruct (Z.eqb_spec (status_code resp) 401) as [H401|N401].
    { intros [= <- <-].
      apply (Hone _ [Printed Notice401]); [repeat constructor | | reflexivity | lia].
      intros res [= <-]. eauto. }
    destruct (Z.eqb_spec (status_code resp) 404) as [H404|N404].
    { intros [= <- <-].
      apply (Hone _ [Printed Notice404]); [repeat constructor | | lia | reflexivity].
      intros res [= <-]. eauto. }
    destruct (Z.eqb_spec (status_code resp) 429) as [H429|N429].
    { unfold bind at 1. unfold retry_wait.
      assert (Hwait : forall wait,
                 (print (NoticeRateLimit wait) ;;; sleep lib wait ;;;
                  list_tree lib serve fuel tree_url headers ref page all_items)%crawl
                   (Got req (Answer resp) :: t) = (r, t') ->
                 exists new, t' = new ++ t /\ verdict r new).
      { intros wait. unfold bind at 1, print, emit. unfold bind at 1, sleep.
        assert (Hraise : forall e,
                   (Raise e, Printed (NoticeRateLimit wait)
                             :: Got req (Answer resp) :: t) = (r, t') ->
                   exists new, t' = new ++ t /\ verdict r new).
        { intros e [= <- <-].
          apply (Hone (Raise _) [Printed (NoticeRateLimit wait)]);
            [repeat constructor | discriminate | lia | lia]. }
        destruct (_ || _); [apply Hraise|].
        destruct (wait <? 0); [apply Hraise|].
        destruct (can_sleep lib wait); [|apply Hraise].
        cbn [emit]. intros Hrun.
        apply (Hrec [Slept wait; Printed (NoticeRateLimit wait)]) in Hrun;
          [exact Hrun | repeat constructor | lia | lia]. }
      destruct (retry_after resp) as [v|].
      - destruct (PyStr.to_int v) as [n|].
        + apply Hwait.
        + intros [= <- <-].
          apply (Hone (Raise _) []); [constructor | discriminate | lia | lia].
      - apply Hwait. }
    destruct (Z.eqb_spec (status_code resp) 200) as [H200|N200]; cbn [negb].
    2:{ intros [= <- <-].
        apply (Hone _ [Printed (NoticeTreeError (status_code resp)
                                  (PyStr.take 500 (text resp)))]);
          [repeat constructor | | lia | lia].
        intros res [= <-]. eauto. }
    destruct (body resp) as [[|it data]|].
    + intros [= <- <-]. apply (Hone _ []); [constructor | discriminate | lia | lia].
    + destruct (length (it :: data) <? 100)%nat.
      * intros [= <- <-].
        apply (Hone _ []); [constructor | discriminate | lia | lia].
      * intros Hrun. apply (Hrec []) in Hrun; [exact Hrun | constructor | lia | lia].
    + intros [= <- <-].
      apply (Hone (Raise _) []); [constructor | discriminate | lia | lia].
Qed.

Lemma crawl_from_ret fuel a api pid headers ref tree_url sp t res t' :
  crawl_from lib serve fuel a api pid headers ref tree_url sp t = (Ret res, t') ->
  list_tree lib serve fuel tree_url headers ref 1 [] t = (Ret (inl res), t')
  \/ exists all_items t1 files skipped,
       list_tree lib serve fuel tree_url headers ref 1 [] t = (Ret (inr all_items), t1)
       /\ fetch_files lib serve api pid headers ref (max_file_size a)
            (collect_blobs lib (use_relative_paths a) sp
               (normalize (include_patterns a)) (normalize (exclude_patterns a))
               all_items) ∅ [] t1
          = (Ret (files, skipped), t')
       /\ res = {| files := files;
                   stats := StatsFull (Z.of_nat (size files))
                              (Z.of_nat (length skipped)) skipped
                              (if use_relative_paths a then Some sp else None)
                              (normalize (include_patterns a))
                              (normalize (exclude_patterns a)) |}.
Proof.
  unfold crawl_from. intros H.
  apply crawl_bind_ret_inv in H as ([early|all_items] & t1 & Hlist & H).
  - left. injection H as <- <-. exact Hlist.
  - right. apply crawl_bind_ret_inv in H as ([files skipped] & t2 & Hfetch & H).
    injection H as <- <-. exists all_items, t1, files, skipped. auto.
Qed.

(** C8. In the fetch loop every blob is requested once, in order. A blob
    whose content, answered with status 200, is larger in bytes than
    [max_file_size] is recorded in the skipped files as the pair of its path
    and its size; and every file of the result is the complete content of an
    answer with status 200 whose size is within the limit, for a blob keyed
    by that path: no content above the limit is kept, whole or cut. When no
    two blobs are keyed by the same path, the path of such a blob is not a
    key of the files at all. In the result of the crawl,
    [downloaded_count] is the number of files and [skipped_count] the number
    of skipped files, both as the fetch loop returned them. *)
Theorem oversized_files_are_skipped :
  (forall api pid headers ref max blobs t files skipped t',
     fetch_files lib serve api pid headers ref max blobs ∅ [] t
     = (Ret (files, skipped), t') ->
     exists rs,
       length rs = length blobs
       /\ exchanges t'
          = raw_exchanges lib api pid headers ref blobs rs ++ exchanges t
       /\ (forall i p rel r,
             blobs !! i = Some (p, rel) -> rs !! i = Some r ->
             status_code r = 200 -> PyStr.utf8_size (text r) > max ->
             In (rel, PyStr.utf8_size (text r)) skipped
             /\ (NoDup (map snd blobs) -> files !! rel = None))
       /\ (forall rel c,
             files !! rel = Some c ->
             exists i p r,
               blobs !! i = Some (p, rel) /\ rs !! i = Some r
               /\ status_code r = 200 /\ text r = c
               /\ PyStr.utf8_size c <= max))
  /\ (forall fuel a t res t' dc sc sk bp ip ep,
        crawl_gitlab_files lib serve fuel a t = (Ret res, t') ->
        stats res = StatsFull dc sc sk bp ip ep ->
        dc = Z.of_nat (size (files res))
        /\ sc = Z.of_nat (length sk)
        /\ exists api pid headers ref blobs t1,
             fetch_files lib serve api pid headers ref (max_file_size a)
               blobs ∅ [] t1
             = (Ret (files res, sk), t')).
Proof.
  split.
  - intros api pid headers ref max blobs t files skipped t' H.
    apply fetch_files_ret in H as (rs & Hlen & Hacc & Hex).
    assert (Hfiles : forall rel c,
               files !! rel = Some c ->
               exists i p r,
                 blobs !! i = Some (p, rel) /\ rs !! i = Some r
                 /\ status_code r = 200 /\ text r = c
                 /\ PyStr.utf8_size c <= max).
    { intros rel c Hc.
      replace files with (fst (keep_all max blobs rs (∅, []))) in Hc
        by now rewrite <- Hacc.
      apply keep_all_files in Hc as [Hc | Hc]; [|exact Hc].
      cbn in Hc. now rewrite lookup_empty in Hc. }
    exists rs. repeat split; try assumption.
    + replace skipped with (snd (keep_all max blobs rs (∅, [])))
        by now rewrite <- Hacc.
      eapply keep_all_oversized; eassumption.
    + intros Hnd. destruct (files !! rel) as [c|] eqn:Hc; [|reflexivity].
      apply Hfiles in Hc as (j & p' & r' & Hb' & Hr' & _ & Htext & Hsize).
      assert (j = i) as ->.
      { apply (NoDup_lookup _ _ _ rel Hnd);
          rewrite list_lookup_fmap; [now rewrite Hb' | now rewrite H]. }
      rewrite H0 in Hr'. injection Hr' as <-. subst c. lia.
  - intros fuel a t res t' dc sc sk bp ip ep H Hstats.
    destruct (crawl_cases fuel a) as [(_ & msg & Hc) | (api & pid & headers & ref & tree_url & sp & Hc)];
      rewrite Hc in H; [discriminate|].
    apply crawl_from_ret in H as [Hl | (items & t1 & files & skipped & Hl & Hf & ->)].
    + apply list_tree_run in Hl as (new & _ & Hearly & _).
      destruct (Hearly res eq_refl) as (_ & error & ->).
      discriminate.
    + cbn in Hstats. injection Hstats as <- <- <- <- <- <-. cbn [Crawler.files].
      repeat split. eauto 10.
Qed.

Lemma fetch_files_run api pid headers ref max blobs files skipped t r t' :
  fetch_files lib serve api pid headers ref max blobs files skipped t = (r, t') ->
  exists new,
    t' = new ++ t
    /\ Forall (fun x => is_tree_request (fst x) = false) (exchanges new).
Proof.
  revert files skipped t. induction blobs as [|[p rel] blobs IH];
    intros files skipped t; cbn [fetch_files].
  - intros [= <- <-]. exists []. split; [reflexivity | constructor].
  - unfold bind at 1. rewrite get_spec.
    set (req := RawFile _ headers ref).
    assert (Hrec : forall mid files' skipped',
               silent mid ->
               fetch_files lib serve api pid headers ref max blobs files' skipped'
                 (mid ++ Got req (serve (requested t) req) :: t) = (r, t') ->
               exists new,
                 t' = new ++ t
                 /\ Forall (fun x => is_tree_request (fst x) = false)
                      (exchanges new)).
    { intros mid files' skipped' Hmid Hrun.
      apply IH in Hrun as (new & -> & Hnew).
      exists (new ++ mid ++ [Got req (serve (requested t) req)]).
      split; [now rewrite <- !app_assoc|].
      rewrite !exchanges_app, (exchanges_silent mid Hmid).
      apply Forall_app. split; [exact Hnew | repeat constructor]. }
    destruct (serve (requested t) req) as [resp|msg].
    + destruct (negb (status_code resp =? 200)).
      * unfold bind at 1, print, emit.
        apply (Hrec [Printed _]). repeat constructor.
      * destruct (_ >? max); unfold bind at 1, print, emit;
          apply (Hrec [Printed _]); repeat constructor.
    + intros [= <- <-]. exists [Got req (NetworkError msg)].
      split; [reflexivity | repeat constructor].
Qed.

(** C7. Whatever the locator and the arguments, when the newest request of
    a crawl is a listing request that the server answered with status 401,
    the crawl has returned, not raised: its result has no files and its
    stats are the error ["Unauthorized"]; with status 404 they are the error
    ["Not found"]. This holds wherever in the listing the answer comes,
    after rate limits or after full pages. And on a locator that parses, a
    listing request answered at once with 401 or 404 ends the crawl with
    that result after the one request and its notice. *)
Theorem auth_failure_is_an_error_result :
  (forall fuel a t r t',
     crawl_gitlab_files lib serve fuel a t = (r, t') ->
     exists new,
       t' = new ++ t
       /\ forall req resp,
            hd_error (exchanges new) = Some (req, Answer resp) ->
            is_tree_request req = true ->
            (status_code resp = 401 ->
             r = Ret {| files := ∅; stats := StatsError "Unauthorized" |})
            /\ (status_code resp = 404 ->
                r = Ret {| files := ∅; stats := StatsError "Not found" |}))
  /\ (forall fuel a t,
        urlparse lib (repo_url a) <> None ->
        exists url headers ref,
          let req := TreePage url headers ref 1 in
          forall resp,
            serve (requested t) req = Answer resp ->
            (status_code resp = 401 ->
             crawl_gitlab_files lib serve (S fuel) a t
             = (Ret {| files := ∅; stats := StatsError "Unauthorized" |},
                Printed Notice401 :: Got req (Answer resp) :: t))
            /\ (status_code resp = 404 ->
                crawl_gitlab_files lib serve (S fuel) a t
                = (Ret {| files := ∅; stats := StatsError "Not found" |},
                   Printed Notice404 :: Got req (Answer resp) :: t))).
Proof.
  split.
  - intros fuel a t r t' H.
    destruct (crawl_cases fuel a)
      as [(_ & msg & Hc) | (api & pid & headers & ref & tree_url & sp & Hc)];
      rewrite Hc in H.
    { injection H as <- <-. exists []. split; [reflexivity | discriminate]. }
    unfold crawl_from, bind at 1 in H.
    destruct (list_tree lib serve fuel tree_url headers ref 1 [] t) as [rl t1] eqn:Hl.
    apply list_tree_run in Hl as (new1 & -> & Hearly & Hnewest & Htree).
    destruct rl as [[early|items]|e|].
    + injection H as <- <-. exists new1. split; [reflexivity|].
      intros req resp Hhd _. destruct (Hnewest req resp Hhd) as [H401 H404].
      split; intros Hs; [apply H401 in Hs | apply H404 in Hs];
        injection Hs as ->; reflexivity.
    + unfold bind at 1 in H.
      destruct (fetch_files _ _ _ _ _ _ _ _ _ _ (new1 ++ t)) as [fr t2] eqn:Hf.
      apply fetch_files_run in Hf as (new2 & -> & Hraw).
      assert (t' = new2 ++ new1 ++ t) as ->.
      { destruct fr as [[files skipped]|e|]; now injection H as _ <-. }
      exists (new2 ++ new1). split; [now rewrite <- app_assoc|].
      intros req resp Hhd Hreq. rewrite exchanges_app in Hhd.
      destruct (exchanges new2) as [|x xs].
      * destruct (Hnewest req resp Hhd) as [H401 H404].
        split; intros Hs; [apply H401 in Hs | apply H404 in Hs]; discriminate.
      * injection Hhd as ->. inversion Hraw as [|? ? Hx _]; subst.
        cbn in Hx. congruence.
    + injection H as <- <-. exists new1. split; [reflexivity|].
      intros req resp Hhd _. destruct (Hnewest req resp Hhd) as [H401 H404].
      split; intros Hs; [apply H401 in Hs | apply H404 in Hs]; discriminate.
    + injection H as <- <-. exists new1. split; [reflexivity|].
      intros req resp Hhd _. destruct (Hnewest req resp Hhd) as [H401 H404].
      split; intros Hs; [apply H401 in Hs | apply H404 in Hs]; discriminate.
  - intros fuel a t Hparse.
    destruct (crawl_cases (S fuel) a)
      as [(Hnone & _) | (api & pid & headers & ref & tree_url & sp & Hc)];
      [contradiction|].
    exists tree_url, headers, ref. intros req resp Hs. rewrite Hc.
    split; intros Hst; unfold crawl_from; cbn [list_tree];
      unfold bind at 1, bind at 1; rewrite get_spec; fold req; rewrite Hs;
      cbv beta iota zeta.
    + apply Z.eqb_eq in Hst. rewrite Hst. reflexivity.
    + destruct (Z.eqb_spec (status_code resp) 401) as [H401|_]; [lia|].
      apply Z.eqb_eq in Hst. rewrite Hst. reflexivity.
Qed.

(** C10. Which files a crawl includes. A crawl that returns has stopped
    at the listing with an error result, or it has listed the items
    [all_items] and gone on to fetch blobs, one request each, in the order of
    the listing; and then a blob is fetched, and a path is a key of the files
    or of the skipped files of the result, exactly when it comes from a listed
    item of type blob that passes the filter: the include patterns of the call
    are empty or one of them matches the item's name, and no exclude pattern
    of the call matches the path the file is keyed by. The patterns are
    those of the arguments themselves, a string standing for the one pattern
    it is. *)
Theorem inclusion_rule (fuel : nat) (a : args) (t t' : list event)
    (res : crawl_result) :
  crawl_gitlab_files lib serve fuel a t = (Ret res, t') ->
  (exists error, res = {| files := ∅; stats := StatsError error |})
  \/ exists api pid headers ref tree_url sp all_items t1 blobs answers skipped,
       list_tree lib serve fuel tree_url headers ref 1 [] t
       = (Ret (inr all_items), t1)
       /\ length answers = length blobs
       /\ exchanges t'
          = raw_exchanges lib api pid headers ref blobs answers ++ exchanges t1
       /\ (exists downloaded skipped_count base inc exc,
             stats res = StatsFull downloaded skipped_count skipped base inc exc)
       /\ (forall path_item key,
             In (path_item, key) blobs
             <-> exists it,
                   In it all_items /\ i_type it = Some "blob"
                   /\ path_item = default "" (i_path it)
                   /\ key = rel_of (use_relative_paths a) sp path_item
                   /\ passes_filter lib (include_patterns a) (exclude_patterns a)
                        key (default "" (i_name it)))
       /\ (forall key,
             fetched_key (files res, skipped) key
             <-> exists path_item, In (path_item, key) blobs).
Proof.
  intros H.
  destruct (crawl_cases fuel a)
    as [(_ & msg & Hc) | (api & pid & headers & ref & tree_url & sp & Hc)];
    rewrite Hc in H; [discriminate|].
  apply crawl_from_ret in H
    as [Hearly | (all_items & t1 & files & skipped & Hlist & Hfetch & ->)].
  - left. apply list_tree_run in Hearly as (new & _ & (Hinl & _)).
    destruct (Hinl res eq_refl) as (_ & error & ->). now exists error.
  - right. apply fetch_files_ret in Hfetch as (rs & Hlen & Hacc & Hex).
    exists api, pid, headers, ref, tree_url, sp, all_items, t1.
    eexists _, rs, skipped.
    split; [exact Hlist|]. split; [exact Hlen|]. split; [exact Hex|].
    split; [cbn; eauto 10|]. split.
    + intros path_item key. rewrite collect_blobs_spec.
      split; intros (it & Hit & Hty & Hp & Hk & Hs); exists it;
        repeat (split; [assumption|]);
        now apply (should_include_file_rule lib (include_patterns a)
                     (exclude_patterns a)).
    + intros key. cbn [Crawler.files]. rewrite Hacc.
      rewrite (keep_all_key _ _ _ _ _ Hlen). unfold fetched_key. cbn [fst snd map].
      rewrite lookup_empty. split; [|now right].
      intros [[[x Hx]|[]]|H]; [discriminate | exact H].
Qed.

End Crawl.

End CrawlerFacts.

(** * The gateway's properties *)

Module GatewayFacts.
Import Gateway GatewayProps.

Lemma bind_ret_inv {A B} (m : M A) (k : A -> M B) w b w' :
  bind m k w = (Ret b, w') ->
  exists a w1, m w = (Ret a, w1) /\ k a w1 = (Ret b, w').
Proof.
  unfold bind. destruct (m w) as [[a|e] w1]; intros H; [eauto | discriminate].
Qed.

Lemma bind_run {A B} (m : M A) (k : A -> M B) w a w1 :
  m w = (Ret a, w1) -> bind m k w = k a w1.
Proof. unfold bind. now intros ->. Qed.

Lemma bind_raise {A B} (m : M A) (k : A -> M B) w e w1 :
  m w = (Raise e, w1) -> bind m k w = (Raise e, w1).
Proof. unfold bind. now intros ->. Qed.

Lemma world_eta w : mk (cache_file w) (trace w) = w.
Proof. now destruct w. Qed.

(** *** The cache check and the cache update *)

Ltac run := unfold bind, catch, ret, raise, log, emit; cbn.

Lemma load_cache_spec warn w :
  load_cache warn w
  = (Ret (contents (cache_file w)),
     mk (cache_file w) (load_events warn (cache_file w) ++ trace w)).
Proof. destruct w as [f t]; destruct f, warn; reflexivity. Qed.

Lemma sent_load_events warn f : sent (load_events warn f) = [].
Proof. destruct f, warn; reflexivity. Qed.

Lemma sent_app t1 t2 : sent (t1 ++ t2) = sent t1 ++ sent t2.
Proof. unfold sent. apply omap_app. Qed.

(** A hit of the cache check: the file holds an object with the prompt as a
    key, and nothing but the load and the log happens. *)
Lemma check_cache_hit prompt w v w' :
  check_cache prompt w = (Ret (Some v), w') ->
  exists kvs,
    cache_file w = Document (JObj kvs) /\ kvs !! prompt = Some v
    /\ w' = mk (cache_file w)
              (Logged INFO (LogResponse v) :: Load (Some (JObj kvs))
               :: Exists true :: trace w).
Proof.
  unfold check_cache. intros H.
  apply bind_ret_inv in H as (cache & w1 & Hload & H).
  rewrite load_cache_spec in Hload. injection Hload as <- <-.
  apply bind_ret_inv in H as (hit & w2 & Hin & H).
  destruct (cache_file w) as [| | | |doc] eqn:Hf; cbn in Hin;
    try (injection Hin as <- <-; rewrite lookup_empty in H;
         cbn in H; discriminate).
  destruct doc as [| | | s | xs | kvs]; cbn in Hin; try discriminate;
    injection Hin as <- <-.
  - destruct (PyStr.contains prompt s); cbn in H; discriminate.
  - destruct (existsb _ xs); cbn in H; discriminate.
  - destruct (kvs !! prompt) as [v'|] eqn:Hk; cbn in H; [|discriminate].
    revert H. run. rewrite Hk. intros [= <- <-]. exists kvs. auto.
Qed.

Lemma check_cache_object prompt w kvs v :
  cache_file w = Document (JObj kvs) -> kvs !! prompt = Some v ->
  check_cache prompt w
  = (Ret (Some v),
     mk (cache_file w)
        (Logged INFO (LogResponse v) :: Load (Some (JObj kvs))
         :: Exists true :: trace w)).
Proof.
  intros Hf Hk. unfold check_cache.
  rewrite (bind_run _ _ _ _ _ (load_cache_spec true w)). rewrite Hf.
  unfold contents, py_in, py_getitem. rewrite Hk. reflexivity.
Qed.

(** A miss on a usable file. *)
Lemma check_cache_miss prompt w :
  usable (cache_file w) ->
  (forall kvs, cache_file w = Document (JObj kvs) -> kvs !! prompt = None) ->
  check_cache prompt w
  = (Ret None, mk (cache_file w) (load_events true (cache_file w) ++ trace w)).
Proof.
  intros Hu Hk. unfold check_cache.
  rewrite (bind_run _ _ _ _ _ (load_cache_spec true w)).
  destruct (cache_file w) as [| | | |doc] eqn:Hf; try reflexivity.
  destruct doc; try contradiction.
  unfold contents, py_in. rewrite (Hk _ eq_refl). reflexivity.
Qed.

(** The cache update on a usable file never raises: it stores the reloaded
    content with the new entry, or logs the failure of the write. *)
Lemma save_cache_spec out cache w :
  save_cache out cache w
  = match disk_fault out with
    | None => (Ret tt, mk (Document cache) (Store cache None :: trace w))
    | Some OpenFails =>
        (Ret tt, mk (cache_file w)
                    (Logged ERROR LogCacheSaveFailed
                     :: Store cache (Some OpenFails) :: trace w))
    | Some (DumpFails flushed) =>
        (Ret tt, mk (if flushed then Garbled else Empty)
                    (Logged ERROR LogCacheSaveFailed
                     :: Store cache (Some (DumpFails flushed)) :: trace w))
    end.
Proof. unfold save_cache. destruct (disk_fault out) as [[|fl]|]; reflexivity. Qed.

Lemma update_cache_spec out prompt v w :
  update_cache out prompt v w
  = match contents (cache_file w) with
    | JObj kvs =>
        save_cache out (JObj (<[prompt := v]> kvs))
          (mk (cache_file w) (load_events false (cache_file w) ++ trace w))
    | _ =>
        (Raise (TypeError "object does not support item assignment"),
         mk (cache_file w) (load_events false (cache_file w) ++ trace w))
    end.
Proof.
  unfold update_cache.
  rewrite (bind_run _ _ _ _ _ (load_cache_spec false w)).
  destruct (contents (cache_file w)); reflexivity.
Qed.

(** How a returning call came about: by a hit of the cache check, or by the
    provider branch followed by the log and, with the cache on, the update. *)
Lemma call_llm_ret_inv out prompt use_cache w r w' :
  call_llm out prompt use_cache w = (Ret r, w') ->
  let w0 := mk (cache_file w) (Logged INFO (LogPrompt prompt) :: trace w) in
  (use_cache = true /\ check_cache prompt w0 = (Ret (Some r), w'))
  \/ exists w1 text wp,
       (if use_cache then check_cache prompt else ret None) w0 = (Ret None, w1)
       /\ call_provider out prompt w1 = (Ret text, wp)
       /\ r = of_text text
       /\ (if use_cache
           then update_cache out prompt r
           else ret tt)
            (mk (cache_file wp) (Logged INFO (LogResponse r) :: trace wp))
          = (Ret tt, w').
Proof.
  intros H w0. unfold call_llm in H.
  apply bind_ret_inv in H as ([] & w0' & Hlog & H).
  unfold log, emit in Hlog. injection Hlog as <-.
  change {| cache_file := cache_file w;
            trace := Logged INFO (LogPrompt prompt) :: trace w |} with w0 in H.
  apply bind_ret_inv in H as (cached & w1 & Hc & H).
  destruct cached as [v|].
  - left. destruct use_cache; [|discriminate].
    injection H as <- <-. split; [reflexivity | assumption].
  - right. apply bind_ret_inv in H as (text & wp & Hp & H).
    apply bind_ret_inv in H as ([] & w2 & Hlog & H).
    unfold log, emit in Hlog. injection Hlog as <-.
    apply bind_ret_inv in H as ([] & w3 & Hu & H).
    injection H as <- <-. exists w1, text, wp. repeat split; assumption.
Qed.

Lemma call_llm_hit out prompt w kvs v :
  cache_file w = Document (JObj kvs) -> kvs !! prompt = Some v ->
  call_llm out prompt true w
  = (Ret v,
     mk (cache_file w)
        (Logged INFO (LogResponse v) :: Load (Some (JObj kvs)) :: Exists true
         :: Logged INFO (LogPrompt prompt) :: trace w)).
Proof.
  intros Hf Hk. unfold call_llm.
  erewrite bind_run by reflexivity.
  erewrite bind_run by (apply check_cache_object; [exact Hf | exact Hk]).
  reflexivity.
Qed.

(** A returning call whose cache write did not fail leaves the prompt in the
    cache file, with the answer it returned. *)
Lemma call_llm_leaves_entry out prompt w r w1 :
  call_llm out prompt true w = (Ret r, w1) ->
  hd_error (trace w1) <> Some (Logged ERROR LogCacheSaveFailed) ->
  exists kvs, cache_file w1 = Document (JObj kvs) /\ kvs !! prompt = Some r.
Proof.
  intros H Hhd. apply call_llm_ret_inv in H as [[_ H] | (w2 & text & wp & _ & _ & _ & H)].
  - apply check_cache_hit in H as (kvs & Hf & Hk & ->). exists kvs. auto.
  - rewrite update_cache_spec in H. cbn [cache_file trace mk] in H.
    destruct (contents (cache_file wp)) as [| | | | |kvs]; try discriminate.
    rewrite save_cache_spec in H.
    destruct (disk_fault out) as [[|fl]|]; injection H as <-;
      try (exfalso; apply Hhd; reflexivity).
    exists (<[prompt := r]> kvs). split; [reflexivity | apply lookup_insert_eq].
Qed.

(** C1, as the code has it. A prompt that is a key of the cache file's
    object is answered from the file: the call returns the cached value, the
    file stays as it is and the only events are the two logs and the load, so
    no client call is made. And when a call with the cache on has returned
    and its cache write has not failed, a second call on the same prompt
    returns the identical response without any client call, whatever the
    surroundings of the second call are (a disabled network included). *)
Theorem cache_hit_and_replay (out : Outside) (prompt : string) :
  (forall w kvs v,
     cache_file w = Document (JObj kvs) -> kvs !! prompt = Some v ->
     call_llm out prompt true w
     = (Ret v,
        mk (cache_file w)
           (Logged INFO (LogResponse v) :: Load (Some (JObj kvs)) :: Exists true
            :: Logged INFO (LogPrompt prompt) :: trace w)))
  /\ (forall w r w1,
        call_llm out prompt true w = (Ret r, w1) ->
        hd_error (trace w1) <> Some (Logged ERROR LogCacheSaveFailed) ->
        forall out', exists w2,
          call_llm out' prompt true w1 = (Ret r, w2)
          /\ sent (trace w2) = sent (trace w1)
          /\ cache_file w2 = cache_file w1).
Proof.
  split.
  - intros w kvs v Hf Hk. now apply call_llm_hit.
  - intros w r w1 H Hhd out'.
    destruct (call_llm_leaves_entry _ _ _ _ _ H Hhd) as (kvs & Hf & Hk).
    eexists. split; [apply (call_llm_hit out' _ _ _ _ Hf Hk) | split; reflexivity].
Qed.

(** *** Computations confined to the request history *)

Section Confined.

Variable out : Outside.

Lemma after_others_app hs1 hs2 f :
  after_others out (hs1 ++ hs2) f = after_others out hs2 (after_others out hs1 f).
Proof. unfold after_others. apply foldl_app. Qed.

Lemma confined_weaken (P Q : event -> bool) {A} (m : M A) :
  (forall e, P e = true -> Q e = true) -> confined out P m -> confined out Q m.
Proof.
  intros HPQ Hm s. destruct (Hm s) as (r & new & hs & HP & H).
  exists r, new, hs. split; [|exact H].
  rewrite forallb_forall in *. auto.
Qed.

Lemma confined_ret P {A} (a : A) : confined out P (ret a).
Proof. intros s. exists (Ret a), [], []. split; [reflexivity | reflexivity]. Qed.

Lemma confined_raise P {A} e : confined out P (@raise A e).
Proof. intros s. exists (Raise e), [], []. split; reflexivity. Qed.

Lemma confined_emit P e : P e = true -> confined out P (emit e).
Proof.
  intros He s. exists (Ret tt), [e], []. split; [cbn; now rewrite He | reflexivity].
Qed.

Lemma confined_send P req :
  (forall ans, P (Sent req ans) = true) -> confined out P (send out req).
Proof.
  intros HP s. unfold send.
  destruct (respond out s req) as [text|e] eqn:Hans.
  - exists (Ret text), [Sent req (Reply text)], [s].
    split; [cbn; now rewrite HP |].
    intros f t Ht. unfold mk. cbn [trace cache_file]. rewrite Ht, Hans. reflexivity.
  - exists (Raise e), [Sent req (Failure e)], [s].
    split; [cbn; now rewrite HP |].
    intros f t Ht. unfold mk. cbn [trace cache_file]. rewrite Ht, Hans. reflexivity.
Qed.

Lemma confined_bind P {A B} (m : M A) (k : A -> M B) :
  confined out P m -> (forall a, confined out P (k a)) -> confined out P (bind m k).
Proof.
  intros Hm Hk s. destruct (Hm s) as (r & new & hs & HP & H).
  destruct r as [a|e].
  - destruct (Hk a (sent new ++ s)) as (r' & new' & hs' & HP' & H').
    exists r', (new' ++ new), (hs ++ hs'). split.
    + rewrite forallb_app, HP, HP'. reflexivity.
    + intros f t Ht. unfold bind. rewrite (H f t Ht).
      rewrite H' by (rewrite sent_app, Ht; reflexivity).
      now rewrite after_others_app, app_assoc.
  - exists (Raise e), new, hs. split; [exact HP|].
    intros f t Ht. unfold bind. now rewrite (H f t Ht).
Qed.

Lemma confined_catch P {A} (m : M A) (h : exn -> M A) :
  confined out P m -> (forall e, confined out P (h e)) -> confined out P (catch m h).
Proof.
  intros Hm Hh s. destruct (Hm s) as (r & new & hs & HP & H).
  destruct r as [a|e].
  - exists (Ret a), new, hs. split; [exact HP|].
    intros f t Ht. unfold catch. now rewrite (H f t Ht).
  - destruct (Hh e (sent new ++ s)) as (r' & new' & hs' & HP' & H').
    exists r', (new' ++ new), (hs ++ hs'). split.
    + rewrite forallb_app, HP, HP'. reflexivity.
    + intros f t Ht. unfold catch. rewrite (H f t Ht).
      rewrite H' by (rewrite sent_app, Ht; reflexivity).
      now rewrite after_others_app, app_assoc.
Qed.

Lemma confined_strip_text P t : confined out P (strip_text t).
Proof. destruct t; [apply confined_ret | apply confined_raise]. Qed.

Lemma confined_compress_chunks P compress text chunk_size starts :
  (forall body ans, P (Sent (compress body) ans) = true) ->
  confined out P (compress_chunks out compress text chunk_size starts).
Proof.
  intros HP. induction starts as [|i rest IH]; cbn [compress_chunks].
  - apply confined_ret.
  - apply confined_bind; [apply confined_send; auto|]. intros r.
    apply confined_bind; [apply confined_strip_text|]. intros summary.
    apply confined_bind; [exact IH|]. intros summaries. apply confined_ret.
Qed.

Lemma confined_reduce_rounds P compress max_chars rounds_left combined :
  (forall body ans, P (Sent (compress body) ans) = true) ->
  confined out P (reduce_rounds out compress max_chars rounds_left combined).
Proof.
  intros HP. revert combined.
  induction rounds_left as [|n IH]; intros combined; cbn [reduce_rounds].
  - apply confined_ret.
  - destruct (PyStr.len combined >? max_chars); [|apply confined_ret].
    apply confined_bind; [apply confined_send; auto|]. intros r.
    apply confined_bind; [apply confined_strip_text|]. intros combined'.
    apply IH.
Qed.

Lemma confined_summarize_chunks P name compress text max_chars :
  (forall body ans, P (Sent (compress body) ans) = true) ->
  confined out P (summarize_chunks out name compress text max_chars).
Proof.
  intros HP. unfold summarize_chunks.
  destruct (PyStr.range0 _ _) as [starts|]; [|apply confined_raise].
  apply confined_bind; [now apply confined_compress_chunks|]. intros summaries.
  now apply confined_reduce_rounds.
Qed.

Lemma confined_openai_attempt model max_chars p :
  confined out not_file_event (openai_attempt out model max_chars p).
Proof.
  unfold openai_attempt.
  apply confined_catch; [apply confined_send; reflexivity|].
  intros [msg| | | | |]; try apply confined_raise.
  destruct (PyStr.contains _ _); [|apply confined_raise].
  apply confined_bind; [apply confined_emit; reflexivity|]. intros _.
  apply confined_bind;
    [apply confined_summarize_chunks; reflexivity|].
  intros p'. apply confined_send; reflexivity.
Qed.

Lemma confined_call_provider prompt :
  confined out not_file_event (call_provider out prompt).
Proof.
  unfold call_provider, call_openai, call_google.
  destruct (String.eqb _ _).
  - apply confined_bind; [|intros p; apply confined_openai_attempt].
    destruct (_ >? _); [|apply confined_ret].
    apply confined_bind; [apply confined_emit; reflexivity|]. intros _.
    apply confined_summarize_chunks; reflexivity.
  - apply confined_bind; [|intros p; apply confined_send; reflexivity].
    destruct (_ >? _); [|apply confined_ret].
    apply confined_bind; [apply confined_emit; reflexivity|]. intros _.
    apply confined_summarize_chunks; reflexivity.
Qed.

Lemma confined_call_llm_uncached prompt :
  confined out not_file_event (call_llm out prompt false).
Proof.
  unfold call_llm.
  apply confined_bind; [apply confined_emit; reflexivity|]. intros _.
  apply confined_bind; [apply confined_ret|]. intros [v|]; [apply confined_ret|].
  apply confined_bind; [apply confined_call_provider|]. intros text.
  apply confined_bind; [apply confined_emit; reflexivity|]. intros _.
  apply confined_bind; [apply confined_ret|]. intros _. apply confined_ret.
Qed.

End Confined.

(** *** Where the client calls are *)

Section Calls.

Variable out : Outside.

Lemma confined_run P {A} (m : M A) w r w' :
  confined out P m -> m w = (r, w') ->
  exists new hs,
    forallb P new = true /\ trace w' = new ++ trace w
    /\ cache_file w' = after_others out hs (cache_file w).
Proof.
  intros Hm H. destruct (Hm (sent (trace w))) as (r0 & new & hs & HP & H0).
  specialize (H0 (cache_file w) (trace w) eq_refl).
  rewrite world_eta, H in H0. injection H0 as -> ->.
  exists new, hs. auto.
Qed.

Lemma send_spec req w :
  send out req w
  = (match respond out (sent (trace w)) req with
     | Reply text => Ret text
     | Failure e => Raise e
     end,
     mk (meanwhile out (sent (trace w)) (cache_file w))
        (Sent req (respond out (sent (trace w)) req) :: trace w)).
Proof. unfold send. destruct (respond out _ req); reflexivity. Qed.

Lemma strip_text_inv r w x w' :
  strip_text r w = (x, w') -> w' = w.
Proof. destruct r; cbn; now intros [= _ <-]. Qed.

(** A compression loop that raises has made a client call. *)
Lemma compress_chunks_raise compress text chunk_size starts w e w' :
  compress_chunks out compress text chunk_size starts w = (Raise e, w') ->
  exists new req ans, trace w' = new ++ trace w /\ In (Sent req ans) new.
Proof.
  revert w. induction starts as [|i rest IH]; intros w; cbn [compress_chunks].
  - discriminate.
  - unfold bind at 1. rewrite send_spec.
    set (req := compress _). set (ans := respond out _ req).
    set (w1 := mk _ _).
    destruct ans as [r|e1] eqn:Hans.
    + unfold bind at 1. destruct (strip_text r w1) as [[summary|e2] w2] eqn:Hs;
        apply strip_text_inv in Hs as ->.
      * unfold bind at 1.
        destruct (compress_chunks _ _ _ _ rest w1) as [[ss|e3] w3] eqn:Hrest.
        -- discriminate.
        -- intros [= <- <-]. apply IH in Hrest as (new & req' & ans' & Ht & Hin).
           exists (new ++ [Sent req (Reply r)]), req', ans'.
           rewrite Ht. cbn. rewrite <- app_assoc. split; [reflexivity|].
           apply in_or_app. now left.
      * intros [= <- <-]. exists [Sent req (Reply r)], req, (Reply r).
        split; [reflexivity | now left].
    + intros [= <- <-]. exists [Sent req (Failure e1)], req, (Failure e1).
      split; [reflexivity | now left].
Qed.

Lemma reduce_rounds_raise compress max_chars rounds_left combined w e w' :
  reduce_rounds out compress max_chars rounds_left combined w = (Raise e, w') ->
  exists new req ans, trace w' = new ++ trace w /\ In (Sent req ans) new.
Proof.
  revert combined w.
  induction rounds_left as [|n IH]; intros combined w; cbn [reduce_rounds].
  - discriminate.
  - destruct (PyStr.len combined >? max_chars); [|discriminate].
    unfold bind at 1. rewrite send_spec.
    set (req := compress _). set (ans := respond out _ req).
    set (w1 := mk _ _).
    destruct ans as [r|e1] eqn:Hans.
    + unfold bind at 1. destruct (strip_text r w1) as [[c'|e2] w2] eqn:Hs;
        apply strip_text_inv in Hs as ->.
      * intros Hrest. apply IH in Hrest as (new & req' & ans' & Ht & Hin).
        exists (new ++ [Sent req (Reply r)]), req', ans'.
        rewrite Ht. cbn. rewrite <- app_assoc. split; [reflexivity|].
        apply in_or_app. now left.
      * intros [= <- <-]. exists [Sent req (Reply r)], req, (Reply r).
        split; [reflexivity | now left].
    + intros [= <- <-]. exists [Sent req (Failure e1)], req, (Failure e1).
      split; [reflexivity | now left].
Qed.

Lemma range0_none stop step : PyStr.range0 stop step = None <-> step = 0.
Proof.
  unfold PyStr.range0. destruct (Z.eqb_spec step 0) as [->|Hne].
  - tauto.
  - split; [|contradiction]. destruct (_ || _); discriminate.
Qed.

(** A compression pass that raises has made a client call, unless the chunk
    size is zero: then [range] raises before any call. *)
Lemma summarize_chunks_raise name compress text max_chars w e w' :
  summarize_chunks out name compress text max_chars w = (Raise e, w') ->
  (exists new req ans, trace w' = new ++ trace w /\ In (Sent req ans) new)
  \/ (e = ValueError "range() arg 3 must not be zero"
      /\ get_chunk_size_chars out name = 0 /\ w' = w).
Proof.
  unfold summarize_chunks.
  destruct (PyStr.range0 _ _) as [starts|] eqn:Hr.
  - unfold bind at 1.
    destruct (compress_chunks _ _ _ _ starts w) as [[ss|e1] w1] eqn:Hc.
    + intros H. left.
      destruct (confined_run (fun _ => true) _ _ _ _
                  (confined_compress_chunks out _ compress text _ starts
                     (fun _ _ => eq_refl)) Hc) as (n1 & _ & _ & Ht1 & _).
      apply reduce_rounds_raise in H as (new & req & ans & Ht & Hin).
      exists (new ++ n1), req, ans. rewrite Ht, Ht1, app_assoc.
      split; [reflexivity | apply in_or_app; now left].
    + intros [= <- <-]. left. eapply compress_chunks_raise, Hc.
  - intros [= <- <-]. right. apply range0_none in Hr. auto.
Qed.

End Calls.

Section Branches.

Variable out : Outside.

Lemma call_provider_eq prompt :
  call_provider out prompt
  = bind (fitted out (branch out) (branch_compress out) prompt
            (get_limit_chars out (branch out)))
         (fun p =>
            if String.eqb (provider out) "openai"
            then openai_attempt out (getenv_or out "OPENAI_MODEL" "gpt-4o-mini")
                   (get_limit_chars out "openai") p
            else send out (google_final
                             (getenv_or out "GEMINI_MODEL" "gemini-2.5-flash") p)).
Proof.
  unfold call_provider, branch, branch_compress.
  destruct (String.eqb (provider out) "openai"); reflexivity.
Qed.

Lemma confined_fitted P name compress prompt max_chars :
  (forall body ans, P (Sent (compress body) ans) = true) ->
  (forall lvl r, P (Logged lvl r) = true) ->
  confined out P (fitted out name compress prompt max_chars).
Proof.
  intros HP HL. unfold fitted. destruct (_ >? _); [|apply confined_ret].
  apply confined_bind; [apply confined_emit, HL|]. intros _.
  now apply confined_summarize_chunks.
Qed.

Lemma fitted_raise name compress prompt max_chars w e w' :
  fitted out name compress prompt max_chars w = (Raise e, w') ->
  exists new,
    trace w' = new ++ trace w
    /\ ((exists req ans, In (Sent req ans) new)
        \/ (e = ValueError "range() arg 3 must not be zero"
            /\ get_chunk_size_chars out name = 0
            /\ PyStr.len prompt > max_chars)).
Proof.
  unfold fitted. destruct (Z.gtb_spec (PyStr.len prompt) max_chars) as [Hgt|Hle];
    [|discriminate].
  unfold bind at 1, log, emit. intros H.
  apply summarize_chunks_raise in H
    as [(new & req & ans & Ht & Hin) | (-> & Hz & ->)].
  - exists (new ++ [Logged INFO (LogCompressing name (PyStr.len prompt) max_chars)]).
    rewrite Ht. cbn. rewrite <- app_assoc. split; [reflexivity|].
    left. exists req, ans. apply in_or_app. now left.
  - exists [Logged INFO (LogCompressing name (PyStr.len prompt) max_chars)].
    split; [reflexivity|]. right. repeat split; [exact Hz | lia].
Qed.

(** The provider branch makes a client call, unless a zero chunk size stops
    the compression of a prompt above the limit. *)
Lemma call_provider_sends prompt w r w' :
  call_provider out prompt w = (r, w') ->
  exists new,
    trace w' = new ++ trace w
    /\ ((exists req ans, In (Sent req ans) new)
        \/ (r = Raise (ValueError "range() arg 3 must not be zero")
            /\ get_chunk_size_chars out (branch out) = 0
            /\ PyStr.len prompt > get_limit_chars out (branch out))).
Proof.
  rewrite call_provider_eq. unfold bind at 1.
  destruct (fitted _ _ _ _ _ w) as [[p|e] w1] eqn:Hfit.
  - destruct (confined_run out (fun _ => true) _ _ _ _
                (confined_fitted _ _ _ _ _ (fun _ _ => eq_refl)
                   (fun _ _ => eq_refl)) Hfit) as (n1 & _ & _ & Ht1 & _).
    destruct (String.eqb (provider out) "openai").
    + unfold openai_attempt, catch. rewrite send_spec.
      set (req := openai_final _ p). set (ans := respond out _ req).
      set (w2 := mk _ _).
      assert (Hin : forall new (r0 : result (option string)) w0,
                 trace w0 = new ++ trace w2 ->
                 exists new',
                   trace w0 = new' ++ trace w
                   /\ ((exists req ans, In (Sent req ans) new')
                       \/ (r0 = Raise (ValueError "range() arg 3 must not be zero")
                           /\ get_chunk_size_chars out (branch out) = 0
                           /\ PyStr.len prompt > get_limit_chars out (branch out)))).
      { intros new r0 w0 Ht. exists (new ++ Sent req ans :: n1).
        rewrite Ht. subst w2. cbn [trace mk]. rewrite Ht1, <- app_assoc.
        split; [reflexivity|]. left. exists req, ans.
        apply in_or_app. right. now left. }
      destruct ans as [text|e] eqn:Hans.
      * intros [= <- <-]. apply (Hin []). reflexivity.
      * intros H.
        enough (exists new, trace w' = new ++ trace w2) as (new & Ht)
          by (apply (Hin new), Ht).
        destruct e as [msg| | | | |];
          try (injection H as <- <-; exists []; reflexivity).
        destruct (PyStr.contains _ _);
          [|injection H as <- <-; exists []; reflexivity].
        eapply (confined_run out (fun _ => true)) in H as (new & _ & _ & Ht & _);
          [eauto|].
        apply confined_bind; [apply confined_emit; reflexivity|]. intros _.
        apply confined_bind;
          [apply confined_summarize_chunks; reflexivity|].
        intros p'. apply confined_send; reflexivity.
    + rewrite send_spec. intros [= <- <-].
      eexists (_ :: n1). cbn [trace mk]. rewrite Ht1.
      split; [reflexivity|]. left. eexists _, _. now left.
  - intros [= <- <-]. apply fitted_raise in Hfit as (new & Ht & [H | (-> & Hz & Hgt)]).
    + exists new. auto.
    + exists new. split; [exact Ht|]. right. auto.
Qed.

Lemma call_llm_uncached_eq prompt w :
  call_llm out prompt false w
  = match call_provider out prompt
            (mk (cache_file w) (Logged INFO (LogPrompt prompt) :: trace w)) with
    | (Ret text, wp) =>
        (Ret (of_text text),
         mk (cache_file wp) (Logged INFO (LogResponse (of_text text)) :: trace wp))
    | (Raise e, wp) => (Raise e, wp)
    end.
Proof.
  unfold call_llm, bind, log, emit, ret, mk.
  destruct (call_provider out prompt _) as [[text|e] wp]; reflexivity.
Qed.

(** C9. With the cache off, [call_llm] neither reads nor writes the cache
    file: none of its events is a check, a load or a store of the file, and
    the file ends as the other writers left it, so unchanged when there are
    none. What the file held is ignored: on any other content of the file
    the call has the same outcome and the same events. The provider is
    called: a client call is among the events, the one case apart where the
    chunk size is zero and the prompt exceeds the limit, in which the
    compression raises before any call. *)
Theorem uncached_call_leaves_cache_alone (prompt : string) (f : file)
    (t : list event) :
  let run := call_llm out prompt false (mk f t) in
  (exists new hs,
     trace (snd run) = new ++ t
     /\ forallb not_file_event new = true
     /\ cache_file (snd run) = after_others out hs f
     /\ ((exists req ans, In (Sent req ans) new)
         \/ (fst run = Raise (ValueError "range() arg 3 must not be zero")
             /\ get_chunk_size_chars out (branch out) = 0
             /\ PyStr.len prompt > get_limit_chars out (branch out))))
  /\ (quiet out -> cache_file (snd run) = f)
  /\ (forall f',
        fst (call_llm out prompt false (mk f' t)) = fst run
        /\ trace (snd (call_llm out prompt false (mk f' t))) = trace (snd run)).
Proof.
  intros run.
  destruct (confined_call_llm_uncached out prompt (sent t))
    as (r & new & hs & HP & H).
  assert (Hrun : run = (r, mk (after_others out hs f) (new ++ t)))
    by (apply H; reflexivity).
  split; [|split].
  - exists new, hs. rewrite Hrun. cbn [fst snd trace cache_file mk].
    repeat split; try assumption.
    (* the client call *)
    subst run. rewrite call_llm_uncached_eq in Hrun. cbn [cache_file trace mk] in Hrun.
    destruct (call_provider out prompt _) as [[text|e] wp] eqn:Hp;
      apply call_provider_sends in Hp as (n1 & Ht1 & Hcall);
      cbn [trace mk] in Ht1;
      pose proof (f_equal (fun x => trace (snd x)) Hrun) as Ht;
      pose proof (f_equal fst Hrun) as Hr;
      cbn [fst snd trace mk] in Ht, Hr; rewrite Ht1 in Ht.
    + assert (new = Logged INFO (LogResponse (of_text text)) :: n1
                    ++ [Logged INFO (LogPrompt prompt)]) as ->.
      { apply (app_inv_tail t). rewrite <- Ht. cbn. now rewrite <- app_assoc. }
      left. destruct Hcall as [(req & ans & Hin) | (Hr' & _)]; [|discriminate].
      exists req, ans. right. apply in_or_app. now left.
    + assert (new = n1 ++ [Logged INFO (LogPrompt prompt)]) as ->.
      { apply (app_inv_tail t). rewrite <- Ht. now rewrite <- app_assoc. }
      destruct Hcall as [(req & ans & Hin) | (Hz & Hz')];
        [|right; cbn [fst]; split; [congruence | exact Hz']].
      left. exists req, ans. apply in_or_app. now left.
  - intros Hq. rewrite Hrun. cbn [snd cache_file mk].
    clear - Hq. induction hs as [|h hs IH] using rev_ind; [reflexivity|].
    rewrite after_others_app. cbn. rewrite Hq. exact IH.
  - intros f'. rewrite Hrun, (H f' t eq_refl). split; reflexivity.
Qed.

End Branches.

(** *** A call that misses the cache *)

Section Miss.

Variable out : Outside.

Lemma corrupt_misses prompt f : corrupt f -> misses prompt f.
Proof.
  intros [-> | [-> | [-> | ->]]]; (split; [exact I | apply lookup_empty]).
Qed.

Lemma usable_contents f : usable f -> contents f = JObj (entries f).
Proof. destruct f as [| | | |[]]; cbn; tauto. Qed.

Lemma usable_after_others hs f :
  others_keep_usable out -> usable f -> usable (after_others out hs f).
Proof.
  intros Hk. revert f. induction hs as [|h hs IH]; intros f Hf; [exact Hf|].
  cbn. apply IH, Hk, Hf.
Qed.

Lemma check_cache_misses prompt f t :
  misses prompt f ->
  check_cache prompt (mk f t) = (Ret None, mk f (load_events true f ++ t)).
Proof.
  intros [Hu Hk]. apply (check_cache_miss prompt (mk f t) Hu).
  cbn. intros kvs ->. exact Hk.
Qed.

Lemma call_llm_missed prompt f t r new hs :
  others_keep_usable out -> misses prompt f ->
  (forall f' t', sent t' = sent t ->
     call_provider out prompt (mk f' t')
     = (r, mk (after_others out hs f') (new ++ t'))) ->
  call_llm out prompt true (mk f t) = missed_end out prompt f t r new hs.
Proof.
  intros Hk Hm Hp. unfold call_llm.
  erewrite bind_run by reflexivity.
  erewrite bind_run by (apply check_cache_misses, Hm).
  unfold bind at 1. rewrite Hp
    by (rewrite sent_app, sent_load_events; reflexivity).
  unfold missed_end. destruct r as [text|e]; [|reflexivity].
  erewrite bind_run by reflexivity.
  unfold bind at 1. rewrite update_cache_spec. cbn [cache_file trace mk].
  rewrite usable_contents
    by (apply usable_after_others; [exact Hk | apply Hm]).
  rewrite save_cache_spec.
  destruct (disk_fault out) as [[|fl]|]; reflexivity.
Qed.

Lemma call_llm_uncached_run prompt f t r new hs :
  (forall f' t', sent t' = sent t ->
     call_provider out prompt (mk f' t')
     = (r, mk (after_others out hs f') (new ++ t'))) ->
  call_llm out prompt false (mk f t)
  = let f1 := after_others out hs f in
    let t1 := new ++ Logged INFO (LogPrompt prompt) :: t in
    match r with
    | Ret text =>
        (Ret (of_text text),
         mk f1 (Logged INFO (LogResponse (of_text text)) :: t1))
    | Raise e => (Raise e, mk f1 t1)
    end.
Proof.
  intros Hp. rewrite call_llm_uncached_eq. cbn [cache_file trace mk].
  rewrite Hp by reflexivity. destruct r; reflexivity.
Qed.

Lemma sent_cons e t :
  sent (e :: t) = match e with Sent req _ => req :: sent t | _ => sent t end.
Proof. destruct e; reflexivity. Qed.

Ltac sent_norm :=
  repeat first [rewrite sent_app | rewrite sent_load_events | rewrite sent_cons];
  cbv iota; cbn [app].

Lemma sent_missed_end prompt f t r new hs :
  sent (trace (snd (missed_end out prompt f t r new hs))) = sent new ++ sent t.
Proof.
  unfold missed_end. destruct r as [text|e]; cbn [snd trace mk].
  - rewrite save_cache_spec.
    destruct (disk_fault out) as [[|fl]|]; cbn [snd trace mk];
      sent_norm; reflexivity.
  - sent_norm. reflexivity.
Qed.

(** C4. Let the cache file be corrupt (missing, unreadable, empty or not
    JSON), or hold an object without the prompt, and let the other writers
    keep it usable. Then the call with the cache on has the outcome, value
    or exception, and the client calls of the call with the cache off: the
    full provider call occurs and the cache handling raises nothing. It also
    has the outcome and the client calls of the call on an empty cache. And
    when the write of the cache fails, a returning call has logged the
    failure right after the attempt to store, and returns the response all
    the same. *)
Theorem corrupt_cache_is_cold (prompt : string) (f : file) (t : list event) :
  others_keep_usable out ->
  corrupt f \/ misses prompt f ->
  let cached := call_llm out prompt true (mk f t) in
  let plain := call_llm out prompt false (mk f t) in
  let cold := call_llm out prompt true (mk (Document (JObj ∅)) t) in
  fst cached = fst plain
  /\ sent (trace (snd cached)) = sent (trace (snd plain))
  /\ fst cached = fst cold
  /\ sent (trace (snd cached)) = sent (trace (snd cold))
  /\ (forall fl, disk_fault out = Some fl ->
      forall text wp,
        call_provider out prompt
          (mk f (load_events true f ++ Logged INFO (LogPrompt prompt) :: t))
        = (Ret text, wp) ->
        fst cached = Ret (of_text text)
        /\ exists c rest,
             trace (snd cached)
             = Logged ERROR LogCacheSaveFailed :: Store c (Some fl) :: rest).
Proof.
  intros Hk Hf cached plain cold.
  assert (Hm : misses prompt f)
    by (destruct Hf; [now apply corrupt_misses | assumption]).
  assert (Hm0 : misses prompt (Document (JObj ∅)))
    by (split; [exact I | apply lookup_empty]).
  destruct (confined_call_provider out prompt (sent t))
    as (r & new & hs & _ & Hp).
  assert (Hc : cached = missed_end out prompt f t r new hs)
    by (apply call_llm_missed; assumption).
  assert (Hcold : cold = missed_end out prompt (Document (JObj ∅)) t r new hs)
    by (apply call_llm_missed; assumption).
  assert (Hpl : plain = _) by (apply (call_llm_uncached_run prompt f t r new hs Hp)).
  rewrite Hc, Hcold, Hpl, !sent_missed_end.
  repeat split.
  - unfold missed_end. destruct r; reflexivity.
  - destruct r; cbn [snd trace mk]; sent_norm; reflexivity.
  - unfold missed_end. destruct r; reflexivity.
  - rewrite Hp in H0 by (rewrite sent_app, sent_load_events; reflexivity).
    injection H0 as -> _. reflexivity.
  - rewrite Hp in H0 by (rewrite sent_app, sent_load_events; reflexivity).
    injection H0 as -> _. unfold missed_end. cbn [snd].
    rewrite save_cache_spec, H. destruct fl; eexists _, _; reflexivity.
Qed.

End Miss.

(** *** The write after the call *)

(** C5. A call with the cache on that returns has either answered from the
    cache file (and then writes nothing), or has gone through the provider
    branch. In that case the events that follow the log of the response are
    the reload of the cache file as it is after the client calls, then the
    store, with nothing in between; what is stored is the reloaded object
    with the value [response_text] under the key [prompt], the prompt the
    caller passed, whatever prompt the provider was sent; and that is what
    the file holds afterwards unless the write fails. *)
Theorem cache_write_follows_reload (out : Outside) (prompt : string)
    (w : World) (r : json) (w' : World) :
  call_llm out prompt true w = (Ret r, w') ->
  let w0 := mk (cache_file w) (Logged INFO (LogPrompt prompt) :: trace w) in
  (exists kvs,
     cache_file w = Document (JObj kvs) /\ kvs !! prompt = Some r
     /\ w' = mk (cache_file w)
               (Logged INFO (LogResponse r) :: Load (Some (JObj kvs))
                :: Exists true :: trace w0))
  \/ (exists w1 text wp kvs,
        check_cache prompt w0 = (Ret None, w1)
        /\ call_provider out prompt w1 = (Ret text, wp)
        /\ r = of_text text
        /\ contents (cache_file wp) = JObj kvs
        /\ trace w'
           = (match disk_fault out with
              | Some _ => [Logged ERROR LogCacheSaveFailed]
              | None => []
              end)
             ++ Store (JObj (<[prompt := of_text text]> kvs)) (disk_fault out)
             :: load_events false (cache_file wp)
             ++ Logged INFO (LogResponse (of_text text)) :: trace wp
        /\ (disk_fault out = None ->
            cache_file w' = Document (JObj (<[prompt := of_text text]> kvs)))).
Proof.
  intros H w0. apply call_llm_ret_inv in H.
  destruct H as [[_ H] | (w1 & text & wp & Hc & Hp & -> & H)].
  - left. apply check_cache_hit in H as (kvs & Hf & Hk & ->).
    exists kvs. auto.
  - right. rewrite update_cache_spec in H. cbn [cache_file trace mk] in H.
    destruct (contents (cache_file wp)) as [| | | | |kvs] eqn:Hcont;
      try discriminate.
    exists w1, text, wp, kvs. rewrite save_cache_spec in H.
    repeat split; try assumption.
    + destruct (disk_fault out) as [[|fl]|]; injection H as <-; reflexivity.
    + intros Hnone. rewrite Hnone in H. injection H as <-. reflexivity.
Qed.

(** *** The retry on a context rejection *)

Lemma final_calls_compression new :
  forallb is_compression_event new = true -> final_calls new = [].
Proof.
  induction new as [|e new IH]; [reflexivity|]. cbn [forallb].
  intros [He Hnew]%andb_true_iff. cbn [final_calls List.filter].
  destruct e as [| | | |req ans]; try discriminate.
  cbn in He. apply negb_true_iff in He. rewrite He. now apply IH.
Qed.

Section Retry.

Variable out : Outside.

(** The guarded call of the [openai] branch, case by case. *)
Lemma openai_attempt_cases model max_chars p w :
  let req := openai_final model p in
  let ans := respond out (sent (trace w)) req in
  let w1 := mk (meanwhile out (sent (trace w)) (cache_file w))
               (Sent req ans :: trace w) in
  match ans with
  | Reply text => openai_attempt out model max_chars p w = (Ret text, w1)
  | Failure e =>
      if is_context_rejection e
      then
        let w2 := mk (cache_file w1)
                     (Logged WARNING LogContextRetry :: trace w1) in
        exists pass w3 new,
          summarize_chunks_openai out p model (max_chars / 2) w2 = (pass, w3)
          /\ trace w3 = new ++ trace w2
          /\ final_calls new = []
          /\ openai_attempt out model max_chars p w
             = match pass with
               | Ret p' => send out (openai_final model p') w3
               | Raise e' => (Raise e', w3)
               end
      else openai_attempt out model max_chars p w = (Raise e, w1)
  end.
Proof.
  intros req ans w1.
  unfold openai_attempt, catch. rewrite send_spec.
  fold req. fold ans. fold w1.
  destruct ans as [text|e] eqn:Hans; [reflexivity|].
  destruct e as [msg| | | | |]; try reflexivity.
  cbn [is_context_rejection].
  destruct (PyStr.contains _ _); [|reflexivity].
  set (w2 := mk (cache_file w1) (Logged WARNING LogContextRetry :: trace w1)).
  destruct (summarize_chunks_openai out p model (max_chars / 2) w2)
    as [pass w3] eqn:Hpass.
  destruct (confined_run out is_compression_event _ _ _ _
              (confined_summarize_chunks out _ "openai"
                 (openai_compress model) p (max_chars / 2)
                 (fun _ _ => eq_refl)) Hpass) as (new & _ & Hnew & Ht & _).
  exists pass, w3, new. repeat split; [exact Ht | now apply final_calls_compression |].
  unfold bind at 1, log, emit.
  change {| cache_file := cache_file w1;
            trace := Logged WARNING LogContextRetry :: trace w1 |} with w2.
  unfold bind. rewrite Hpass.
  destruct pass as [p'|e']; reflexivity.
Qed.

(** A call whose cache check does not return: the provider branch, and what
    [call_llm] makes of its outcome. *)
Lemma call_llm_past_the_cache (prompt : string) (use_cache : bool) (w ws : World) :
  (if use_cache then check_cache prompt else ret None)
    (mk (cache_file w) (Logged INFO (LogPrompt prompt) :: trace w))
  = (Ret None, ws) ->
  call_llm out prompt use_cache w
  = match call_provider out prompt ws with
    | (Ret text, wp) => deliver out prompt use_cache text wp
    | (Raise e, wp) => (Raise e, wp)
    end.
Proof.
  intros Hc. unfold call_llm. unfold bind at 1, log, emit.
  unfold mk in Hc. unfold bind at 1. rewrite Hc.
  unfold bind at 1. destruct (call_provider out prompt ws) as [[text|e] wp];
    reflexivity.
Qed.

Lemma send_conclude (prompt : string) (use_cache : bool) (req : request) (w : World) :
  match send out req w with
  | (Ret text, wp) => deliver out prompt use_cache text wp
  | (Raise e, wp) => (Raise e, wp)
  end
  = conclude out prompt use_cache (respond out (sent (trace w)) req)
      (mk (meanwhile out (sent (trace w)) (cache_file w))
          (Sent req (respond out (sent (trace w)) req) :: trace w)).
Proof. rewrite send_spec. destruct (respond out _ req); reflexivity. Qed.

(** C3, as the code has it. Take a call of [call_llm] whose cache is off or
    misses, and let [p] be the prompt its branch sends: the prompt itself,
    or its compression when it exceeds the limit. The call that carries [p]
    is made once. An answer is delivered. On the [openai] branch, a
    [BadRequestError] that mentions the context length is followed by the
    warning and by one compression pass of [p] against half the limit
    (rounded down), none of whose client calls carries a prompt itself; when
    the pass returns, the call is made once more, on the compressed prompt,
    and its outcome, a second failure included, is the outcome of
    [call_llm]. Every other failure is the failure of [call_llm], with the
    failed call as its last event: any failure on the [openai] branch that
    is not such a rejection, and every failure on the [google] branch, whose
    call is not guarded at all, a rejection for the size of the prompt
    included. *)
Theorem context_rejection_is_retried_on_openai_only (prompt : string)
    (use_cache : bool) (w ws wf : World) (p : string) :
  (if use_cache then check_cache prompt else ret None)
    (mk (cache_file w) (Logged INFO (LogPrompt prompt) :: trace w))
  = (Ret None, ws) ->
  fitted out (branch out) (branch_compress out) prompt
    (get_limit_chars out (branch out)) ws = (Ret p, wf) ->
  let req := branch_final out p in
  let ans := respond out (sent (trace wf)) req in
  let w1 := mk (meanwhile out (sent (trace wf)) (cache_file wf))
               (Sent req ans :: trace wf) in
  match ans with
  | Reply text => call_llm out prompt use_cache w = deliver out prompt use_cache text w1
  | Failure e =>
      if String.eqb (provider out) "openai" && is_context_rejection e
      then
        let model := getenv_or out "OPENAI_MODEL" "gpt-4o-mini" in
        let w2 := mk (cache_file w1)
                     (Logged WARNING LogContextRetry :: trace w1) in
        exists pass w3 new,
          summarize_chunks_openai out p model (get_limit_chars out "openai" / 2) w2
          = (pass, w3)
          /\ trace w3 = new ++ trace w2
          /\ final_calls new = []
          /\ call_llm out prompt use_cache w
             = match pass with
               | Ret p' =>
                   let req' := openai_final model p' in
                   let ans' := respond out (sent (trace w3)) req' in
                   conclude out prompt use_cache ans'
                     (mk (meanwhile out (sent (trace w3)) (cache_file w3))
                         (Sent req' ans' :: trace w3))
               | Raise e' => (Raise e', w3)
               end
      else call_llm out prompt use_cache w = (Raise e, w1)
  end.
Proof.
  intros Hc Hfit req ans w1.
  rewrite (call_llm_past_the_cache prompt use_cache w ws Hc).
  rewrite call_provider_eq. rewrite (bind_run _ _ _ _ _ Hfit).
  subst req ans w1. unfold branch_final.
  destruct (String.eqb (provider out) "openai") eqn:Hprov.
  - pose proof (openai_attempt_cases (getenv_or out "OPENAI_MODEL" "gpt-4o-mini")
                  (get_limit_chars out "openai") p wf) as H.
    cbv zeta in H.
    destruct (respond out (sent (trace wf)) _) as [text|e] eqn:Hans.
    + now rewrite H.
    + cbn [andb]. destruct (is_context_rejection e).
      * destruct H as (pass & w3 & new & Hpass & Ht & Hfin & Hrun).
        exists pass, w3, new. repeat split; try assumption.
        rewrite Hrun. destruct pass as [p'|e']; [|reflexivity].
        apply send_conclude.
      * now rewrite H.
  - rewrite send_spec.
    destruct (respond out (sent (trace wf)) _) as [text|e]; reflexivity.
Qed.

End Retry.

(** *** The compression pass *)

Section Pass.

Variable out : Outside.
Hypothesis answers_all : always_answers out.

Lemma send_answered req w :
  exists a w',
    send out req w = (Ret (Some a), w')
    /\ trace w' = Sent req (Reply (Some a)) :: trace w.
Proof.
  destruct (answers_all (sent (trace w)) req) as (a & Ha).
  exists a. eexists. rewrite send_spec, Ha. split; reflexivity.
Qed.

Lemma compress_chunks_answered compress text chunk_size starts w :
  exists answers w',
    length answers = length starts
    /\ compress_chunks out compress text chunk_size starts w
       = (Ret (map PyStr.strip answers), w')
    /\ trace w'
       = chunk_events compress
           (map (fun i => PyStr.slice i (i + chunk_size) text) starts) answers
         ++ trace w.
Proof.
  revert w. induction starts as [|i rest IH]; intros w.
  - exists [], w. repeat split.
  - cbn [compress_chunks].
    destruct (send_answered
                (compress (String.append chunk_prefix
                             (PyStr.slice i (i + chunk_size) text))) w)
      as (a & w1 & Hsend & Ht1).
    destruct (IH w1) as (answers & w2 & Hlen & Hrest & Ht2).
    exists (a :: answers), w2. split; [cbn; lia|]. split.
    + erewrite bind_run by exact Hsend.
      erewrite bind_run by reflexivity.
      erewrite bind_run by exact Hrest. reflexivity.
    + rewrite Ht2, Ht1. unfold chunk_events. cbn [map zip_with rev].
      now rewrite <- app_assoc.
Qed.

Lemma reduce_rounds_answered compress max_chars rounds_left combined w :
  exists rounds w',
    reduce_rounds out compress max_chars rounds_left combined w
    = (Ret (chain_end combined rounds), w')
    /\ chained max_chars combined rounds
    /\ (length rounds <= rounds_left)%nat
    /\ (PyStr.len (chain_end combined rounds) <= max_chars
        \/ length rounds = rounds_left)
    /\ trace w' = round_events compress rounds ++ trace w.
Proof.
  revert combined w. induction rounds_left as [|n IH]; intros combined w.
  - exists [], w. cbn. repeat split; auto.
  - cbn [reduce_rounds].
    destruct (Z.gtb_spec (PyStr.len combined) max_chars) as [Hgt|Hle].
    + destruct (send_answered
                  (compress (String.append further_prefix combined)) w)
        as (a & w1 & Hsend & Ht1).
      destruct (IH (PyStr.strip a) w1) as (rounds & w2 & Hrun & Hch & Hlen & Hfit & Ht2).
      exists ((combined, a) :: rounds), w2. cbn [chain_end chained length].
      split; [|split; [|split; [|split]]].
      * erewrite bind_run by exact Hsend.
        erewrite bind_run by reflexivity. exact Hrun.
      * repeat split; [lia | exact Hch].
      * lia.
      * destruct Hfit; [now left | right; lia].
      * rewrite Ht2, Ht1. unfold round_events. cbn [map rev].
        now rewrite <- app_assoc.
    + exists [], w. cbn. repeat split; auto. lia.
Qed.

(** C2, as the code has it. Let the provider answer every request with a
    text, the chunk size be positive and the prompt exceed the limit of the
    selected branch. Then the branch logs the compression and splits the
    prompt into chunks that together are the prompt, each at most the chunk
    size long and all but the last exactly that long; it makes one client
    call per chunk, in order, each on the instruction and that chunk alone;
    it joins the stripped answers with a blank line; while the text exceeds
    the limit it asks for a further compression of the whole text, three
    times at most; and the one call that carries a prompt itself comes last
    and carries the result. That prompt is within the limit, or all three
    rounds have been used. *)
Theorem oversized_prompt_is_compressed (prompt : string) (w : World) :
  let limit := get_limit_chars out (branch out) in
  let chunk_size := get_chunk_size_chars out (branch out) in
  0 < chunk_size ->
  PyStr.len prompt > limit ->
  exists cs answers rounds text w',
    chunks prompt chunk_size = Some cs
    /\ String.concat "" cs = prompt
    /\ Forall (fun c => 0 < PyStr.len c <= chunk_size) cs
    /\ (forall k c, (S k < length cs)%nat -> cs !! k = Some c ->
                    PyStr.len c = chunk_size)
    /\ length answers = length cs
    /\ let combined := PyStr.join "

" (map PyStr.strip answers) in
       let p := chain_end combined rounds in
       chained limit combined rounds
       /\ (length rounds <= 3)%nat
       /\ (PyStr.len p <= limit \/ length rounds = 3%nat)
       /\ call_provider out prompt w = (Ret (Some text), w')
       /\ trace w'
          = Sent (branch_final out p) (Reply (Some text))
            :: round_events (branch_compress out) rounds
            ++ chunk_events (branch_compress out) cs answers
            ++ Logged INFO (LogCompressing (branch out) (PyStr.len prompt) limit)
            :: trace w.
Proof.
  intros limit chunk_size Hcs Hgt.
  destruct (PyStrFacts.chunks_partition prompt chunk_size Hcs)
    as (cs & Hchunks & Hcat & Hlen & Hfull).
  unfold chunks in Hchunks.
  destruct (PyStr.range0 (PyStr.len prompt) chunk_size) as [starts|] eqn:Hr;
    [|discriminate].
  injection Hchunks as Hchunks.
  set (w0 := mk (cache_file w)
                (Logged INFO (LogCompressing (branch out) (PyStr.len prompt) limit)
                 :: trace w)).
  destruct (compress_chunks_answered (branch_compress out) prompt chunk_size
              starts w0) as (answers & w1 & Hal & Hrun1 & Ht1).
  rewrite Hchunks in Ht1.
  destruct (reduce_rounds_answered (branch_compress out) limit 3
              (PyStr.join "

" (map PyStr.strip answers)) w1) as (rounds & w2 & Hrun2 & Hch & Hrl & Hfit & Ht2).
  assert (Hfitted :
            fitted out (branch out) (branch_compress out) prompt limit w
            = (Ret (chain_end (PyStr.join "

" (map PyStr.strip answers)) rounds), w2)).
  { unfold fitted. destruct (Z.gtb_spec (PyStr.len prompt) limit); [|lia].
    erewrite bind_run by reflexivity.
    unfold summarize_chunks. fold chunk_size. rewrite Hr.
    erewrite bind_run by exact Hrun1. exact Hrun2. }
  assert (Hfinal : exists text w',
             (if String.eqb (provider out) "openai"
              then openai_attempt out (getenv_or out "OPENAI_MODEL" "gpt-4o-mini")
                     (get_limit_chars out "openai")
              else fun p => send out (google_final
                               (getenv_or out "GEMINI_MODEL" "gemini-2.5-flash") p))
               (chain_end (PyStr.join "

" (map PyStr.strip answers)) rounds) w2
             = (Ret (Some text), w')
             /\ trace w'
                = Sent (branch_final out
                          (chain_end (PyStr.join "

" (map PyStr.strip answers)) rounds)) (Reply (Some text)) :: trace w2).
  { unfold branch_final. destruct (String.eqb (provider out) "openai").
    - destruct (send_answered
                  (openai_final (getenv_or out "OPENAI_MODEL" "gpt-4o-mini")
                     (chain_end (PyStr.join "

" (map PyStr.strip answers)) rounds)) w2) as (a & w3 & Hs & Ht3).
      exists a, w3. split; [|exact Ht3].
      unfold openai_attempt, catch. now rewrite Hs.
    - apply send_answered. }
  destruct Hfinal as (text & w' & Hfin & Ht3).
  exists cs, answers, rounds, text, w'.
  repeat split; try assumption.
  - unfold chunks. rewrite Hr. cbn. now rewrite Hchunks.
  - rewrite Hal, <- Hchunks. symmetry. apply length_map.
  - rewrite call_provider_eq. fold limit.
    erewrite bind_run by exact Hfitted.
    destruct (String.eqb (provider out) "openai"); exact Hfin.
  - rewrite Ht3, Ht2, Ht1. reflexivity.
Qed.

End Pass.

End GatewayFacts.

(** * Runs on concrete surroundings *)

Module GatewayRuns.
Import Gateway GatewayProps GatewayFacts Scenarios.

(** The replay of [cache_hit_and_replay] on a provider that answers "pong":
    the first call stores the answer, the second returns it off line. *)
Lemma cache_hit_and_replay_witness :
  let out := G.steady ∅ "pong" in
  let first := call_llm out "ping" true G.fresh in
  call_llm out "ping" true G.fresh = (Ret (JStr "pong"), snd first)
  /\ hd_error (trace (snd first)) <> Some (Logged ERROR LogCacheSaveFailed)
  /\ network_disabled (G.offline out)
  /\ exists w2,
       call_llm (G.offline out) "ping" true (snd first) = (Ret (JStr "pong"), w2)
       /\ sent (trace w2) = sent (trace (snd first))
       /\ cache_file w2 = cache_file (snd first).
Proof.
  intros out first.
  assert (H1 : call_llm out "ping" true G.fresh = (Ret (JStr "pong"), snd first))
    by (vm_compute; reflexivity).
  assert (H2 : hd_error (trace (snd first))
               <> Some (Logged ERROR LogCacheSaveFailed))
    by (vm_compute; discriminate).
  split; [exact H1|]. split; [exact H2|]. split.
  - intros h req. eexists. reflexivity.
  - exact (proj2 (cache_hit_and_replay out "ping") G.fresh (JStr "pong")
             (snd first) H1 H2 (G.offline out)).
Defined.

(** C1 as stated fails where the write of the cache fails: on a disk that
    refuses the write the first call returns "pong", and the second call,
    off line, raises. *)
Lemma replay_fails_after_failed_write :
  let out := G.read_only (G.steady ∅ "pong") in
  let first := call_llm out "ping" true G.fresh in
  let second := call_llm (G.offline out) "ping" true (snd first) in
  network_disabled (G.offline out)
  /\ fst first = Ret (JStr "pong")
  /\ fst second = Raise (ClientError "network disabled")
  /\ fst second <> fst first.
Proof.
  intros out first second. split; [|split; [|split]].
  - intros h req. eexists. reflexivity.
  - vm_compute. reflexivity.
  - vm_compute. reflexivity.
  - vm_compute. discriminate.
Qed.

(** The pass of [oversized_prompt_is_compressed] on six characters against
    a limit of five. *)
Lemma oversized_prompt_is_compressed_witness :
  let out := G.steady G.tiny_google "ok" in
  always_answers out
  /\ 0 < get_chunk_size_chars out (branch out)
  /\ PyStr.len "abcdef" > get_limit_chars out (branch out)
  /\ exists text w', call_provider out "abcdef" G.fresh = (Ret (Some text), w').
Proof.
  intros out.
  assert (H0 : always_answers out) by (intros h req; eexists; reflexivity).
  assert (H1 : 0 < get_chunk_size_chars out (branch out))
    by (vm_compute; reflexivity).
  assert (H2 : PyStr.len "abcdef" > get_limit_chars out (branch out))
    by (vm_compute; reflexivity).
  split; [exact H0|]. split; [exact H1|]. split; [exact H2|].
  destruct (oversized_prompt_is_compressed out H0 "abcdef" G.fresh H1 H2)
    as (cs & answers & rounds & text & w' & _ & _ & _ & _ & _ & _ & _ & _ & Hcall & _).
  exists text, w'. exact Hcall.
Defined.

(** C2 as stated fails on a provider whose answers are long: a prompt of
    the limit plus one character is compressed, three further rounds are
    run, and the prompt that is sent at last has ten characters against a
    limit of five. *)
Lemma compressed_prompt_exceeds_ceiling :
  let out := G.steady G.tiny_openai "0123456789" in
  let run := call_llm out "abcdef" false G.fresh in
  get_limit_chars out (branch out) = 5
  /\ PyStr.len "abcdef" = 5 + 1
  /\ fst run = Ret (JStr "0123456789")
  /\ final_calls (trace (snd run))
     = [Sent (openai_final "gpt-4o-mini" "0123456789") (Reply (Some "0123456789"))]
  /\ PyStr.len "0123456789" = 10
  /\ ~ (PyStr.len "0123456789" <= get_limit_chars out (branch out)).
Proof.
  intros out run. repeat split; try (vm_compute; reflexivity).
  vm_compute. intros H. apply H. reflexivity.
Qed.

(** [context_rejection_is_retried_on_openai_only] on both branches, for a
    prompt within the limit. On the [openai] branch, a provider that turns
    the first request down for the length of its context and answers the
    later ones: the call returns after one compression pass and one retry.
    On the default branch, a provider that turns every request down for
    its size: the call raises after its one client call. *)
Lemma context_rejection_is_retried_on_openai_only_witness :
  let e := BadRequestError "This model's maximum context length is 8192 tokens" in
  let out := G.rejecting_once G.tiny_openai e "ok" in
  let w0 := mk Missing [Logged INFO (LogPrompt "ping")] in
  let w1 := mk Missing (Sent (openai_final "gpt-4o-mini" "ping") (Failure e)
                        :: trace w0) in
  let w2 := mk Missing (Logged WARNING LogContextRetry :: trace w1) in
  let e' := ClientError "400 INVALID_ARGUMENT: the input token count exceeds the maximum number of tokens allowed" in
  let out' := G.rejecting ∅ e' in
  fitted out (branch out) (branch_compress out) "ping"
    (get_limit_chars out (branch out)) w0 = (Ret "ping", w0)
  /\ (exists pass w3 new,
        summarize_chunks_openai out "ping" "gpt-4o-mini"
          (get_limit_chars out "openai" / 2) w2 = (pass, w3)
        /\ trace w3 = new ++ trace w2
        /\ final_calls new = []
        /\ call_llm out "ping" false G.fresh
           = match pass with
             | Ret p' =>
                 let req' := openai_final "gpt-4o-mini" p' in
                 let ans' := respond out (sent (trace w3)) req' in
                 conclude out "ping" false ans'
                   (mk (meanwhile out (sent (trace w3)) (cache_file w3))
                       (Sent req' ans' :: trace w3))
             | Raise e'' => (Raise e'', w3)
             end)
  /\ fst (call_llm out "ping" false G.fresh) = Ret (JStr "ok")
  /\ length (final_calls (trace (snd (call_llm out "ping" false G.fresh)))) = 2%nat
  /\ fitted out' (branch out') (branch_compress out') "ping"
       (get_limit_chars out' (branch out')) w0 = (Ret "ping", w0)
  /\ call_llm out' "ping" false G.fresh
     = (Raise e',
        mk Missing [Sent (google_final "gemini-2.5-flash" "ping") (Failure e');
                    Logged INFO (LogPrompt "ping")]).
Proof.
  intros e out w0 w1 w2 e' out'.
  assert (H : fitted out (branch out) (branch_compress out) "ping"
                (get_limit_chars out (branch out)) w0 = (Ret "ping", w0))
    by (vm_compute; reflexivity).
  assert (H' : fitted out' (branch out') (branch_compress out') "ping"
                 (get_limit_chars out' (branch out')) w0 = (Ret "ping", w0))
    by (vm_compute; reflexivity).
  split; [exact H|]. split.
  { exact (context_rejection_is_retried_on_openai_only out "ping" false
             G.fresh w0 w0 "ping" eq_refl H). }
  split; [vm_compute; reflexivity|]. split; [vm_compute; reflexivity|].
  split; [exact H'|].
  exact (context_rejection_is_retried_on_openai_only out' "ping" false
           G.fresh w0 w0 "ping" eq_refl H').
Defined.

(** C3 as stated fails on the default branch: a provider that rejects the
    request for its context window, whichever way it says so, makes the
    call raise after the one client call, with no compression and no
    retry. *)
Lemma google_does_not_retry :
  let e1 := BadRequestError "This model's maximum context length is 8192 tokens" in
  let e2 := ClientError "400 INVALID_ARGUMENT: the input exceeds the context length" in
  is_context_rejection e1 = true
  /\ call_llm (G.rejecting ∅ e1) "hello" false G.fresh
     = (Raise e1,
        mk Missing [Sent (google_final "gemini-2.5-flash" "hello") (Failure e1);
                    Logged INFO (LogPrompt "hello")])
  /\ call_llm (G.rejecting ∅ e2) "hello" false G.fresh
     = (Raise e2,
        mk Missing [Sent (google_final "gemini-2.5-flash" "hello") (Failure e2);
                    Logged INFO (LogPrompt "hello")]).
Proof. intros e1 e2. repeat split; vm_compute; reflexivity. Qed.

(** [corrupt_cache_is_cold] on an empty cache file. *)
Lemma corrupt_cache_is_cold_witness :
  let out := G.read_only (G.steady ∅ "pong") in
  others_keep_usable out
  /\ corrupt Empty
  /\ fst (call_llm out "ping" true (mk Empty []))
     = fst (call_llm out "ping" false (mk Empty [])).
Proof.
  intros out.
  assert (H0 : others_keep_usable out) by (intros h f Hf; exact Hf).
  assert (H1 : corrupt Empty) by (right; right; left; reflexivity).
  split; [exact H0|]. split; [exact H1|].
  exact (proj1 (corrupt_cache_is_cold out "ping" Empty [] H0 (or_introl H1))).
Defined.

(** [cache_write_follows_reload] with another caller writing meanwhile: the
    stored cache has the other caller's entry next to the new one. *)
Lemma cache_write_follows_reload_witness :
  let out := G.shared (G.steady G.tiny_google "ok") in
  let run := call_llm out "abcdef" true G.fresh in
  call_llm out "abcdef" true G.fresh = (Ret (JStr "ok"), snd run)
  /\ cache_file (snd run)
     = Document (JObj (<["abcdef" := JStr "ok"]> (<["theirs" := JStr "kept"]> ∅))).
Proof.
  intros out run.
  assert (H : call_llm out "abcdef" true G.fresh = (Ret (JStr "ok"), snd run))
    by (vm_compute; reflexivity).
  split; [exact H|].
  destruct (cache_write_follows_reload out "abcdef" G.fresh (JStr "ok") (snd run) H)
    as [(kvs & Hf & _) | (w1 & text & wp & kvs & Hc & Hp & Hr & Hcont & _ & Hfile)].
  - discriminate Hf.
  - vm_compute in Hc. injection Hc as <-.
    vm_compute in Hp. injection Hp as <- <-.
    vm_compute in Hcont. injection Hcont as <-.
    rewrite (Hfile eq_refl). vm_compute. reflexivity.
Defined.

(** C9 as stated fails where the compression raises before any call: with
    the cache off, a chunk size of zero and a prompt above the limit, the
    call raises the [ValueError] of [range] and the provider is not called
    at all. *)
Lemma zero_chunk_size_calls_no_provider :
  let out := G.steady G.zero_chunks "ok" in
  let run := call_llm out "abcdef" false G.fresh in
  PyStr.len "abcdef" > get_limit_chars out (branch out)
  /\ fst run = Raise (ValueError "range() arg 3 must not be zero")
  /\ sent (trace (snd run)) = []
  /\ ~ exists req ans, In (Sent req ans) (trace (snd run)).
Proof.
  intros out run. split; [vm_compute; reflexivity|].
  split; [vm_compute; reflexivity|]. split; [vm_compute; reflexivity|].
  intros (req & ans & Hin). vm_compute in Hin.
  repeat (destruct Hin as [Hin|Hin]; [discriminate Hin|]). exact Hin.
Qed.

(** [uncached_call_leaves_cache_alone] without other writers. *)
Lemma uncached_call_leaves_cache_alone_witness :
  let out := G.steady ∅ "pong" in
  let f := Document (JObj (<["ping" := JStr "stale"]> ∅)) in
  quiet out
  /\ cache_file (snd (call_llm out "ping" false (mk f []))) = f.
Proof.
  intros out f.
  assert (H : quiet out) by (intros h f0; reflexivity).
  split; [exact H|].
  exact (proj1 (proj2 (uncached_call_leaves_cache_alone out "ping" f [])) H).
Defined.

End GatewayRuns.

Module FlowRuns.
Import Flow FlowFacts.

(** The walk of [tutorial_flow_is_the_fixed_chain] with room to spare. *)
Lemma tutorial_flow_is_the_fixed_chain_witness :
  (7 <= 9)%nat
  /\ walk (snd (create_tutorial_flow empty_store)) 9
       (start_node (fst (create_tutorial_flow empty_store)))
     = [0; 1; 2; 3; 4; 5; 6]%nat.
Proof.
  assert (H : (7 <= 9)%nat) by lia.
  split; [exact H|].
  exact (proj1 (proj2 tutorial_flow_is_the_fixed_chain) 9%nat H).
Defined.

End FlowRuns.

Module CrawlerRuns.
Import Crawler CrawlerProps CrawlerFacts Scenarios.

(** [inclusion_rule] on a crawl for Python files, the pattern given as a
    string: of the two files listed, the one whose name matches is fetched
    and the other is neither a file nor a skipped file of the result. *)
Lemma inclusion_rule_witness :
  let a := {| repo_url := "https://gitlab.com/group/project"; token := None;
              max_file_size := 5; use_relative_paths := false;
              include_patterns := PStr "*.py"; exclude_patterns := PNone |} in
  let run := crawl_gitlab_files C.plain C.two_files 5 a [] in
  let res := {| files := {[ "a.py" := "ok" ]};
                stats := StatsFull 1 0 [] None (PSet {[ "*.py" ]}) PNone |} in
  crawl_gitlab_files C.plain C.two_files 5 a [] = (Ret res, snd run)
  /\ ((exists error, res = {| files := ∅; stats := StatsError error |})
      \/ exists api pid headers ref tree_url sp all_items t1 blobs answers skipped,
           list_tree C.plain C.two_files 5 tree_url headers ref 1 [] []
           = (Ret (inr all_items), t1)
           /\ length answers = length blobs
           /\ exchanges (snd run)
              = raw_exchanges C.plain api pid headers ref blobs answers
                ++ exchanges t1
           /\ (exists downloaded skipped_count base inc exc,
                 stats res
                 = StatsFull downloaded skipped_count skipped base inc exc)
           /\ (forall path_item key,
                 In (path_item, key) blobs
                 <-> exists it,
                       In it all_items /\ i_type it = Some "blob"
                       /\ path_item = default "" (i_path it)
                       /\ key = rel_of (use_relative_paths a) sp path_item
                       /\ passes_filter C.plain (include_patterns a)
                            (exclude_patterns a) key (default "" (i_name it)))
           /\ (forall key,
                 fetched_key (files res, skipped) key
                 <-> exists path_item, In (path_item, key) blobs)).
Proof.
  intros a run res.
  assert (H : crawl_gitlab_files C.plain C.two_files 5 a [] = (Ret res, snd run))
    by (vm_compute; reflexivity).
  split; [exact H|].
  exact (inclusion_rule C.plain C.two_files 5%nat a [] (snd run) res H).
Defined.

(** [auth_failure_is_an_error_result] on a server that rate-limits the
    first listing request and answers the second with 401. *)
Lemma auth_failure_is_an_error_result_witness :
  let a := C.crawl_args "https://gitlab.com/group/project/-/tree/main/docs" 5 in
  let run := crawl_gitlab_files C.plain C.limiting_then_denying 5 a [] in
  crawl_gitlab_files C.plain C.limiting_then_denying 5 a [] = (fst run, snd run)
  /\ urlparse C.plain (repo_url a) <> None
  /\ fst run = Ret {| files := ∅; stats := StatsError "Unauthorized" |}.
Proof.
  intros a run.
  assert (H : crawl_gitlab_files C.plain C.limiting_then_denying 5 a []
              = (fst run, snd run)) by (vm_compute; reflexivity).
  assert (Hp : urlparse C.plain (repo_url a) <> None) by (vm_compute; discriminate).
  split; [exact H|]. split; [exact Hp|].
  destruct (proj1 (auth_failure_is_an_error_result C.plain C.limiting_then_denying)
              5%nat a [] (fst run) (snd run) H) as (new & Hnew & Hv).
  rewrite app_nil_r in Hnew. subst new.
  destruct (proj2 (auth_failure_is_an_error_result C.plain C.limiting_then_denying)
              0%nat a [] Hp) as (url & headers & ref & _).
  refine (proj1 (Hv (TreePage
                       "https://gitlab.com/api/v4/projects/group%2Fproject/repository/tree"
                       ∅ "main" 1)
                    {| status_code := 401; retry_after := None;
                       text := "401 Unauthorized"; body := None |} _ _) _);
    vm_compute; reflexivity.
Defined.

(** [oversized_files_are_skipped] on a repository of two files, one above
    the limit of five bytes: the crawl's counts, and the fetch loop on the
    two blobs. *)
Lemma oversized_files_are_skipped_witness :
  let a := C.crawl_args "https://gitlab.com/group/project" 5 in
  let run := crawl_gitlab_files C.plain C.two_files 5 a [] in
  let files := {[ "a.py" := "ok" ]} : gmap string string in
  let skipped := [("docs/big.md", 12)] in
  let res := {| files := files;
                stats := StatsFull 1 1 skipped None PNone PNone |} in
  let blobs := [("docs/big.md", "docs/big.md"); ("a.py", "a.py")] in
  let fetch := fetch_files C.plain C.two_files "https://gitlab.com/api/v4"
                 "group%2Fproject" ∅ "HEAD" 5 blobs ∅ [] [] in
  crawl_gitlab_files C.plain C.two_files 5 a [] = (Ret res, snd run)
  /\ fetch = (Ret (files, skipped), snd fetch)
  /\ NoDup (map snd blobs)
  /\ 1 = Z.of_nat (size files)
  /\ 1 = Z.of_nat (length skipped)
  /\ In ("docs/big.md", 12) skipped
  /\ files !! "docs/big.md" = None.
Proof.
  intros a run files skipped res blobs fetch.
  assert (H : crawl_gitlab_files C.plain C.two_files 5 a [] = (Ret res, snd run))
    by (vm_compute; reflexivity).
  assert (Hf : fetch = (Ret (files, skipped), snd fetch))
    by (vm_compute; reflexivity).
  assert (Hnd : NoDup (map snd blobs)).
  { cbn. apply NoDup_cons. split.
    - rewrite list_elem_of_singleton. discriminate.
    - apply NoDup_singleton. }
  split; [exact H|]. split; [exact Hf|]. split; [exact Hnd|].
  destruct (proj2 (oversized_files_are_skipped C.plain C.two_files)
              5%nat a [] res (snd run) 1 1 skipped None PNone PNone
              H eq_refl) as (Hd & Hs & _).
  split; [exact Hd|]. split; [exact Hs|].
  destruct (proj1 (oversized_files_are_skipped C.plain C.two_files)
              "https://gitlab.com/api/v4" "group%2Fproject" ∅ "HEAD" 5 blobs []
              files skipped (snd fetch) Hf) as (rs & Hlen & Hex & Hover & _).
  destruct rs as [|r0 [|r1 [|r2 rs]]]; try discriminate Hlen.
  assert (Hex' : exchanges (snd fetch)
                 = [(RawFile "https://gitlab.com/api/v4/projects/group%2Fproject/repository/files/a.py/raw"
                       ∅ "HEAD", C.answer 200 None "ok" None);
                    (RawFile "https://gitlab.com/api/v4/projects/group%2Fproject/repository/files/docs%2Fbig.md/raw"
                       ∅ "HEAD", C.answer 200 None "0123456789ab" None)])
    by (vm_compute; reflexivity).
  rewrite Hex' in Hex. unfold raw_exchanges, C.answer in Hex.
  cbn [zip_with rev app] in Hex. injection Hex as _ Hr0.
  destruct (Hover 0%nat "docs/big.md" "docs/big.md" r0 eq_refl eq_refl)
    as (Hin & Hnone).
  - rewrite <- Hr0. reflexivity.
  - rewrite <- Hr0. reflexivity.
  - rewrite <- Hr0 in Hin. split; [exact Hin | exact (Hnone Hnd)].
Defined.

End CrawlerRuns.

(** * Further properties of the gateway *)

Module GatewayMore.
Import Gateway GatewayProps GatewayFacts.

(** *** What a call adds to the trace *)

Lemma adds_weaken (P Q : event -> bool) {A} (m : M A) :
  (forall e, P e = true -> Q e = true) -> adds P m -> adds Q m.
Proof.
  intros HPQ Hm w r w' H. destruct (Hm w r w' H) as (new & Ht & HP).
  exists new. split; [exact Ht|]. rewrite forallb_forall in *. auto.
Qed.

Lemma adds_ret P {A} (a : A) : adds P (ret a).
Proof. intros w r w' [= <- <-]. exists []. split; reflexivity. Qed.

Lemma adds_raise P {A} e : adds P (@raise A e).
Proof. intros w r w' [= <- <-]. exists []. split; reflexivity. Qed.

Lemma adds_emit P e : P e = true -> adds P (emit e).
Proof.
  intros He w r w' [= <- <-]. exists [e]. split; [reflexivity|].
  cbn. now rewrite He.
Qed.

Lemma adds_bind P {A B} (m : M A) (k : A -> M B) :
  adds P m -> (forall a, adds P (k a)) -> adds P (bind m k).
Proof.
  intros Hm Hk w r w'. unfold bind.
  destruct (m w) as [[a|e] w1] eqn:H1; intros H.
  - destruct (Hm _ _ _ H1) as (n1 & Ht1 & HP1).
    destruct (Hk a _ _ _ H) as (n2 & Ht2 & HP2).
    exists (n2 ++ n1). rewrite Ht2, Ht1, app_assoc, forallb_app, HP1, HP2.
    split; reflexivity.
  - injection H as <- <-. exact (Hm _ _ _ H1).
Qed.

Lemma adds_confined out P {A} (m : M A) : confined out P m -> adds P m.
Proof.
  intros Hm w r w' H.
  destruct (confined_run out P m w r w' Hm H) as (new & hs & HP & Ht & _).
  exists new. auto.
Qed.

Ltac all_pass HF HL :=
  cbn [forallb app];
  repeat (apply andb_true_intro; split);
  try reflexivity; try apply HL; try (apply HF; reflexivity).

Lemma adds_load_cache P warn :
  (forall e, is_file_event e = true -> P e = true) ->
  (forall lvl r, P (Logged lvl r) = true) ->
  adds P (load_cache warn).
Proof.
  intros HF HL w r w'. rewrite load_cache_spec. intros [= <- <-].
  exists (load_events warn (cache_file w)). split; [reflexivity|].
  destruct (cache_file w), warn; all_pass HF HL.
Qed.

Lemma adds_save_cache out P cache :
  (forall e, is_file_event e = true -> P e = true) ->
  (forall lvl r, P (Logged lvl r) = true) ->
  adds P (save_cache out cache).
Proof.
  intros HF HL w r w'. rewrite save_cache_spec.
  destruct (disk_fault out) as [[|fl]|]; intros [= <- <-].
  - exists [Logged ERROR LogCacheSaveFailed; Store cache (Some OpenFails)].
    split; [reflexivity | all_pass HF HL].
  - exists [Logged ERROR LogCacheSaveFailed; Store cache (Some (DumpFails fl))].
    split; [reflexivity | all_pass HF HL].
  - exists [Store cache None]. split; [reflexivity | all_pass HF HL].
Qed.

Section OnBranch.

Variable out : Outside.

(** A predicate on events that lets the logs and the file events pass. *)
Variable P : event -> bool.
Hypothesis P_logged : forall lvl r, P (Logged lvl r) = true.
Hypothesis P_file : forall e, is_file_event e = true -> P e = true.
Hypothesis P_compress : forall body ans, P (Sent (branch_compress out body) ans) = true.
Hypothesis P_final : forall p ans, P (Sent (branch_final out p) ans) = true.

Lemma confined_call_provider_by prompt :
  confined out P (call_provider out prompt).
Proof.
  rewrite call_provider_eq.
  apply confined_bind; [apply confined_fitted; auto|]. intros p.
  unfold branch_compress, branch_final in *.
  destruct (String.eqb (provider out) "openai").
  - unfold openai_attempt.
    apply confined_catch; [apply confined_send; auto|].
    intros [msg| | | | |]; try apply confined_raise.
    destruct (PyStr.contains _ _); [|apply confined_raise].
    apply confined_bind; [apply confined_emit; auto|]. intros _.
    apply confined_bind; [apply confined_summarize_chunks; auto|].
    intros p'. apply confined_send; auto.
  - apply confined_send; auto.
Qed.

Lemma adds_check_cache prompt : adds P (check_cache prompt).
Proof.
  unfold check_cache.
  apply adds_bind; [now apply adds_load_cache|]. intros cache.
  apply adds_bind.
  { unfold py_in. destruct cache; apply adds_ret || apply adds_raise. }
  intros [|]; [|apply adds_ret].
  apply adds_bind.
  { unfold py_getitem. destruct cache; try apply adds_raise.
    destruct (_ !! _); [apply adds_ret | apply adds_raise]. }
  intros v. apply adds_bind; [apply adds_emit, P_logged|].
  intros _. apply adds_ret.
Qed.

Lemma adds_update_cache prompt v : adds P (update_cache out prompt v).
Proof.
  unfold update_cache.
  apply adds_bind; [now apply adds_load_cache|]. intros cache.
  apply adds_bind.
  { unfold py_setitem. destruct cache; apply adds_ret || apply adds_raise. }
  intros cache'. now apply adds_save_cache.
Qed.

(** The part of [call_llm] after the log of the prompt. *)
Lemma adds_call_llm prompt use_cache : adds P (call_llm out prompt use_cache).
Proof.
  unfold call_llm.
  apply adds_bind; [apply adds_emit, P_logged|]. intros _.
  apply adds_bind.
  { destruct use_cache; [apply adds_check_cache | apply adds_ret]. }
  intros [v|]; [apply adds_ret|].
  apply adds_bind; [apply (adds_confined out), confined_call_provider_by|].
  intros text. apply adds_bind; [apply adds_emit, P_logged|]. intros _.
  apply adds_bind.
  { destruct use_cache; [apply adds_update_cache | apply adds_ret]. }
  intros _. apply adds_ret.
Qed.

End OnBranch.

Lemma on_branch_compress out body : on_branch out (branch_compress out body) = true.
Proof.
  unfold branch_compress.
  destruct (String.eqb (provider out) "openai") eqn:Hp;
    unfold on_branch, openai_compress, google_compress; rewrite Hp; cbn;
    apply String.eqb_refl.
Qed.

Lemma on_branch_final out p : on_branch out (branch_final out p) = true.
Proof.
  unfold branch_final.
  destruct (String.eqb (provider out) "openai") eqn:Hp;
    unfold on_branch, openai_final, google_final; rewrite Hp; cbn;
    apply String.eqb_refl.
Qed.

(** X1. Every client call of a run of [call_llm] goes to the API of the
    selected provider, with the model the environment names for it:
    [chat.completions.create] with [OPENAI_MODEL] (default gpt-4o-mini) when
    [LLM_PROVIDER], in lower case, is "openai", and [generate_content] with
    [GEMINI_MODEL] (default gemini-2.5-flash) for any other value. This holds
    for the compression calls, the call that carries the prompt and the
    retry alike, whatever the outcome of the run. *)
Theorem calls_go_to_the_selected_provider (out : Outside) (prompt : string)
    (use_cache : bool) (w : World) :
  exists new,
    trace (snd (call_llm out prompt use_cache w)) = new ++ trace w
    /\ forall req ans,
         In (Sent req ans) new ->
         if String.eqb (PyStr.lower (getenv_or out "LLM_PROVIDER" "google")) "openai"
         then exists messages,
                req = ChatCompletion (getenv_or out "OPENAI_MODEL" "gpt-4o-mini")
                        messages
         else exists contents,
                req = GenerateContent
                        (getenv_or out "GEMINI_MODEL" "gemini-2.5-flash") contents.
Proof.
  destruct (call_llm out prompt use_cache w) as [r w'] eqn:H.
  destruct (adds_call_llm out (call_on_branch out)
              (fun _ _ => eq_refl)
              (fun e He => ltac:(destruct e; try reflexivity; discriminate))
              (fun body ans => on_branch_compress out body)
              (fun p ans => on_branch_final out p)
              prompt use_cache w r w' H) as (new & Ht & HP).
  exists new. split; [exact Ht|]. intros req ans Hin.
  rewrite forallb_forall in HP. specialize (HP _ Hin). cbn in HP.
  fold (provider out). unfold on_branch in HP.
  destruct req as [model messages|model contents];
    apply andb_true_iff in HP as [Hp Hm]; apply String.eqb_eq in Hm; subst model.
  - rewrite Hp. eauto.
  - apply negb_true_iff in Hp. rewrite Hp. eauto.
Qed.

(** X2. The audit log. Whatever the outcome, the first thing a call does is
    to log the prompt; and a call that returns has logged the very value it
    returns as the response, on a cache hit as well as after a provider
    call. *)
Theorem every_call_is_logged (out : Outside) (prompt : string)
    (use_cache : bool) (w : World) :
  exists new,
    trace (snd (call_llm out prompt use_cache w))
    = new ++ Logged INFO (LogPrompt prompt) :: trace w
    /\ forall v,
         fst (call_llm out prompt use_cache w) = Ret v ->
         In (Logged INFO (LogResponse v)) new.
Proof.
  destruct (call_llm out prompt use_cache w) as [r w'] eqn:H. cbn [fst snd].
  set (w0 := mk (cache_file w) (Logged INFO (LogPrompt prompt) :: trace w)).
  assert (Hcheck : adds (fun _ => true)
                     (if use_cache then check_cache prompt else ret None))
    by (destruct use_cache; [now apply adds_check_cache | apply adds_ret]).
  assert (Hprov : adds (fun _ => true) (call_provider out prompt))
    by (apply (adds_confined out), confined_call_provider_by; reflexivity).
  assert (Hupd : forall v,
             adds (fun _ => true)
               (if use_cache then update_cache out prompt v else ret tt))
    by (intros v; destruct use_cache;
        [now apply adds_update_cache | apply adds_ret]).
  assert (Hrest : exists new, trace w' = new ++ trace w0).
  { revert H. unfold call_llm. unfold bind at 1, log, emit.
    intros H.
    eapply (adds_bind (fun _ => true)) in H as (new & Ht & _); [eauto | exact Hcheck |].
    intros [v|]; [apply adds_ret|].
    apply adds_bind; [exact Hprov|].
    intros text. apply adds_bind; [now apply adds_emit|]. intros _.
    apply adds_bind; [apply Hupd|].
    intros _. apply adds_ret. }
  destruct Hrest as (new & Ht). exists new. split; [exact Ht|].
  intros v ->. apply call_llm_ret_inv in H. fold w0 in H.
  destruct H as [[_ H] | (w1 & text & wp & Hc & Hp & -> & H)].
  - apply check_cache_hit in H as (kvs & _ & _ & ->). cbn [trace mk] in Ht.
    change (Logged INFO (LogResponse v) :: Load (Some (JObj kvs))
            :: Exists true :: trace w0)
      with ([Logged INFO (LogResponse v); Load (Some (JObj kvs)); Exists true]
            ++ trace w0) in Ht.
    apply app_inv_tail in Ht. subst new. now left.
  - apply Hcheck in Hc as (n0 & Hn0 & _).
    apply Hprov in Hp as (n1 & Hn1 & _).
    apply Hupd in H as (n2 & Hn2 & _). cbn [trace mk] in Hn2.
    rewrite Hn1, Hn0 in Hn2. rewrite Hn2 in Ht.
    assert (new = n2 ++ Logged INFO (LogResponse (of_text text)) :: n1 ++ n0) as ->.
    { apply (app_inv_tail (trace w0)). rewrite <- Ht.
      rewrite <- !app_assoc. cbn. now rewrite <- !app_assoc. }
    apply in_or_app. right. now left.
Qed.

(** *** What happens to the cache file *)

Lemma after_others_quiet out hs f : quiet out -> after_others out hs f = f.
Proof.
  intros Hq. revert f. induction hs as [|h hs IH]; intros f; [reflexivity|].
  cbn. rewrite Hq. apply IH.
Qed.

Lemma check_cache_file prompt w r w' :
  check_cache prompt w = (r, w') -> cache_file w' = cache_file w.
Proof.
  unfold check_cache, bind. rewrite load_cache_spec.
  set (w1 := mk _ _).
  destruct (py_in prompt (contents (cache_file w)) w1) as [[hit|e] w2] eqn:Hin.
  - assert (w2 = w1) as ->.
    { unfold py_in in Hin. destruct (contents (cache_file w));
        now injection Hin as _ <-. }
    destruct hit; [|now intros [= _ <-]].
    destruct (py_getitem (contents (cache_file w)) prompt w1) as [[v|e] w3] eqn:Hg.
    + assert (w3 = w1) as ->.
      { unfold py_getitem in Hg. destruct (contents (cache_file w));
          try (now injection Hg as _ <-).
        destruct (_ !! _); now injection Hg as _ <-. }
      now intros [= _ <-].
    + assert (w3 = w1) as ->.
      { unfold py_getitem in Hg. destruct (contents (cache_file w));
          try (now injection Hg as _ <-).
        destruct (_ !! _); now injection Hg as _ <-. }
      now intros [= _ <-].
  - assert (w2 = w1) as ->.
    { unfold py_in in Hin. destruct (contents (cache_file w));
        now injection Hin as _ <-. }
    now intros [= _ <-].
Qed.

Lemma call_provider_file out prompt w r w' :
  quiet out -> call_provider out prompt w = (r, w') ->
  cache_file w' = cache_file w.
Proof.
  intros Hq H.
  destruct (confined_run out not_file_event _ _ _ _
              (confined_call_provider out prompt) H) as (new & hs & _ & _ & ->).
  now apply after_others_quiet.
Qed.

(** Without other writers, a call leaves the cache file as it is, unless it
    gets as far as the update after a provider call, which then runs on the
    file as it was. *)
Lemma call_llm_file out prompt use_cache w r w' :
  quiet out -> call_llm out prompt use_cache w = (r, w') ->
  cache_file w' = cache_file w
  \/ (use_cache = true
      /\ exists text t1 u,
           update_cache out prompt (of_text text) (mk (cache_file w) t1) = (u, w')).
Proof.
  intros Hq. unfold call_llm. unfold bind at 1, log, emit.
  set (w0 := {| cache_file := cache_file w; trace := _ |}).
  unfold bind at 1.
  destruct ((if use_cache then check_cache prompt else ret None) w0)
    as [[cached|e] w1] eqn:Hc.
  2:{ intros [= <- <-]. left. destruct use_cache;
        [now apply check_cache_file in Hc | discriminate Hc]. }
  assert (Hf1 : cache_file w1 = cache_file w)
    by (destruct use_cache;
        [now apply check_cache_file in Hc | now injection Hc as _ <-]).
  destruct cached as [v|]; [intros [= <- <-]; now left|].
  unfold bind at 1.
  destruct (call_provider out prompt w1) as [[text|e] wp] eqn:Hp;
    pose proof (call_provider_file _ _ _ _ _ Hq Hp) as Hfp.
  2:{ intros [= <- <-]. left. congruence. }
  unfold bind at 1, log, emit. unfold bind at 1.
  destruct use_cache.
  - destruct (update_cache out prompt (of_text text) _) as [u w2] eqn:Hu.
    intros H. right. split; [reflexivity|].
    exists text, (Logged INFO (LogResponse (of_text text)) :: trace wp), u.
    rewrite Hfp, Hf1 in Hu. unfold mk. rewrite Hu. f_equal.
    destruct u; now injection H as _ <-.
  - cbn. intros [= <- <-]. left. cbn. congruence.
Qed.

(** X3. The cache file does not have to hold a JSON object for [json.load]
    to succeed. When it holds any other JSON value (an array, a string, a
    number, a boolean or null) and no other writer replaces it, a call with
    the cache on never returns a response: it raises, at the membership test,
    at the lookup, or, after the provider has been called, at the update. *)
Theorem non_object_cache_always_raises (out : Outside) (prompt : string)
    (w : World) :
  quiet out -> ~ usable (cache_file w) ->
  exists e, fst (call_llm out prompt true w) = Raise e.
Proof.
  intros Hq Hnu.
  destruct (call_llm out prompt true w) as [[v|e] w'] eqn:H; [exfalso | eauto].
  apply call_llm_ret_inv in H.
  destruct H as [[_ H] | (w1 & text & wp & Hc & Hp & _ & H)].
  - apply check_cache_hit in H as (kvs & Hf & _). cbn in Hf.
    apply Hnu. rewrite Hf. exact I.
  - apply check_cache_file in Hc. cbn in Hc.
    apply (call_provider_file _ _ _ _ _ Hq) in Hp.
    rewrite update_cache_spec in H. cbn [cache_file trace mk] in H.
    rewrite Hp, Hc in H.
    destruct (cache_file w) as [| | | |[]]; cbn in H, Hnu;
      try discriminate; try (apply Hnu; exact I).
Qed.

Lemma contents_entries f kvs : contents f = JObj kvs -> entries f = kvs.
Proof.
  destruct f as [| | | |[]]; cbn; intros H; try discriminate;
    now injection H as <-.
Qed.

(** X4. The cache only grows. Without other writers, and unless a dump
    fails after the file was opened for writing, a call with the cache on
    leaves every entry under another prompt as it was: the same value, or
    still absent. This holds whatever the outcome of the call. *)
Theorem other_entries_are_kept (out : Outside) (prompt : string) (w : World) :
  quiet out ->
  (forall flushed, disk_fault out <> Some (DumpFails flushed)) ->
  forall k, k <> prompt ->
    entries (cache_file (snd (call_llm out prompt true w))) !! k
    = entries (cache_file w) !! k.
Proof.
  intros Hq Hfault k Hk.
  destruct (call_llm out prompt true w) as [r w'] eqn:H. cbn [snd].
  apply (call_llm_file _ _ _ _ _ _ Hq) in H
    as [-> | (_ & text & t1 & u & H)]; [reflexivity|].
  rewrite update_cache_spec in H. cbn [cache_file trace mk] in H.
  destruct (contents (cache_file w)) as [| | | | |kvs] eqn:Hcont;
    try (injection H as _ <-; reflexivity).
  apply contents_entries in Hcont. rewrite save_cache_spec in H.
  destruct (disk_fault out) as [[|fl]|] eqn:Hd.
  - injection H as _ <-. reflexivity.
  - now destruct (Hfault fl).
  - injection H as _ <-. cbn. rewrite lookup_insert_ne by congruence.
    now rewrite Hcont.
Qed.

(** *** Degenerate chunk sizes *)

(** X5. A negative chunk size makes [range] empty: a prompt above a
    non-negative limit is then replaced by the empty string without any
    compression call, and the first client call of the branch carries the
    empty prompt. *)
Theorem negative_chunk_size_drops_the_prompt (out : Outside) (prompt : string)
    (w : World) :
  let limit := get_limit_chars out (branch out) in
  get_chunk_size_chars out (branch out) < 0 ->
  0 <= limit -> PyStr.len prompt > limit ->
  exists new,
    trace (snd (call_provider out prompt w))
    = new ++ Sent (branch_final out "")
               (respond out (sent (trace w)) (branch_final out ""))
          :: Logged INFO (LogCompressing (branch out) (PyStr.len prompt) limit)
          :: trace w.
Proof.
  intros limit Hcs Hlim Hlen.
  set (w0 := mk (cache_file w)
                (Logged INFO (LogCompressing (branch out) (PyStr.len prompt) limit)
                 :: trace w)).
  assert (Hfit : fitted out (branch out) (branch_compress out) prompt limit w
                 = (Ret "", w0)).
  { unfold fitted. destruct (Z.gtb_spec (PyStr.len prompt) limit); [|lia].
    erewrite bind_run by reflexivity.
    unfold summarize_chunks, PyStr.range0.
    destruct (Z.eqb_spec (get_chunk_size_chars out (branch out)) 0); [lia|].
    destruct (Z.ltb_spec (get_chunk_size_chars out (branch out)) 0); [|lia].
    cbn [orb compress_chunks]. erewrite bind_run by reflexivity.
    cbn [PyStr.join reduce_rounds].
    destruct (Z.gtb_spec (PyStr.len "") limit) as [Hgt0|Hle0];
      [change (PyStr.len "") with 0 in Hgt0; lia | reflexivity]. }
  rewrite call_provider_eq. fold limit.
  erewrite bind_run by exact Hfit.
  unfold branch_final.
  destruct (String.eqb (provider out) "openai").
  - unfold openai_attempt, catch. rewrite send_spec.
    set (req := openai_final _ "").
    change (sent (trace w0)) with (sent (trace w)).
    destruct (respond out (sent (trace w)) req) as [text|e] eqn:Hans.
    + exists []. reflexivity.
    + set (w1 := mk _ _).
      match goal with
      | |- context [snd (?h w1)] => destruct (h w1) as [r w'] eqn:Hh
      end.
      assert (Hext : exists new, trace w' = new ++ trace w1).
      { revert Hh. destruct e as [msg| | | | |];
          try (intros [= <- <-]; exists []; reflexivity).
        destruct (PyStr.contains _ _);
          [|intros [= <- <-]; exists []; reflexivity].
        intros Hh.
        eapply (adds_bind (fun _ => true)) in Hh as (new & Ht & _); [eauto | |].
        - now apply adds_emit.
        - intros _. apply adds_bind.
          + apply (adds_confined out), confined_summarize_chunks. reflexivity.
          + intros p'. apply (adds_confined out), confined_send. reflexivity. }
      destruct Hext as (new & Ht). exists new. cbn [snd]. rewrite Ht. reflexivity.
  - rewrite send_spec. exists []. reflexivity.
Qed.

(** *** The cost of a compression pass *)

Lemma compress_chunks_count out compress text chunk_size starts w r w' :
  compress_chunks out compress text chunk_size starts w = (r, w') ->
  (length (sent (trace w')) <= length (sent (trace w)) + length starts)%nat.
Proof.
  revert w r w'. induction starts as [|i rest IH]; intros w r w';
    cbn [compress_chunks].
  - intros [= <- <-]. lia.
  - unfold bind at 1. rewrite send_spec.
    set (w1 := mk _ _).
    assert (H1 : length (sent (trace w1)) = S (length (sent (trace w))))
      by reflexivity.
    destruct (respond out _ _) as [t|e]; [|intros [= <- <-]; cbn [length]; lia].
    unfold bind at 1. destruct (strip_text t w1) as [[s|e] w2] eqn:Hs;
      apply strip_text_inv in Hs as ->; [|intros [= <- <-]; cbn [length]; lia].
    unfold bind at 1.
    destruct (compress_chunks out compress text chunk_size rest w1)
      as [[ss|e] w3] eqn:Hrest; apply IH in Hrest;
      intros [= <- <-]; cbn [length]; lia.
Qed.

Lemma reduce_rounds_count out compress max_chars rounds_left combined w r w' :
  reduce_rounds out compress max_chars rounds_left combined w = (r, w') ->
  (length (sent (trace w')) <= length (sent (trace w)) + rounds_left)%nat.
Proof.
  revert combined w r w'. induction rounds_left as [|n IH];
    intros combined w r w'; cbn [reduce_rounds].
  - intros [= <- <-]. lia.
  - destruct (_ >? _); [|intros [= <- <-]; lia].
    unfold bind at 1. rewrite send_spec.
    set (w1 := mk _ _).
    assert (H1 : length (sent (trace w1)) = S (length (sent (trace w))))
      by reflexivity.
    destruct (respond out _ _) as [t|e]; [|intros [= <- <-]; lia].
    unfold bind at 1. destruct (strip_text t w1) as [[s|e] w2] eqn:Hs;
      apply strip_text_inv in Hs as ->; [|intros [= <- <-]; lia].
    intros H. apply IH in H. lia.
Qed.

(** X6. A compression pass is bounded: whatever the provider answers, it
    makes at most one client call per chunk and three more. With a positive
    chunk size the number of chunks of a non-empty text is its length
    divided by the chunk size, rounded up. *)
Theorem compression_pass_is_bounded (out : Outside) (name : string)
    (compress : string -> request) (text : string) (max_chars : Z) (w : World) :
  let chunk_size := get_chunk_size_chars out name in
  (length (sent (trace (snd (summarize_chunks out name compress text max_chars w))))
   <= length (sent (trace w)) + chunk_count text chunk_size + 3)%nat
  /\ (0 < chunk_size -> 0 < PyStr.len text ->
      Z.of_nat (chunk_count text chunk_size)
      = (PyStr.len text + chunk_size - 1) / chunk_size).
Proof.
  intros chunk_size. split.
  - unfold summarize_chunks, chunk_count, chunks. fold chunk_size.
    destruct (PyStr.range0 (PyStr.len text) chunk_size) as [starts|];
      [|cbn; lia].
    cbn [fmap option_fmap option_map]. rewrite length_map.
    unfold bind.
    destruct (compress_chunks out compress text chunk_size starts w)
      as [[ss|e] w1] eqn:H1; apply compress_chunks_count in H1.
    + destruct (reduce_rounds out compress max_chars 3 _ w1) as [r w2] eqn:H2.
      apply reduce_rounds_count in H2. cbn [snd]. lia.
    + cbn [snd]. lia.
  - intros Hcs Hlen. unfold chunk_count.
    rewrite (PyStrFacts.chunks_nat text chunk_size Hcs Hlen).
    rewrite length_map, length_seq.
    pose proof (PyStrFacts.chunk_count_bounds (PyStr.len text) chunk_size Hcs Hlen).
    cbv zeta in H. lia.
Qed.

(** X7. Failures are not cached. Without other writers, a call that raises,
    at the cache check, in the provider branch or at the update, leaves the
    cache file exactly as it was: nothing is written for a prompt whose call
    failed. *)
Theorem a_failed_call_writes_nothing (out : Outside) (prompt : string)
    (use_cache : bool) (w : World) (e : exn) :
  quiet out ->
  fst (call_llm out prompt use_cache w) = Raise e ->
  cache_file (snd (call_llm out prompt use_cache w)) = cache_file w.
Proof.
  intros Hq. destruct (call_llm out prompt use_cache w) as [r w'] eqn:H.
  cbn [fst snd]. intros ->. revert H.
  unfold call_llm. unfold bind at 1, log, emit.
  set (w0 := {| cache_file := cache_file w; trace := _ |}).
  unfold bind at 1.
  destruct ((if use_cache then check_cache prompt else ret None) w0)
    as [[cached|e0] w1] eqn:Hc.
  2:{ intros [= _ <-]. destruct use_cache;
        [now apply check_cache_file in Hc | discriminate Hc]. }
  assert (Hf1 : cache_file w1 = cache_file w)
    by (destruct use_cache;
        [now apply check_cache_file in Hc | now injection Hc as _ <-]).
  destruct cached as [v|]; [discriminate|].
  unfold bind at 1.
  destruct (call_provider out prompt w1) as [[text|e1] wp] eqn:Hp;
    pose proof (call_provider_file _ _ _ _ _ Hq Hp) as Hfp.
  2:{ intros [= _ <-]. congruence. }
  unfold bind at 1, log, emit. unfold bind at 1.
  destruct use_cache; [|discriminate].
  rewrite update_cache_spec. cbn [cache_file trace mk].
  destruct (contents (cache_file wp)) eqn:Hcont;
    try (intros [= _ <-]; cbn; congruence).
  rewrite save_cache_spec. destruct (disk_fault out) as [[|flushed]|]; discriminate.
Qed.

End GatewayMore.

(** * Further properties of the crawler *)

Module CrawlerMore.
Import Crawler CrawlerProps CrawlerFacts.

Section Listing.

Variable lib : Lib.
Variable serve : list http_request -> http_request -> http_outcome.

Lemma requested_cons_got req ans t :
  requested (Got req ans :: t) = req :: requested t.
Proof. reflexivity. Qed.

Lemma page_numbers_S first n :
  page_numbers first (S n) = first :: page_numbers (first + 1) n.
Proof.
  unfold page_numbers. cbn [seq map]. f_equal; [lia|].
  rewrite <- seq_shift, map_map. apply map_ext. intros i. lia.
Qed.

(** The listing loop from page [first], over [full] pages of a hundred
    items or more and a last page of fewer. *)
Lemma list_tree_pages tree_url headers ref pages :
  lists_by_pages serve tree_url headers ref pages ->
  forall (full fuel : nat) (first : Z) (all_items : list item) (t : list event),
    (full < fuel)%nat ->
    (forall k, In k (page_numbers first full) -> (100 <= length (pages k))%nat) ->
    (length (pages (first + Z.of_nat full)%Z) < 100)%nat ->
    exists t',
      list_tree lib serve fuel tree_url headers ref first all_items t
      = (Ret (inr (all_items
                   ++ concat (map pages (page_numbers first (S full))))), t')
      /\ requested t'
         = rev (map (TreePage tree_url headers ref) (page_numbers first (S full)))
           ++ requested t.
Proof.
  intros Hserve. induction full as [|full IH];
    intros fuel first all_items t Hfuel Hfull Hlast;
    (destruct fuel as [|fuel]; [lia|]); cbn [list_tree];
    destruct (Hserve (requested t) first) as (resp & Hans & Hst & Hbody);
    unfold bind at 1; rewrite get_spec, Hans; cbv beta iota zeta;
    rewrite Hst; cbn [Z.eqb Pos.eqb negb]; rewrite Hbody;
    rewrite page_numbers_S.
  - replace (first + Z.of_nat 0) with first in Hlast by lia.
    cbn [page_numbers seq map concat rev app]. rewrite app_nil_r.
    destruct (pages first) as [|it data] eqn:Hp.
    + eexists. split; [rewrite app_nil_r; reflexivity | reflexivity].
    + destruct (Nat.ltb_spec (length (it :: data)) 100); [|lia].
      eexists. split; reflexivity.
  - assert (Hfirst : (100 <= length (pages first))%nat).
    { apply Hfull. rewrite page_numbers_S. left. reflexivity. }
    destruct (pages first) as [|it data] eqn:Hp; [cbn in Hfirst; lia|].
    destruct (Nat.ltb_spec (length (it :: data)) 100); [lia|].
    destruct (IH fuel (first + 1) (all_items ++ it :: data)
                (Got (TreePage tree_url headers ref first) (Answer resp) :: t))
      as (t' & Hrun & Hreq).
    + lia.
    + intros k Hk. apply Hfull. rewrite page_numbers_S. right. exact Hk.
    + replace (first + 1 + Z.of_nat full) with (first + Z.of_nat (S full)) by lia.
      exact Hlast.
    + exists t'. split.
      * rewrite Hrun. cbn [map concat]. rewrite Hp, <- app_assoc. reflexivity.
      * rewrite Hreq, requested_cons_got. cbn [map rev].
        rewrite <- app_assoc. reflexivity.
Qed.

(** X8. Pagination is transparent. On a server that lists the repository
    by pages, where the first [full] pages have a hundred items or more and
    the next one fewer (none at all included), the listing loop asks for
    the pages 1, 2, ... in order, one request each, stops after the short
    page and returns the items of all these pages in order. *)
Theorem listing_follows_the_pages (tree_url : string)
    (headers : gmap string string) (ref : string) (pages : Z -> list item)
    (full fuel : nat) (t : list event) :
  lists_by_pages serve tree_url headers ref pages ->
  (full < fuel)%nat ->
  (forall k, In k (page_numbers 1 full) -> (100 <= length (pages k))%nat) ->
  (length (pages (1 + Z.of_nat full)%Z) < 100)%nat ->
  exists t',
    list_tree lib serve fuel tree_url headers ref 1 [] t
    = (Ret (inr (concat (map pages (page_numbers 1 (S full))))), t')
    /\ requested t'
       = rev (map (TreePage tree_url headers ref) (page_numbers 1 (S full)))
         ++ requested t.
Proof.
  intros Hserve Hfuel Hfull Hlast.
  exact (list_tree_pages tree_url headers ref pages Hserve full fuel 1 [] t
           Hfuel Hfull Hlast).
Qed.

Lemma retry_wait_asked resp n t :
  asks_to_wait resp n -> retry_wait resp t = (Ret n, t).
Proof.
  unfold retry_wait, asks_to_wait.
  destruct (retry_after resp) as [v|]; [intros ->|intros ->]; reflexivity.
Qed.

Lemma sleep_sleeps n t :
  sleeps lib n -> sleep lib n t = (Ret tt, Slept n :: t).
Proof.
  intros [[Hlo Hhi] Hcan]. unfold sleep.
  destruct (Z.ltb_spec n (- max_sleep)); [unfold max_sleep in *; lia|].
  destruct (Z.ltb_spec max_sleep n); [lia|]. cbn [orb].
  destruct (Z.ltb_spec n 0); [lia|]. now rewrite Hcan.
Qed.

(** X9. The listing loop has no bound on rate limiting: on a server that
    answers every request with status 429 and a wait that [time.sleep]
    takes (the sixty seconds of an answer without [Retry-After], or a header
    that [int] reads as such a wait), it asks again and again, the same page
    each time, and never returns nor raises. In the model, whatever the
    fuel, the loop uses it up, with one request per unit. *)
Theorem rate_limiting_never_ends (tree_url : string)
    (headers : gmap string string) (ref : string) (page : Z)
    (all_items : list item) (fuel : nat) (t : list event) :
  always_limits lib serve ->
  exists t',
    list_tree lib serve fuel tree_url headers ref page all_items t = (Timeout, t')
    /\ requested t'
       = repeat (TreePage tree_url headers ref page) fuel ++ requested t.
Proof.
  intros Hserve. revert t. induction fuel as [|fuel IH]; intros t.
  - exists t. split; reflexivity.
  - cbn [list_tree].
    destruct (Hserve (requested t) (TreePage tree_url headers ref page))
      as (resp & n & Hans & Hst & Hask & Hsleeps).
    unfold bind at 1. rewrite get_spec, Hans. cbv beta iota zeta.
    rewrite Hst. cbn [Z.eqb Pos.eqb].
    set (t1 := Got (TreePage tree_url headers ref page) (Answer resp) :: t).
    unfold bind at 1. rewrite (retry_wait_asked resp n t1 Hask).
    unfold bind at 1, print, emit. unfold bind at 1.
    rewrite (sleep_sleeps n _ Hsleeps).
    destruct (IH (Slept n :: Printed (NoticeRateLimit n) :: t1)) as (t' & Hrun & Hreq).
    exists t'. split; [exact Hrun|].
    rewrite Hreq. subst t1. cbn [requested omap].
    change (omap _ t) with (requested t).
    cbn [repeat]. rewrite repeat_cons, <- app_assoc. reflexivity.
Qed.

(** X10. One rate limit. After a 429 answer the wait is the sixty seconds
    of an answer without a [Retry-After] header, or the header as [int]
    reads it; a header that is no integer literal (an HTTP date, say, or
    digits after a separator such as U+001C) makes [int] raise a
    [ValueError] right after the request. The notice is printed, and then
    [time.sleep] decides: a wait out of the range of its clock raises
    [OverflowError], a negative one [ValueError], one the platform refuses
    [OSError], each one uncaught; after any other wait the loop goes on with
    the same page and the items it has. *)
Theorem rate_limit_delay (tree_url : string) (headers : gmap string string)
    (ref : string) (page : Z) (all_items : list item) (fuel : nat)
    (t : list event) (resp : response) :
  let req := TreePage tree_url headers ref page in
  serve (requested t) req = Answer resp ->
  status_code resp = 429 ->
  let t1 := Got req (Answer resp) :: t in
  let run := list_tree lib serve (S fuel) tree_url headers ref page all_items t in
  let after_wait n :=
    let t2 := Printed (NoticeRateLimit n) :: t1 in
    if (n <? - max_sleep) || (max_sleep <? n)
    then exists msg, run = (Raise (OverflowError msg), t2)
    else if n <? 0 then exists msg, run = (Raise (ValueError msg), t2)
    else if can_sleep lib n
    then run = list_tree lib serve fuel tree_url headers ref page all_items
                 (Slept n :: t2)
    else exists msg, run = (Raise (OSError msg), t2) in
  match retry_after resp with
  | None => after_wait 60
  | Some v =>
      match PyStr.to_int v with
      | None => exists msg, run = (Raise (ValueError msg), t1)
      | Some n => after_wait n
      end
  end.
Proof.
  intros req Hans Hst t1 run after_wait.
  assert (Hrun : run
    = bind (retry_wait resp) (fun wait =>
        bind (print (NoticeRateLimit wait)) (fun _ =>
          bind (sleep lib wait) (fun _ =>
            list_tree lib serve fuel tree_url headers ref page all_items))) t1).
  { subst run. cbn [list_tree]. unfold bind at 1. rewrite get_spec.
    fold req. rewrite Hans. cbv beta iota zeta. rewrite Hst. reflexivity. }
  clearbody run. subst run.
  assert (Hwait : forall n,
    (let t2 := Printed (NoticeRateLimit n) :: t1 in
     let run :=
       bind (print (NoticeRateLimit n)) (fun _ =>
         bind (sleep lib n) (fun _ =>
           list_tree lib serve fuel tree_url headers ref page all_items)) t1 in
     if (n <? - max_sleep) || (max_sleep <? n)
     then exists msg, run = (Raise (OverflowError msg), t2)
     else if n <? 0 then exists msg, run = (Raise (ValueError msg), t2)
     else if can_sleep lib n
     then run = list_tree lib serve fuel tree_url headers ref page all_items
                  (Slept n :: t2)
     else exists msg, run = (Raise (OSError msg), t2))).
  { intros n. cbv zeta. unfold bind, print, emit, sleep, raise.
    destruct (_ || _); [eexists; reflexivity|].
    destruct (n <? 0); [eexists; reflexivity|].
    destruct (can_sleep lib n); [reflexivity | eexists; reflexivity]. }
  subst after_wait. cbv beta. unfold bind at 1, retry_wait.
  destruct (retry_after resp) as [v|].
  - destruct (PyStr.to_int v) as [n|]; [exact (Hwait n) | eexists; reflexivity].
  - exact (Hwait 60).
Qed.

End Listing.

(** ** What every run adds to the trace *)

Lemma orderly_ret P {A} (a : A) : orderly P (ret a).
Proof. intros t r t' [= <- <-]. exists []. repeat split. intros ? ? []. Qed.

Lemma orderly_raise P {A} e : orderly P (@raise A e).
Proof. intros t r t' [= <- <-]. exists []. repeat split. intros ? ? []. Qed.

Lemma orderly_timeout P {A} : orderly P (@timeout A).
Proof. intros t r t' [= <- <-]. exists []. repeat split. intros ? ? []. Qed.

Lemma orderly_print P n : P (Printed n) = true -> orderly P (print n).
Proof.
  intros HP t r t' [= <- <-]. exists [Printed n]. cbn. rewrite HP.
  repeat split. intros ? ? [[=]|[]].
Qed.

Lemma orderly_sleep lib P s : P (Slept s) = true -> orderly P (sleep lib s).
Proof.
  intros HP. unfold sleep. destruct (_ || _); [apply orderly_raise|].
  destruct (s <? 0); [apply orderly_raise|].
  destruct (can_sleep lib s); [|apply orderly_raise].
  intros t r t' [= <- <-]. exists [Slept s]. cbn. rewrite HP.
  repeat split. intros ? ? [[=]|[]].
Qed.

Lemma orderly_retry_wait P resp : orderly P (retry_wait resp).
Proof.
  unfold retry_wait. destruct (retry_after resp) as [v|]; [|apply orderly_ret].
  destruct (PyStr.to_int v); [apply orderly_ret | apply orderly_raise].
Qed.

Lemma orderly_bind P {A B} (m : M A) (k : A -> M B) :
  orderly P m -> (forall a, orderly P (k a)) -> orderly P (bind m k).
Proof.
  intros Hm Hk t r t' H. unfold bind in H.
  destruct (m t) as [[a|e|] t1] eqn:Hmt;
    destruct (Hm _ _ _ Hmt) as (new1 & -> & HP1 & Hf1).
  - destruct (Hk a _ _ _ H) as (new2 & -> & HP2 & Hf2).
    exists (new2 ++ new1). rewrite app_assoc, forallb_app, HP1, HP2.
    split; [reflexivity|]. split; [reflexivity|].
    intros req msg [Hin|Hin]%in_app_or; [exact (Hf2 _ _ Hin)|].
    apply Hf1 in Hin. discriminate Hin.
  - injection H as <- <-. exists new1.
    split; [reflexivity | split; [exact HP1|]].
    intros req msg Hin. apply Hf1 in Hin. now injection Hin as ->.
  - injection H as <- <-. exists new1.
    split; [reflexivity | split; [exact HP1|]].
    intros req msg Hin. apply Hf1 in Hin. discriminate Hin.
Qed.

(** The listing loop after an answer [r], the loop itself being orderly
    with less fuel. *)
Ltac after_answer r Hprinted Hslept IH :=
  destruct (status_code r =? 401);
    [apply orderly_bind;
       [apply orderly_print, Hprinted | intros; apply orderly_ret]|];
  destruct (status_code r =? 404);
    [apply orderly_bind;
       [apply orderly_print, Hprinted | intros; apply orderly_ret]|];
  destruct (status_code r =? 429);
    [apply orderly_bind; [apply orderly_retry_wait|]; intros ?;
     apply orderly_bind; [apply orderly_print, Hprinted|]; intros _;
     apply orderly_bind; [apply orderly_sleep, Hslept|]; intros _; apply IH|];
  destruct (negb (status_code r =? 200));
    [apply orderly_bind;
       [apply orderly_print, Hprinted | intros; apply orderly_ret]|];
  destruct (body r) as [[|? ?]|];
    [apply orderly_ret | | apply orderly_raise];
  destruct (_ <? _)%nat; [apply orderly_ret | apply IH].

Section Orderly.

Variable lib : Lib.
Variable serve : list http_request -> http_request -> http_outcome.
Variable P : event -> bool.
Hypothesis P_printed : forall n, P (Printed n) = true.
Hypothesis P_slept : forall s, P (Slept s) = true.

Lemma orderly_get req :
  (forall ans, P (Got req ans) = true) -> orderly P (get serve req).
Proof.
  intros HP t r t' H. rewrite get_spec in H. injection H as <- <-.
  exists [Got req (serve (requested t) req)]. cbn. rewrite HP.
  repeat split. intros req0 msg [[= <- Hs]|[]]. now rewrite Hs.
Qed.

Lemma orderly_list_tree tree_url headers ref :
  (forall page ans, P (Got (TreePage tree_url headers ref page) ans) = true) ->
  forall fuel page all_items,
    orderly P (list_tree lib serve fuel tree_url headers ref page all_items).
Proof.
  intros HP. induction fuel as [|fuel IH]; intros page all_items;
    cbn [list_tree]; [apply orderly_timeout|].
  apply orderly_bind; [apply orderly_get, HP|]. intros r.
  after_answer r P_printed P_slept IH.
Qed.

Lemma orderly_fetch_files api pid headers ref max :
  (forall url ans, P (Got (RawFile url headers ref) ans) = true) ->
  forall blobs files skipped,
    orderly P (fetch_files lib serve api pid headers ref max blobs files skipped).
Proof.
  intros HP. induction blobs as [|[p rel] blobs IH]; intros files skipped;
    cbn [fetch_files]; [apply orderly_ret|].
  apply orderly_bind; [apply orderly_get, HP|]. intros r.
  destruct (negb (status_code r =? 200));
    [apply orderly_bind; [apply orderly_print, P_printed | intros; apply IH]|].
  destruct (_ >? _);
    apply orderly_bind; try (apply orderly_print, P_printed); intros; apply IH.
Qed.

Lemma orderly_crawl_from fuel a api pid headers ref tree_url sp :
  (forall req ans, headers_of req = headers -> ref_of req = ref ->
                   P (Got req ans) = true) ->
  orderly P (crawl_from lib serve fuel a api pid headers ref tree_url sp).
Proof.
  intros HP. unfold crawl_from. apply orderly_bind.
  - apply orderly_list_tree. intros. now apply HP.
  - intros [early|all_items]; [apply orderly_ret|].
    apply orderly_bind.
    + apply orderly_fetch_files. intros. now apply HP.
    + intros [files skipped]. apply orderly_ret.
Qed.

End Orderly.

Section Whole.

Variable lib : Lib.
Variable serve : list http_request -> http_request -> http_outcome.

(** The crawl of a locator the parser takes apart. *)
Lemma crawl_shape fuel a netloc parsed_path :
  urlparse lib (repo_url a) = Some (netloc, parsed_path) ->
  exists pid ref sp,
    crawl_gitlab_files lib serve fuel a
    = crawl_from lib serve fuel a
        (String.concat ""
           ["https://"; if String.eqb netloc "" then "gitlab.com" else netloc;
            "/api/v4"])
        pid (token_headers a) ref
        (tree_address (if String.eqb netloc "" then "gitlab.com" else netloc) pid)
        sp
    /\ (strip_slash parsed_path = ""
        -> pid = quote lib "" /\ ref = "HEAD" /\ sp = "").
Proof.
  intros Hparse. unfold crawl_gitlab_files. rewrite Hparse.
  destruct (strip_slash parsed_path) as [|c path] eqn:Hpath.
  - do 3 eexists. split; [reflexivity|]. intros _. repeat split.
  - destruct (split_slash (String c path)) as [|part parts] eqn:Hparts;
      [now apply split_slash_nonempty in Hparts|].
    destruct (index_of "-" (part :: parts)) as [dash_idx|].
    + destruct (drop (S dash_idx) (part :: parts)) as [|tree [|branch sub]];
        [| |destruct (String.eqb tree "tree")];
        do 3 eexists; (split; [reflexivity | discriminate]).
    + do 3 eexists. split; [reflexivity | discriminate].
Qed.

Lemma sent_with_ok headers ref req ans :
  headers_of req = headers -> ref_of req = ref ->
  sent_with headers ref (Got req ans) = true.
Proof.
  intros <- <-. destruct req; cbn; rewrite bool_decide_eq_true_2 by reflexivity;
    apply String.eqb_refl.
Qed.

Lemma sent_with_requested headers ref new :
  forallb (sent_with headers ref) new = true ->
  Forall (fun req => headers_of req = headers /\ ref_of req = ref) (requested new).
Proof.
  induction new as [|e new IH]; cbn [forallb]; [constructor|].
  intros [He Hnew]%andb_prop. specialize (IH Hnew).
  destruct e as [req ans| |]; try exact IH.
  unfold requested. cbn [omap]. constructor; [|exact IH].
  destruct req; cbn in He |- *; apply andb_prop in He as [Hh Hr];
    apply bool_decide_eq_true_1 in Hh; apply String.eqb_eq in Hr; auto.
Qed.

(** The first event of the listing loop is the request for its page. *)
Lemma list_tree_first tree_url headers ref fuel page all_items t b t' :
  list_tree lib serve (S fuel) tree_url headers ref page all_items t = (b, t') ->
  exists new,
    t' = new ++ Got (TreePage tree_url headers ref page)
                    (serve (requested t) (TreePage tree_url headers ref page))
                :: t.
Proof.
  cbn [list_tree]. unfold bind at 1. rewrite get_spec.
  destruct (serve (requested t) _) as [r|msg];
    [|intros [= <- <-]; now exists []].
  match goal with |- ?k ?t1 = _ -> _ =>
    assert (Ho : orderly (fun _ => true) k)
  end.
  { pose proof (orderly_list_tree lib serve (fun _ => true)
                  (fun _ => eq_refl) (fun _ => eq_refl) tree_url headers ref
                  (fun _ _ => eq_refl) fuel) as IH.
    after_answer r (fun _ : notice => @eq_refl bool true)
                 (fun _ : Z => @eq_refl bool true) IH. }
  intros H. destruct (Ho _ _ _ H) as (new & -> & _). now exists new.
Qed.

Lemma orderly_crawl fuel a :
  exists ref,
    orderly (sent_with (token_headers a) ref) (crawl_gitlab_files lib serve fuel a).
Proof.
  destruct (urlparse lib (repo_url a)) as [[netloc parsed_path]|] eqn:Hparse.
  - destruct (crawl_shape fuel a _ _ Hparse) as (pid & ref & sp & Heq & _).
    exists ref. rewrite Heq.
    apply orderly_crawl_from; try reflexivity.
    intros req ans Hh Hr. now apply sent_with_ok.
  - exists "". unfold crawl_gitlab_files. rewrite Hparse. apply orderly_raise.
Qed.

(** X11. One token and one ref for the whole crawl. Every request of a
    crawl, to the tree listing and for raw files alike, carries the same
    headers ([PRIVATE-TOKEN] with the token of the call when that is a
    non-empty string, no header otherwise) and asks for the same ref; and
    the crawl removes nothing from the trace. *)
Theorem one_token_and_ref_for_all_requests (fuel : nat) (a : args)
    (t : list event) :
  exists ref new,
    snd (crawl_gitlab_files lib serve fuel a t) = new ++ t
    /\ Forall (fun req => headers_of req = token_headers a /\ ref_of req = ref)
              (requested new).
Proof.
  destruct (orderly_crawl fuel a) as (ref & Ho).
  destruct (crawl_gitlab_files lib serve fuel a t) as [r t'] eqn:Hrun.
  destruct (Ho _ _ _ Hrun) as (new & -> & HP & _).
  exists ref, new. split; [reflexivity | now apply sent_with_requested].
Qed.

(** X12. A failed request ends the crawl. No request is tried again and no
    failure is caught: when a request of the crawl fails on the network,
    the crawl raises that [RequestException], whatever it had listed or
    downloaded before. *)
Theorem network_failure_ends_the_crawl (fuel : nat) (a : args)
    (t new : list event) (r : outcome crawl_result)
    (req : http_request) (msg : string) :
  crawl_gitlab_files lib serve fuel a t = (r, new ++ t) ->
  In (Got req (NetworkError msg)) new ->
  r = Raise (RequestException msg).
Proof.
  intros Hrun Hin. destruct (orderly_crawl fuel a) as (ref & Ho).
  destruct (Ho _ _ _ Hrun) as (new' & Heq & _ & Hf).
  apply app_inv_tail in Heq. subst new'. eauto.
Qed.

(** X13. No locator is turned down. Whatever locator [urlparse] takes apart,
    the crawl starts with the request for page 1 of the tree listing, over
    https, at the host of the locator or at [gitlab.com] when it has none,
    with the headers of the token; a locator with an empty path is not
    rejected either: its project id is the quoted empty string and its ref
    is [HEAD]. *)
Theorem every_locator_is_tried (fuel : nat) (a : args) (t : list event)
    (netloc parsed_path : string) :
  urlparse lib (repo_url a) = Some (netloc, parsed_path) ->
  exists pid ref new,
    let host := if String.eqb netloc "" then "gitlab.com" else netloc in
    let req := TreePage (tree_address host pid) (token_headers a) ref 1 in
    snd (crawl_gitlab_files lib serve (S fuel) a t)
    = new ++ Got req (serve (requested t) req) :: t
    /\ (strip_slash parsed_path = "" -> pid = quote lib "" /\ ref = "HEAD").
Proof.
  intros Hparse.
  destruct (crawl_shape (S fuel) a _ _ Hparse) as (pid & ref & sp & Heq & Hempty).
  exists pid, ref. cbv zeta. rewrite Heq. unfold crawl_from at 1, bind at 1.
  destruct (list_tree _ _ _ _ _ _ _ _ t) as [listed t1] eqn:Hl.
  apply list_tree_first in Hl as (new1 & ->).
  destruct listed as [[early|all_items]|e|].
  - exists new1. split; [reflexivity | intros Hs; destruct (Hempty Hs) as (? & ? & _); now split].
  - match goal with |- context [bind ?m ?k ?t1] =>
      destruct (bind m k t1) as [r t'] eqn:Hrun;
      assert (Ho : orderly (fun _ => true) (bind m k))
    end.
    { apply orderly_bind.
      - apply orderly_fetch_files; reflexivity.
      - intros [files skipped]. apply orderly_ret. }
    destruct (Ho _ _ _ Hrun) as (new2 & -> & _).
    exists (new2 ++ new1). rewrite <- app_assoc.
    split; [reflexivity | intros Hs; destruct (Hempty Hs) as (? & ? & _); now split].
  - exists new1. split; [reflexivity | intros Hs; destruct (Hempty Hs) as (? & ? & _); now split].
  - exists new1. split; [reflexivity | intros Hs; destruct (Hempty Hs) as (? & ? & _); now split].
Qed.

End Whole.

(** ** Every blob is accounted for *)

Lemma keep_or_skip_size max rel r acc :
  (size (fst (keep_or_skip max rel r acc))
   + length (snd (keep_or_skip max rel r acc))
   <= S (size (fst acc) + length (snd acc)))%nat
  /\ (fst acc !! rel = None ->
      size (fst (keep_or_skip max rel r acc))
      + length (snd (keep_or_skip max rel r acc))
      = S (size (fst acc) + length (snd acc)))%nat.
Proof.
  unfold keep_or_skip. destruct (negb _);
    [cbn [fst snd]; rewrite length_app; cbn; lia|].
  destruct (_ >? _); [cbn [fst snd]; rewrite length_app; cbn; lia|].
  cbn [fst snd]. rewrite map_size_insert. split.
  - destruct (fst acc !! rel); cbn; lia.
  - intros ->. lia.
Qed.

Lemma keep_or_skip_covers max rel r acc :
  is_Some (fst (keep_or_skip max rel r acc) !! rel)
  \/ In rel (map fst (snd (keep_or_skip max rel r acc))).
Proof.
  unfold keep_or_skip. destruct (negb _);
    [right; cbn [fst snd]; rewrite map_app; apply in_or_app; right; now left|].
  destruct (_ >? _);
    [right; cbn [fst snd]; rewrite map_app; apply in_or_app; right; now left|].
  left. cbn [fst]. rewrite lookup_insert_eq. eauto.
Qed.

Lemma keep_or_skip_keeps max rel r acc rel' :
  (is_Some (fst acc !! rel') -> is_Some (fst (keep_or_skip max rel r acc) !! rel'))
  /\ (In rel' (map fst (snd acc))
      -> In rel' (map fst (snd (keep_or_skip max rel r acc))))
  /\ (rel' <> rel -> fst acc !! rel' = None
      -> fst (keep_or_skip max rel r acc) !! rel' = None).
Proof.
  unfold keep_or_skip. destruct (negb _);
    [cbn [fst snd]; rewrite map_app; repeat split; auto using in_or_app|].
  destruct (_ >? _);
    [cbn [fst snd]; rewrite map_app; repeat split; auto using in_or_app|].
  cbn [fst snd]. repeat split; auto.
  - intros H. apply lookup_insert_is_Some'. now right.
  - intros Hne H. now rewrite lookup_insert_ne.
Qed.

Lemma keep_all_keeps max blobs rs acc rel' :
  is_Some (fst acc !! rel') \/ In rel' (map fst (snd acc)) ->
  is_Some (fst (keep_all max blobs rs acc) !! rel')
  \/ In rel' (map fst (snd (keep_all max blobs rs acc))).
Proof.
  revert rs acc. induction blobs as [|[p rel] blobs IH]; intros rs acc H;
    [exact H|].
  destruct rs as [|r rs]; [exact H|]. cbn [keep_all]. apply IH.
  destruct (keep_or_skip_keeps max rel r acc rel') as (Hf & Hs & _). tauto.
Qed.

Lemma keep_all_covers max blobs rs acc p rel :
  length rs = length blobs -> In (p, rel) blobs ->
  is_Some (fst (keep_all max blobs rs acc) !! rel)
  \/ In rel (map fst (snd (keep_all max blobs rs acc))).
Proof.
  revert rs acc. induction blobs as [|[p0 rel0] blobs IH]; intros rs acc Hlen Hin;
    [destruct Hin|].
  destruct rs as [|r rs]; [discriminate|]. cbn [keep_all].
  destruct Hin as [[= -> ->]|Hin].
  - apply keep_all_keeps, keep_or_skip_covers.
  - apply IH; [cbn in Hlen; lia | exact Hin].
Qed.

Lemma keep_all_size max blobs rs acc :
  length rs = length blobs ->
  (size (fst (keep_all max blobs rs acc)) + length (snd (keep_all max blobs rs acc))
   <= size (fst acc) + length (snd acc) + length blobs)%nat
  /\ (NoDup (map snd blobs) ->
      (forall rel, In rel (map snd blobs) -> fst acc !! rel = None) ->
      size (fst (keep_all max blobs rs acc))
      + length (snd (keep_all max blobs rs acc))
      = size (fst acc) + length (snd acc) + length blobs)%nat.
Proof.
  revert rs acc. induction blobs as [|[p rel] blobs IH]; intros rs acc Hlen.
  - cbn. split; [lia | intros; lia].
  - destruct rs as [|r rs]; [discriminate|]. cbn [keep_all].
    destruct (IH rs (keep_or_skip max rel r acc)) as (Hle & Heq);
      [cbn in Hlen; lia|].
    destruct (keep_or_skip_size max rel r acc) as (Hle1 & Heq1).
    split; [cbn [length]; lia|].
    cbn [map snd]. intros Hnd Hfresh. apply NoDup_cons in Hnd as (Hnotin & Hnd).
    rewrite Heq, Heq1; [cbn [length]; lia | apply Hfresh; now left | exact Hnd |].
    intros rel' Hin'.
    apply (keep_or_skip_keeps max rel r acc rel').
    + intros ->. apply Hnotin. now apply list_elem_of_In.
    + apply Hfresh. now right.
Qed.

Section Accounting.

Variable lib : Lib.
Variable serve : list http_request -> http_request -> http_outcome.

(** X14. Every blob is accounted for. When the fetch loop comes to its end,
    it has made one request per collected blob and every blob's key is a
    key of the files or the path of a skipped file; the files and the
    skipped files together are no more than the blobs, and exactly as many
    when no two blobs have the same key. *)
Theorem every_blob_is_kept_or_skipped (api pid : string)
    (headers : gmap string string) (ref : string) (max : Z)
    (blobs : list (string * string)) (t t' : list event)
    (files : gmap string string) (skipped : list (string * Z)) :
  fetch_files lib serve api pid headers ref max blobs ∅ [] t
  = (Ret (files, skipped), t') ->
  length (exchanges t') = (length blobs + length (exchanges t))%nat
  /\ (forall p rel, In (p, rel) blobs ->
        is_Some (files !! rel) \/ In rel (map fst skipped))
  /\ (size files + length skipped <= length blobs)%nat
  /\ (NoDup (map snd blobs) ->
      (size files + length skipped)%nat = length blobs).
Proof.
  intros Hrun. apply fetch_files_ret in Hrun as (rs & Hlen & Hacc & Hex).
  assert (Hf : files = fst (keep_all max blobs rs (∅, []))) by now rewrite <- Hacc.
  assert (Hs : skipped = snd (keep_all max blobs rs (∅, []))) by now rewrite <- Hacc.
  destruct (keep_all_size max blobs rs (∅, []) Hlen) as (Hle & Heq).
  rewrite <- Hf, <- Hs in Hle, Heq. cbn [fst snd length] in Hle, Heq.
  rewrite map_size_empty in Hle, Heq.
  split; [|split; [|split]].
  - rewrite Hex, length_app. unfold raw_exchanges.
    rewrite length_rev, length_zip_with. lia.
  - intros p rel Hin. rewrite Hf, Hs. now apply (keep_all_covers max blobs rs _ p).
  - lia.
  - intros Hnd. apply Heq; [exact Hnd|]. intros rel _. apply lookup_empty.
Qed.

End Accounting.

(** ** The keys of the files *)

Lemma startswith_split s p :
  PyStr.startswith s p = true ->
  s = String.append p (PyStr.drop (String.length p) s).
Proof.
  revert s. induction p as [|a p IH]; intros s H; [reflexivity|].
  destruct s as [|b s]; [discriminate|]. cbn [PyStr.startswith] in H.
  apply andb_prop in H as [Hab Hs]. apply Ascii.eqb_eq in Hab as ->.
  cbn [String.length PyStr.drop]. rewrite PyStrFacts.append_cons.
  f_equal. now apply IH.
Qed.

Lemma lstrip_slash_split s :
  exists slashes,
    s = String.append slashes (PyStr.lstrip_slash s)
    /\ PyStr.lstrip_slash slashes = ""
    /\ PyStr.lstrip_slash (PyStr.lstrip_slash s) = PyStr.lstrip_slash s.
Proof.
  unfold PyStr.lstrip_slash. induction s as [|c s (sl & Hs & Hsl & Hidem)].
  - exists "". repeat split.
  - cbn [PyStr.lstrip_by]. destruct (Ascii.eqb c "/") eqn:Hc.
    + exists (String c sl). rewrite PyStrFacts.append_cons, <- Hs.
      cbn [PyStr.lstrip_by]. rewrite Hc. repeat split; assumption.
    + exists "". cbn [PyStr.lstrip_by]. rewrite Hc. repeat split.
Qed.

(** X15. The key of a file is its path or what follows the prefix. Every
    collected blob comes from an item of type blob that passes the filter
    under its key; the key is the path in the repository, or, with relative
    paths and a non-empty specific path that the path starts with, the
    path without that prefix and the slashes after it. The prefix need not
    end at a path separator. *)
Theorem keys_are_paths_or_what_follows_the_prefix (lib : Lib)
    (use_relative_paths : bool) (specific_path : string)
    (include_patterns exclude_patterns : patterns) (all_items : list item)
    (path_item rel : string) :
  In (path_item, rel)
     (collect_blobs lib use_relative_paths specific_path
        include_patterns exclude_patterns all_items) ->
  (exists it,
     In it all_items /\ i_type it = Some "blob"
     /\ default "" (i_path it) = path_item
     /\ should_include_file lib include_patterns exclude_patterns rel
          (default "" (i_name it)) = true)
  /\ (rel = path_item
      \/ use_relative_paths = true /\ specific_path <> ""
         /\ exists slashes,
              PyStr.lstrip_slash slashes = ""
              /\ PyStr.lstrip_slash rel = rel
              /\ path_item
                 = String.append specific_path (String.append slashes rel)).
Proof.
  unfold collect_blobs. rewrite <- list_elem_of_In, list_elem_of_omap.
  intros (it & Hit & Hsome). apply list_elem_of_In in Hit.
  destruct (bool_decide_reflect (i_type it = Some "blob")) as [Hty|Hty];
    cbn [negb] in Hsome; [|discriminate].
  destruct (negb (should_include_file _ _ _ _ _)) eqn:Hinc; [discriminate|].
  apply negb_false_iff in Hinc. injection Hsome as Hp Hrel.
  rewrite Hrel in Hinc. split; [exists it; auto|].
  destruct use_relative_paths; [|left; now rewrite <- Hrel, Hp].
  destruct (String.eqb_spec specific_path "") as [->|Hne];
    [left; now rewrite <- Hrel, Hp|].
  rewrite Hp in Hrel. cbn [andb negb] in Hrel.
  destruct (PyStr.startswith path_item specific_path) eqn:Hstart;
    [|left; now rewrite <- Hrel].
  right. split; [reflexivity|]. split; [exact Hne|].
  apply startswith_split in Hstart.
  destruct (lstrip_slash_split
              (PyStr.drop (String.length specific_path) path_item))
    as (slashes & Hs & Hsl & Hidem).
  rewrite Hrel in Hs, Hidem. exists slashes.
  split; [exact Hsl|]. split; [exact Hidem|]. now rewrite <- Hs.
Qed.

End CrawlerMore.

(** * Runs of the further properties *)

Module GatewayMoreRuns.
Import Gateway GatewayProps GatewayMore Scenarios.

(** [calls_go_to_the_selected_provider] on the default branch: the one call
    of an uncached run goes to [generate_content] with the default model. *)
Lemma calls_go_to_the_selected_provider_witness :
  let out := G.steady ∅ "pong" in
  let req := branch_final out "ping" in
  In (Sent req (Reply (Some "pong")))
     (trace (snd (call_llm out "ping" false G.fresh)))
  /\ exists contents, req = GenerateContent "gemini-2.5-flash" contents.
Proof.
  intros out req.
  assert (Hin : In (Sent req (Reply (Some "pong")))
                   (trace (snd (call_llm out "ping" false G.fresh)))).
  { vm_compute. repeat (first [left; reflexivity | right]). }
  split; [exact Hin|].
  destruct (calls_go_to_the_selected_provider out "ping" false G.fresh)
    as (new & Htr & Hall).
  change (trace G.fresh) with (@nil event) in Htr. rewrite app_nil_r in Htr.
  rewrite Htr in Hin. exact (Hall _ _ Hin).
Defined.

(** [every_call_is_logged] on a call that returns "pong". *)
Lemma every_call_is_logged_witness :
  let out := G.steady ∅ "pong" in
  let run := call_llm out "ping" true G.fresh in
  fst run = Ret (JStr "pong")
  /\ In (Logged INFO (LogResponse (JStr "pong"))) (trace (snd run)).
Proof.
  intros out run.
  assert (H : fst run = Ret (JStr "pong")) by (vm_compute; reflexivity).
  split; [exact H|].
  destruct (every_call_is_logged out "ping" true G.fresh) as (new & Htr & Hlog).
  unfold run. rewrite Htr. apply in_or_app. left. exact (Hlog _ H).
Defined.

(** [non_object_cache_always_raises] on a cache file that holds an array. *)
Lemma non_object_cache_always_raises_witness :
  let out := G.steady ∅ "pong" in
  quiet out /\ ~ usable (cache_file G.array_cache)
  /\ exists e, fst (call_llm out "ping" true G.array_cache) = Raise e.
Proof.
  intros out.
  assert (Hq : quiet out) by (intros h f; reflexivity).
  assert (Hu : ~ usable (cache_file G.array_cache)) by (intros H; exact H).
  split; [exact Hq|]. split; [exact Hu|].
  exact (non_object_cache_always_raises out "ping" G.array_cache Hq Hu).
Defined.

(** [other_entries_are_kept] on a cache with an earlier entry. *)
Lemma other_entries_are_kept_witness :
  let out := G.steady ∅ "pong" in
  quiet out
  /\ (forall flushed, disk_fault out <> Some (DumpFails flushed))
  /\ "earlier" <> "ping"
  /\ entries (cache_file (snd (call_llm out "ping" true G.one_entry))) !! "earlier"
     = Some (JStr "kept").
Proof.
  intros out.
  assert (Hq : quiet out) by (intros h f; reflexivity).
  assert (Hd : forall flushed, disk_fault out <> Some (DumpFails flushed))
    by (intros flushed; discriminate).
  assert (Hne : "earlier" <> "ping") by discriminate.
  split; [exact Hq|]. split; [exact Hd|]. split; [exact Hne|].
  exact (eq_trans
           (other_entries_are_kept out "ping" G.one_entry Hq Hd "earlier" Hne)
           eq_refl).
Defined.

(** [negative_chunk_size_drops_the_prompt] on six characters against a
    limit of five and a chunk size of minus one. *)
Lemma negative_chunk_size_drops_the_prompt_witness :
  let out := G.steady G.negative_chunks "ok" in
  let limit := get_limit_chars out (branch out) in
  get_chunk_size_chars out (branch out) < 0
  /\ 0 <= limit /\ PyStr.len "abcdef" > limit
  /\ exists new,
       trace (snd (call_provider out "abcdef" G.fresh))
       = new ++ Sent (branch_final out "")
                  (respond out (sent (trace G.fresh)) (branch_final out ""))
             :: Logged INFO (LogCompressing (branch out) (PyStr.len "abcdef") limit)
             :: trace G.fresh.
Proof.
  intros out limit.
  assert (H1 : get_chunk_size_chars out (branch out) < 0)
    by (vm_compute; reflexivity).
  assert (H2 : 0 <= limit) by (vm_compute; discriminate).
  assert (H3 : PyStr.len "abcdef" > limit) by (vm_compute; reflexivity).
  split; [exact H1|]. split; [exact H2|]. split; [exact H3|].
  exact (negative_chunk_size_drops_the_prompt out "abcdef" G.fresh H1 H2 H3).
Defined.

(** [compression_pass_is_bounded] on six characters in chunks of four. *)
Lemma compression_pass_is_bounded_witness :
  let out := G.steady G.tiny_google "ok" in
  let chunk_size := get_chunk_size_chars out "google" in
  0 < chunk_size /\ 0 < PyStr.len "abcdef"
  /\ Z.of_nat (chunk_count "abcdef" chunk_size) = 2.
Proof.
  intros out chunk_size.
  assert (H1 : 0 < chunk_size) by (vm_compute; reflexivity).
  assert (H2 : 0 < PyStr.len "abcdef") by (vm_compute; reflexivity).
  split; [exact H1|]. split; [exact H2|].
  exact (eq_trans
           (proj2 (compression_pass_is_bounded out "google"
                     (branch_compress out) "abcdef" 5 G.fresh) H1 H2)
           eq_refl).
Defined.

(** [a_failed_call_writes_nothing] on a provider that fails every request,
    with an earlier entry in the cache. *)
Lemma a_failed_call_writes_nothing_witness :
  let out := G.rejecting ∅ (ClientError "no route") in
  quiet out
  /\ fst (call_llm out "ping" true G.one_entry) = Raise (ClientError "no route")
  /\ cache_file (snd (call_llm out "ping" true G.one_entry))
     = cache_file G.one_entry.
Proof.
  intros out.
  assert (Hq : quiet out) by (intros h f; reflexivity).
  assert (H : fst (call_llm out "ping" true G.one_entry)
              = Raise (ClientError "no route")) by (vm_compute; reflexivity).
  split; [exact Hq|]. split; [exact H|].
  exact (a_failed_call_writes_nothing out "ping" true G.one_entry _ Hq H).
Defined.

End GatewayMoreRuns.

Module CrawlerMoreRuns.
Import Crawler CrawlerProps CrawlerMore Scenarios.

(** [listing_follows_the_pages] on a repository of a hundred and one
    files: two requests, for the pages 1 and 2. *)
Lemma listing_follows_the_pages_witness :
  lists_by_pages C.paged "tree" ∅ "HEAD" C.page_of
  /\ (forall k, In k (page_numbers 1 1) -> (100 <= length (C.page_of k))%nat)
  /\ (length (C.page_of (1 + Z.of_nat 1)%Z) < 100)%nat
  /\ exists t',
       list_tree C.plain C.paged 3 "tree" ∅ "HEAD" 1 [] []
       = (Ret (inr (concat (map C.page_of (page_numbers 1 2)))), t')
       /\ requested t'
          = rev (map (TreePage "tree" ∅ "HEAD") (page_numbers 1 2)) ++ requested [].
Proof.
  assert (H0 : lists_by_pages C.paged "tree" ∅ "HEAD" C.page_of).
  { intros prior k. eexists. split; [reflexivity|]. split; reflexivity. }
  assert (H1 : forall k, In k (page_numbers 1 1)
                         -> (100 <= length (C.page_of k))%nat).
  { intros k [<-|[]]. vm_compute. apply le_n. }
  assert (H2 : (length (C.page_of (1 + Z.of_nat 1)%Z) < 100)%nat)
    by (vm_compute; lia).
  assert (H3 : (1 < 3)%nat) by lia.
  split; [exact H0|]. split; [exact H1|]. split; [exact H2|].
  exact (listing_follows_the_pages C.plain C.paged "tree" ∅ "HEAD" C.page_of
           1%nat 3%nat [] H0 H3 H1 H2).
Defined.

(** [rate_limiting_never_ends] on a server that always answers 429 with a
    wait of three seconds: four units of fuel, four requests for page 1. *)
Lemma rate_limiting_never_ends_witness :
  always_limits C.plain C.always_busy
  /\ exists t',
       list_tree C.plain C.always_busy 4 "tree" ∅ "HEAD" 1 [] [] = (Timeout, t')
       /\ requested t' = repeat (TreePage "tree" ∅ "HEAD" 1) 4 ++ requested [].
Proof.
  assert (H0 : always_limits C.plain C.always_busy).
  { intros prior req. eexists. exists 3.
    split; [reflexivity|]. split; [reflexivity|].
    split; [reflexivity|]. split; [unfold max_sleep; lia | reflexivity]. }
  split; [exact H0|].
  exact (rate_limiting_never_ends C.plain C.always_busy "tree" ∅ "HEAD" 1 []
           4%nat [] H0).
Defined.

(** [rate_limit_delay] on an answer with [Retry-After: 2]: the loop goes on
    after the notice and a sleep of two seconds. *)
Lemma rate_limit_delay_witness :
  let req := TreePage "tree" ∅ "HEAD" 1 in
  let resp := {| status_code := 429; retry_after := Some "2";
                 text := "slow down"; body := None |} in
  C.limiting_then_denying (requested []) req = Answer resp
  /\ status_code resp = 429
  /\ list_tree C.plain C.limiting_then_denying 2 "tree" ∅ "HEAD" 1 [] []
     = list_tree C.plain C.limiting_then_denying 1 "tree" ∅ "HEAD" 1 []
         [Slept 2; Printed (NoticeRateLimit 2); Got req (Answer resp)].
Proof.
  intros req resp.
  assert (H0 : C.limiting_then_denying (requested []) req = Answer resp)
    by reflexivity.
  assert (H1 : status_code resp = 429) by reflexivity.
  split; [exact H0|]. split; [exact H1|].
  exact (rate_limit_delay C.plain C.limiting_then_denying "tree" ∅ "HEAD" 1 []
           1%nat [] resp H0 H1).
Defined.

(** [network_failure_ends_the_crawl] on a server that drops the connection
    at the first file: the crawl raises after the listing. *)
Lemma network_failure_ends_the_crawl_witness :
  let a := C.crawl_args "https://gitlab.com/group/project" 5 in
  let run := crawl_gitlab_files C.plain C.failing_files 5 a [] in
  let req :=
    RawFile "https://gitlab.com/api/v4/projects/group%2Fproject/repository/files/docs%2Fbig.md/raw"
            ∅ "HEAD" in
  crawl_gitlab_files C.plain C.failing_files 5 a [] = (fst run, snd run ++ [])
  /\ In (Got req (NetworkError "connection reset")) (snd run)
  /\ fst run = Raise (RequestException "connection reset").
Proof.
  intros a run req.
  assert (H0 : crawl_gitlab_files C.plain C.failing_files 5 a []
               = (fst run, snd run ++ [])) by (vm_compute; reflexivity).
  assert (H1 : In (Got req (NetworkError "connection reset")) (snd run))
    by (vm_compute; left; reflexivity).
  split; [exact H0|]. split; [exact H1|].
  exact (network_failure_ends_the_crawl C.plain C.failing_files 5%nat a []
           (snd run) (fst run) req "connection reset" H0 H1).
Defined.

(** [every_locator_is_tried] on a locator without a path. *)
Lemma every_locator_is_tried_witness :
  let a := C.crawl_args "https://gitlab.com" 5 in
  urlparse C.plain (repo_url a) = Some ("gitlab.com", "")
  /\ exists pid ref new,
       let req := TreePage (tree_address "gitlab.com" pid) (token_headers a) ref 1 in
       snd (crawl_gitlab_files C.plain C.two_files 1 a [])
       = new ++ Got req (C.two_files (requested []) req) :: []
       /\ (strip_slash "" = "" -> pid = quote C.plain "" /\ ref = "HEAD").
Proof.
  intros a.
  assert (H0 : urlparse C.plain (repo_url a) = Some ("gitlab.com", ""))
    by (vm_compute; reflexivity).
  split; [exact H0|].
  exact (every_locator_is_tried C.plain C.two_files 0%nat a [] "gitlab.com" "" H0).
Defined.

(** [every_blob_is_kept_or_skipped] on two blobs, one kept and one
    skipped. *)
Lemma every_blob_is_kept_or_skipped_witness :
  let files := {[ "a.py" := "ok" ]} : gmap string string in
  let skipped := [("docs/big.md", 12)] in
  let blobs := [("docs/big.md", "docs/big.md"); ("a.py", "a.py")] in
  let fetch := fetch_files C.plain C.two_files "https://gitlab.com/api/v4"
                 "group%2Fproject" ∅ "HEAD" 5 blobs ∅ [] [] in
  fetch = (Ret (files, skipped), snd fetch)
  /\ NoDup (map snd blobs)
  /\ (size files + length skipped)%nat = length blobs.
Proof.
  intros files skipped blobs fetch.
  assert (Hf : fetch = (Ret (files, skipped), snd fetch))
    by (vm_compute; reflexivity).
  assert (Hnd : NoDup (map snd blobs)).
  { cbn. apply NoDup_cons. split.
    - rewrite list_elem_of_singleton. discriminate.
    - apply NoDup_singleton. }
  split; [exact Hf|]. split; [exact Hnd|].
  exact (proj2 (proj2 (proj2
           (every_blob_is_kept_or_skipped C.plain C.two_files
              "https://gitlab.com/api/v4" "group%2Fproject" ∅ "HEAD" 5 blobs []
              (snd fetch) files skipped Hf))) Hnd).
Defined.

(** [keys_are_paths_or_what_follows_the_prefix] on a path that starts with
    the specific path without being under it. *)
Lemma keys_are_paths_or_what_follows_the_prefix_witness :
  let items := [C.blob "docs2/a.md" "a.md"] in
  In ("docs2/a.md", "2/a.md") (collect_blobs C.plain true "docs" PNone PNone items)
  /\ ("2/a.md" = "docs2/a.md"
      \/ true = true /\ "docs" <> ""
         /\ exists slashes,
              PyStr.lstrip_slash slashes = ""
              /\ PyStr.lstrip_slash "2/a.md" = "2/a.md"
              /\ "docs2/a.md" = String.append "docs" (String.append slashes "2/a.md")).
Proof.
  intros items.
  assert (Hin : In ("docs2/a.md", "2/a.md")
                   (collect_blobs C.plain true "docs" PNone PNone items))
    by (vm_compute; left; reflexivity).
  split; [exact Hin|].
  exact (proj2 (keys_are_paths_or_what_follows_the_prefix C.plain true "docs"
                  PNone PNone items "docs2/a.md" "2/a.md" Hin)).
Defined.

End CrawlerMoreRuns.
